(** * stringmeup/taxonomy.py: the taxonomy tree and its queries

    A shallow embedding of [TaxonomyTree] (construction from the two dump
    files and the lineage / LCA / distance / rank-code / clade queries),
    followed by the properties of the specification that concern it.

    Conventions of the embedding.
    - A [tax_id] is a Python [int]: [Z].  Dictionaries keyed by [tax_id]
      are [gmap Z _], Python sets are [gset _], lists are [list _].
    - The two input files are given as the lists of their lines, each line
      already split into the fields the code reads ([split('|')],
      [strip()], [int()]); opening the files and malformed lines are
      outside the model.
    - A method of [TaxonomyTree] is a function in the monad [M]: it takes
      the object's state and returns an outcome (a value, a raised
      exception, or fuel exhaustion for a [while] loop or a recursion that
      has not finished) together with the state it leaves behind.  State
      changes made before an exception is raised persist, as in Python. *)

From Stdlib Require Import ZArith Lia.
From stdpp Require Import base option list gmap sets strings.

Local Open Scope string_scope.
Local Open Scope list_scope.
Local Open Scope Z_scope.

(** ** Data model *)

(** [@dataclass class Node]. *)
Record Node : Type := mkNode {
  name : option string;
  genbank_common_name : option string;
  rank : option string;
  parent : option Z;
  children : list Z
}.

(** [Rank = namedtuple('Rank', ['rank_name', 'rank_code', 'rank_depth'])]. *)
Record Rank : Type := mkRank {
  rank_name : option string;
  rank_code : string;
  rank_depth : Z
}.

(** [translate_rank2code]: a dict literal, kept as an association list
    because [.values()] is read in insertion order. *)
Definition translate_rank2code : list (string * string) :=
  [ ("superkingdom", "D"); ("kingdom", "K"); ("phylum", "P"); ("class", "C");
    ("order", "O"); ("family", "F"); ("genus", "G"); ("species", "S") ].

(** [d[k]] / [k in d] on a dict literal kept as an association list. *)
Fixpoint assoc {A : Type} (k : string) (d : list (string * A)) : option A :=
  match d with
  | [] => None
  | (k', v) :: d' => if decide (k = k') then Some v else assoc k d'
  end.

(** [rank in translate_rank2code] and [translate_rank2code[rank]], where
    [rank] may be [None] (never a key). *)
Definition rank2code (rk : option string) : option string :=
  match rk with
  | Some r => assoc r translate_rank2code
  | None => None
  end.

(** The state of a [TaxonomyTree] object ([__init__]); the two file names
    are not part of the model. *)
Record TaxonomyTree : Type := mkTree {
  taxonomy : gmap Z Node;
  byranks : gmap string (gset Z);
  leaves : gset Z;
  lineages : gmap Z (list Z);
  distances : gmap Z (gmap Z Z);
  lca_mappings : gmap Z (gmap Z Z)
}.

(** ** Outcomes and the state monad *)

Inductive exn : Type :=
  | KeyError
  | ValueError
  | IndexError
  | RecursionError
  | TaxonomyTreeException.

Inductive outcome (A : Type) : Type :=
  | Ok (a : A)
  | Raise (e : exn)
  | OutOfFuel.
Arguments Ok {A} a.
Arguments Raise {A} e.
Arguments OutOfFuel {A}.

Definition M (A : Type) : Type := TaxonomyTree → outcome A * TaxonomyTree.

Definition ret {A : Type} (a : A) : M A := λ s, (Ok a, s).
Definition raise {A : Type} (e : exn) : M A := λ s, (Raise e, s).
Definition out_of_fuel {A : Type} : M A := λ s, (OutOfFuel, s).

Definition bind {A B : Type} (m : M A) (f : A → M B) : M B :=
  λ s, match m s with
       | (Ok a, s') => f a s'
       | (Raise e, s') => (Raise e, s')
       | (OutOfFuel, s') => (OutOfFuel, s')
       end.

Declare Scope tax_scope.
Delimit Scope tax_scope with tax.
Notation "'let*' x ':=' m 'in' k" := (bind m (λ x, k))
  (at level 10, x name, m at level 100, k at level 200) : tax_scope.
Notation "'do' m 'then' k" := (bind m (λ _, k))
  (at level 10, m at level 100, k at level 200) : tax_scope.
Local Open Scope tax_scope.

(** Read or update the object's state. *)
Definition get_self : M TaxonomyTree := λ s, (Ok s, s).
Definition set_lineages (v : gmap Z (list Z)) : M unit :=
  λ s, (Ok tt, mkTree (taxonomy s) (byranks s) (leaves s) v (distances s) (lca_mappings s)).
Definition set_distances (v : gmap Z (gmap Z Z)) : M unit :=
  λ s, (Ok tt, mkTree (taxonomy s) (byranks s) (leaves s) (lineages s) v (lca_mappings s)).
Definition set_lca_mappings (v : gmap Z (gmap Z Z)) : M unit :=
  λ s, (Ok tt, mkTree (taxonomy s) (byranks s) (leaves s) (lineages s) (distances s) v).

(** [d[k]] on a dictionary: [KeyError] when the key is missing. *)
Definition dict_get {A : Type} (d : gmap Z A) (k : Z) : M A :=
  match d !! k with
  | Some v => ret v
  | None => raise KeyError
  end.

(** A value that may be [None] used as a key of [self.taxonomy]: [None] is
    never a key, so the lookup raises [KeyError]. *)
Definition key_of (k : option Z) : M Z :=
  match k with
  | Some k => ret k
  | None => raise KeyError
  end.

(** Monadic left fold: a [for] loop over a list. *)
Fixpoint for_each {A B : Type} (body : B → A → M B) (l : list A) (acc : B) : M B :=
  match l with
  | [] => ret acc
  | x :: l' => let* acc' := body acc x in for_each body l' acc'
  end.

(** ** Python list primitives *)

(** [l.remove(x)]: drops the first occurrence; [None] stands for the
    [ValueError] raised when there is none. *)
Fixpoint py_remove (x : Z) (l : list Z) : option (list Z) :=
  match l with
  | [] => None
  | y :: l' => if decide (x = y) then Some l' else cons y <$> py_remove x l'
  end.

(** [l.index(x)]: position of the first occurrence; [None] stands for
    [ValueError]. *)
Fixpoint py_index (x : Z) (l : list Z) : option Z :=
  match l with
  | [] => None
  | y :: l' => if decide (x = y) then Some 0 else Z.succ <$> py_index x l'
  end.

(** [l[i]] with Python's negative indices; [None] stands for [IndexError]. *)
Definition py_getitem (l : list Z) (i : Z) : option Z :=
  let n := Z.of_nat (length l) in
  if decide (0 ≤ i) then l !! Z.to_nat i
  else if decide (- n ≤ i) then l !! Z.to_nat (n + i)
  else None.

(** Truth value of [node.parent] in [while node.parent:]: [None] and [0]
    are false. *)
Definition parent_link (node : Node) : option Z :=
  match parent node with
  | Some p => if decide (p = 0) then None else Some p
  | None => None
  end.

(** ** Construction: [TaxonomyTree.construct_tree] *)

(** One entry of the local [taxid2name] dictionary: the dict with keys
    ['scientific_name'] and ['genbank_common_name']. *)
Record NameEntry : Type := mkNameEntry {
  scientific_name : option string;
  common_name : option string
}.

(** A line of names.dmp as the loop reads it:
    [(int(name_info[0]), name_info[1], name_info[3])], fields stripped. *)
Definition name_line : Type := Z * string * string.

(** A line of nodes.dmp as the loop reads it:
    [(tax_id, tax_parent, tax_rank)]. *)
Definition tax_line : Type := Z * Z * string.

(** [self.wanted_name_types]. *)
Definition wanted_name_types : list string :=
  [ "scientific name"; "genbank common name" ].

(** Body of [for name_line in f]. *)
Definition read_name (taxid2name : gmap Z NameEntry) (line : name_line)
  : outcome (gmap Z NameEntry) :=
  let '(tax_id, tax_name, name_type) := line in
  if bool_decide (name_type ∈ wanted_name_types) then
    let taxid2name :=
      match taxid2name !! tax_id with
      | Some _ => taxid2name
      | None => <[tax_id := mkNameEntry None None]> taxid2name
      end in
    match taxid2name !! tax_id with
    | None => Raise KeyError
    | Some entry =>
      if decide (name_type = "scientific name") then
        match scientific_name entry with
        | Some _ => Raise TaxonomyTreeException
        | None =>
          Ok (<[tax_id := mkNameEntry (Some tax_name) (common_name entry)]> taxid2name)
        end
      else if decide (name_type = "genbank common name") then
        match common_name entry with
        | Some _ => Raise TaxonomyTreeException
        | None =>
          Ok (<[tax_id := mkNameEntry (scientific_name entry) (Some tax_name)]> taxid2name)
        end
      else Raise TaxonomyTreeException
    end
  else Ok taxid2name.

(** The first loop of [construct_tree], over the lines of names.dmp. *)
Fixpoint read_names (lines : list name_line) (taxid2name : gmap Z NameEntry)
  : outcome (gmap Z NameEntry) :=
  match lines with
  | [] => Ok taxid2name
  | line :: lines' =>
    match read_name taxid2name line with
    | Ok taxid2name' => read_names lines' taxid2name'
    | Raise e => Raise e
    | OutOfFuel => OutOfFuel
    end
  end.

Definition set_taxonomy (v : gmap Z Node) : M unit :=
  λ s, (Ok tt, mkTree v (byranks s) (leaves s) (lineages s) (distances s) (lca_mappings s)).
Definition set_byranks (v : gmap string (gset Z)) : M unit :=
  λ s, (Ok tt, mkTree (taxonomy s) v (leaves s) (lineages s) (distances s) (lca_mappings s)).
Definition set_leaves (v : gset Z) : M unit :=
  λ s, (Ok tt, mkTree (taxonomy s) (byranks s) v (lineages s) (distances s) (lca_mappings s)).

(** [taxid2name[k]]. *)
Definition name_get (taxid2name : gmap Z NameEntry) (k : Z) : M NameEntry :=
  match taxid2name !! k with
  | Some v => ret v
  | None => raise KeyError
  end.

(** Body of [for tax_line in f]. *)
Definition read_node (taxid2name : gmap Z NameEntry) (_ : unit) (line : tax_line)
  : M unit :=
  let '(tax_id, tax_parent, tax_rank) := line in
  let* entry := name_get taxid2name tax_id in
  let tax_scientific_name := scientific_name entry in
  let tax_common_name := common_name entry in
  let* self := get_self in
  do (match taxonomy self !! tax_id with
      | Some node =>
        set_taxonomy (<[tax_id := mkNode (name node) (genbank_common_name node)
                                         (Some tax_rank) (Some tax_parent)
                                         (children node)]> (taxonomy self))
      | None =>
        do set_taxonomy (<[tax_id := mkNode tax_scientific_name tax_common_name
                                            (Some tax_rank) (Some tax_parent) []]>
                           (taxonomy self))
        then set_leaves ({[tax_id]} ∪ leaves self)
      end)
  then
  let* self := get_self in
  do (match taxonomy self !! tax_parent with
      | Some pnode =>
        do set_taxonomy (<[tax_parent := mkNode (name pnode) (genbank_common_name pnode)
                                                (rank pnode) (parent pnode)
                                                (children pnode ++ [tax_id])]>
                           (taxonomy self))
        then
        if bool_decide (tax_parent ∈ leaves self)
        then set_leaves (leaves self ∖ {[tax_parent]})
        else ret tt
      | None =>
        let* pentry := name_get taxid2name tax_parent in
        set_taxonomy (<[tax_parent := mkNode (scientific_name pentry) (common_name pentry)
                                             None None [tax_id]]>
                        (taxonomy self))
      end)
  then
  let* self := get_self in
  match byranks self !! tax_rank with
  | Some ids => set_byranks (<[tax_rank := {[tax_id]} ∪ ids]> (byranks self))
  | None => set_byranks (<[tax_rank := {[tax_id]}]> (byranks self))
  end.

(** "Adjust the root": the last four statements of [construct_tree]. *)
Definition adjust_root : M unit :=
  let* self := get_self in
  let* root := dict_get (taxonomy self) 1 in
  match py_remove 1 (children root) with
  | None => raise ValueError
  | Some root_children =>
    set_taxonomy (<[1 := mkNode (name root) (genbank_common_name root) (rank root)
                                None root_children]> (taxonomy self))
  end.

Definition lift {A : Type} (o : outcome A) : M A := λ s, (o, s).

Definition construct_tree (names : list name_line) (nodes : list tax_line) : M unit :=
  let* taxid2name := lift (read_names names ∅) in
  do for_each (read_node taxid2name) nodes tt
  then adjust_root.

(** [TaxonomyTree(nodes_filename, names_filename)]: [__init__] sets the
    empty containers and calls [construct_tree]; the object exists only if
    no exception escapes. *)
Definition empty_tree : TaxonomyTree := mkTree ∅ ∅ ∅ ∅ ∅ ∅.

Definition TaxonomyTree_init (nodes : list tax_line) (names : list name_line)
  : outcome TaxonomyTree :=
  match construct_tree names nodes empty_tree with
  | (Ok _, self) => Ok self
  | (Raise e, _) => Raise e
  | (OutOfFuel, _) => OutOfFuel
  end.

(** ** Field access: [_get_property], [get_node] and the [get_*] wrappers *)

(** [if self.taxonomy:] -- an empty dict is false. *)
Definition taxonomy_built (self : TaxonomyTree) : bool :=
  bool_decide (taxonomy self ≠ ∅).

(** [_get_property(tax_id, property)]; the property name is the
    projection itself, so the [AttributeError] branch cannot be taken. *)
Definition _get_property {A : Type} (tax_id : Z) (property : Node → A) : M A :=
  let* self := get_self in
  if taxonomy_built self then
    let* node := dict_get (taxonomy self) tax_id in
    ret (property node)
  else raise TaxonomyTreeException.

(** The common shape of [get_name], [get_children], [get_parent],
    [get_rank]: a dict filled by a loop over the input list. *)
Definition get_properties {A : Type} (property : Node → A) (tax_id_list : list Z)
  : M (gmap Z A) :=
  for_each (λ d tax_id, let* v := _get_property tax_id property in
                        ret (<[tax_id := v]> d))
           tax_id_list ∅.

Definition get_name := get_properties name.
Definition get_common_name := get_properties genbank_common_name.
Definition get_children := get_properties children.
Definition get_parent := get_properties parent.
Definition get_rank := get_properties rank.

Definition get_node (tax_id_list : list Z) : M (gmap Z Node) :=
  let* self := get_self in
  if taxonomy_built self then
    for_each (λ node_dict tax_id,
                let* node := dict_get (taxonomy self) tax_id in
                ret (<[tax_id := node]> node_dict))
             tax_id_list ∅
  else raise TaxonomyTreeException.

(** ** Ancestry: [get_lineage], [get_lca], [get_distance] *)

(** The loop [while node.parent: ...] of [get_lineage]; [fuel] bounds the
    number of times the loop condition is evaluated. *)
Fixpoint lineage_loop (fuel : nat) (node : Node) (lineage : list Z) : M (list Z) :=
  match fuel with
  | O => out_of_fuel
  | S fuel' =>
    match parent_link node with
    | Some p =>
      let lineage := lineage ++ [p] in
      let* node_dict := get_node [p] in
      let* node := dict_get node_dict p in
      lineage_loop fuel' node lineage
    | None => ret lineage
    end
  end.

(** Body of [for tax_id in tax_id_list] in [get_lineage]. *)
Definition get_lineage_step (fuel : nat) (lineage_dict : gmap Z (list Z)) (tax_id : Z)
  : M (gmap Z (list Z)) :=
  let* self := get_self in
  match lineages self !! tax_id with
  | Some lineage => ret (<[tax_id := lineage]> lineage_dict)
  | None =>
    let lineage := [tax_id] in
    let* node_dict := get_node [tax_id] in
    let* node := dict_get node_dict tax_id in
    let* lineage := lineage_loop fuel node lineage in
    let lineage := reverse lineage in
    let lineage_dict := <[tax_id := lineage]> lineage_dict in
    let* self := get_self in
    do set_lineages (<[tax_id := lineage]> (lineages self))
    then ret lineage_dict
  end.

Definition get_lineage (fuel : nat) (tax_id_list : list Z) : M (gmap Z (list Z)) :=
  for_each (get_lineage_step fuel) tax_id_list ∅.

(** [lineages[tax_id_1][len(common_lineage) - 1]] where [common_lineage]
    is the intersection of the two lineages as sets. *)
Definition lca_of_lineages (lineage_1 lineage_2 : list Z) : option Z :=
  let common_lineage : gset Z := list_to_set lineage_1 ∩ list_to_set lineage_2 in
  py_getitem lineage_1 (Z.of_nat (size common_lineage) - 1).

(** The cache protocol shared by [get_lca] and [get_distance]: look the
    pair up under (smaller, larger); create the inner dict for the smaller
    identifier when it has none. *)
Definition cached_pair (cache : gmap Z (gmap Z Z)) (tax_id_small tax_id_large : Z)
  : option Z * gmap Z (gmap Z Z) :=
  match cache !! tax_id_small with
  | Some inner => (inner !! tax_id_large, cache)
  | None => (None, <[tax_id_small := ∅]> cache)
  end.

(** [cache[tax_id_small][tax_id_large] = v]. *)
Definition store_pair (cache : gmap Z (gmap Z Z)) (tax_id_small tax_id_large v : Z)
  : M (gmap Z (gmap Z Z)) :=
  let* inner := dict_get cache tax_id_small in
  ret (<[tax_id_small := <[tax_id_large := v]> inner]> cache).

Definition get_lca (fuel : nat) (tax_id_1 tax_id_2 : Z) : M Z :=
  let tax_id_small := Z.min tax_id_1 tax_id_2 in
  let tax_id_large := Z.max tax_id_1 tax_id_2 in
  let* self := get_self in
  let '(lca, cache) := cached_pair (lca_mappings self) tax_id_small tax_id_large in
  do set_lca_mappings cache
  then
  match lca with
  | Some lca => ret lca
  | None =>
    let* lineages := get_lineage fuel [tax_id_1; tax_id_2] in
    let* lineage_1 := dict_get lineages tax_id_1 in
    let* lineage_2 := dict_get lineages tax_id_2 in
    match lca_of_lineages lineage_1 lineage_2 with
    | None => raise IndexError
    | Some lca =>
      let* self := get_self in
      let* cache := store_pair (lca_mappings self) tax_id_small tax_id_large lca in
      do set_lca_mappings cache
      then ret lca
    end
  end.

(** The nested function [one_way_distance] of [get_distance]. *)
Definition one_way_distance (fuel : nat) (tax_id_ancestor tax_id : Z) : M Z :=
  let* lineage_dict := get_lineage fuel [tax_id] in
  let* lineage := dict_get lineage_dict tax_id in
  match py_index tax_id_ancestor lineage with
  | None => raise ValueError
  | Some ancestor_index =>
    match py_index tax_id lineage with
    | None => raise ValueError
    | Some tax_id_index => ret (tax_id_index - ancestor_index)
    end
  end.

Definition get_distance (fuel : nat) (tax_id_1 tax_id_2 : Z) : M Z :=
  let tax_id_small := Z.min tax_id_1 tax_id_2 in
  let tax_id_large := Z.max tax_id_1 tax_id_2 in
  let* self := get_self in
  let '(distance, cache) := cached_pair (distances self) tax_id_small tax_id_large in
  do set_distances cache
  then
  match distance with
  | Some distance => ret distance
  | None =>
    let* lca := get_lca fuel tax_id_1 tax_id_2 in
    let* distance_1 := one_way_distance fuel lca tax_id_1 in
    let* distance_2 := one_way_distance fuel lca tax_id_2 in
    let distance := distance_1 + distance_2 in
    let* self := get_self in
    let* cache := store_pair (distances self) tax_id_small tax_id_large distance in
    do set_distances cache
    then ret distance
  end.

(** ** Rank codes: [get_rank_code] *)

(** The keys of a dict filled from a list, in insertion order: each key
    once, at its first occurrence. *)
Fixpoint dict_keys (seen : list Z) (l : list Z) : list Z :=
  match l with
  | [] => []
  | k :: l' =>
    if bool_decide (k ∈ seen) then dict_keys seen l' else k :: dict_keys (k :: seen) l'
  end.

(** The loop [while not rank_code: ...] of [get_rank_code], returning
    [(rank_code, current_node)].  Every code the loop assigns is a
    non-empty string, so the loop ends with the assignment. *)
Fixpoint rank_code_loop (fuel : nat) (rk : option string) (current_node : Z)
  : M (string * Z) :=
  match fuel with
  | O => out_of_fuel
  | S fuel' =>
    match rank2code rk with
    | Some code => ret (code, current_node)
    | None =>
      if decide (current_node = 1) then ret ("R", current_node)
      else
        let* parent_dict := get_parent [current_node] in
        let* up := dict_get parent_dict current_node in
        let* current_node := key_of up in
        let* rank_dict := get_rank [current_node] in
        let* rk := dict_get rank_dict current_node in
        rank_code_loop fuel' rk current_node
    end
  end.

(** Body of [for tax_id in rank_dict] in [get_rank_code]. *)
Definition get_rank_code_step (fuel : nat) (rank_dict : gmap Z (option string))
    (rank_code_dict : gmap Z Rank) (tax_id : Z) : M (gmap Z Rank) :=
  let* rk := dict_get rank_dict tax_id in
  let* found := rank_code_loop fuel rk tax_id in
  let '(code, current_node) := found in
  let* depth := get_distance fuel current_node tax_id in
  let* name_dict := get_rank [tax_id] in
  let* rname := dict_get name_dict tax_id in
  ret (<[tax_id := mkRank rname code depth]> rank_code_dict).

Definition get_rank_code (fuel : nat) (tax_id_list : list Z) : M (gmap Z Rank) :=
  let* rank_dict := get_rank tax_id_list in
  for_each (get_rank_code_step fuel rank_dict) (dict_keys [] tax_id_list) ∅.

(** ** Subtrees: [get_clade], [get_clade_rank_taxids], [get_siblings] *)

(** The loop [while children_pool: ...] of [get_clade].  [set.pop()]
    removes an arbitrary element; the model takes the first of
    [elements], the final clade does not depend on the choice. *)
Fixpoint clade_loop (fuel : nat) (children_pool clade : gset Z) : M (gset Z) :=
  match fuel with
  | O => out_of_fuel
  | S fuel' =>
    match elements children_pool with
    | [] => ret clade
    | clade_taxon :: _ =>
      let children_pool := children_pool ∖ {[clade_taxon]} in
      let* node_dict := get_node [clade_taxon] in
      let* node := dict_get node_dict clade_taxon in
      let new_children : gset Z := list_to_set (children node) in
      clade_loop fuel' (children_pool ∪ new_children) (clade ∪ new_children)
    end
  end.

Definition get_clade (fuel : nat) (tax_id_list : list Z) : M (gmap Z (gset Z)) :=
  for_each (λ clade_dict tax_id,
              let* node_dict := get_node [tax_id] in
              let* node := dict_get node_dict tax_id in
              let children_pool : gset Z := list_to_set (children node) in
              let* clade := clade_loop fuel children_pool ({[tax_id]} ∪ children_pool) in
              ret (<[tax_id := clade]> clade_dict))
           tax_id_list ∅.

(** The nested function [get_leaves_dfs] of [get_leaves]; the state is
    the pair of the [visited_nodes] and [clade_leaves] sets that every
    recursive call mutates.  The function is recursive in the source, one
    interpreter frame per level of the tree: [limit] is the number of
    nested calls the interpreter still allows, and a call beyond it
    raises [RecursionError], as the source does on a tree deeper than
    that.  The value a call returns is only used at the top, where it is
    [clade_leaves]. *)
Fixpoint get_leaves_dfs (limit : nat) (st : gset Z * gset Z) (tax_id : Z)
  : M (gset Z * gset Z) :=
  match limit with
  | O => raise RecursionError
  | S limit' =>
    let '(visited_nodes, clade_leaves) := st in
    if bool_decide (tax_id ∈ visited_nodes) then ret st
    else
      let visited_nodes := {[tax_id]} ∪ visited_nodes in
      let* children_dict := get_children [tax_id] in
      let* children := dict_get children_dict tax_id in
      match children with
      | [] => ret (visited_nodes, {[tax_id]} ∪ clade_leaves)
      | _ :: _ => for_each (get_leaves_dfs limit') children (visited_nodes, clade_leaves)
      end
  end.

(** [get_leaves(tax_ids)]; the default argument is [[1]]. *)
Definition get_leaves (limit : nat) (tax_ids : list Z) : M (gmap Z (gset Z)) :=
  for_each (λ clade_dict tax_id,
              let* st := get_leaves_dfs limit (∅, ∅) tax_id in
              ret (<[tax_id := st.2]> clade_dict))
           tax_ids ∅.

(** [canonical_ranks = translate_rank2code.values()]. *)
Definition canonical_ranks : list string := translate_rank2code.*2.

(** [enumerate(l)] from a given start. *)
Fixpoint enumerate {A : Type} (start : Z) (l : list A) : list (Z * A) :=
  match l with
  | [] => []
  | x :: l' => (start, x) :: enumerate (start + 1) l'
  end.

(** [canonical_rank_weights]: R is 0, D is 1, ..., S is 8. *)
Definition canonical_rank_weights : list (string * Z) :=
  (λ wr, (wr.2, wr.1)) <$> enumerate 0 ("R" :: canonical_ranks).

(** [set(s)] for a string [s]: the set of its one-character substrings. *)
Fixpoint string_chars (s : string) : gset string :=
  match s with
  | EmptyString => ∅
  | String c s' => {[ String c EmptyString ]} ∪ string_chars s'
  end.

(** The local state of one top-level [dfs] call of
    [get_clade_rank_taxids]: the shared [visited_nodes] set and
    [tax_lvl_dict] dictionary that every recursive call mutates. *)
Definition dfs_state : Type := gset Z * gmap string (gset Z).

(** [any([rank_code_weight < canonical_rank_weights[rank] for rank in wanted_ranks])]. *)
Definition wanted_below (rank_code_weight : Z) (wanted_ranks : gset string) : M bool :=
  for_each (λ found r,
              match assoc r canonical_rank_weights with
              | Some w => ret (found || bool_decide (rank_code_weight < w))
              | None => raise KeyError
              end)
           (elements wanted_ranks) false.

(** The nested function [dfs] of [get_clade_rank_taxids]; [fuel] bounds
    the recursion depth. *)
Fixpoint dfs (fuel : nat) (wanted_ranks : gset string) (st : dfs_state) (tax_id : Z)
  : M dfs_state :=
  match fuel with
  | O => out_of_fuel
  | S fuel' =>
    let '(visited_nodes, tax_lvl_dict) := st in
    if bool_decide (tax_id ∈ visited_nodes) then ret st
    else
      let visited_nodes := {[tax_id]} ∪ visited_nodes in
      let* code_dict := get_rank_code fuel' [tax_id] in
      let* taxonomy_rank := dict_get code_dict tax_id in
      let code := rank_code taxonomy_rank in
      let* tax_lvl_dict :=
        (if bool_decide (rank_depth taxonomy_rank = 0) then
           if bool_decide (code ∈ wanted_ranks) then
             match tax_lvl_dict !! code with
             | Some ids => ret (<[code := {[tax_id]} ∪ ids]> tax_lvl_dict)
             | None => raise KeyError
             end
           else ret tax_lvl_dict
         else ret tax_lvl_dict) in
      match assoc code canonical_rank_weights with
      | None => raise KeyError
      | Some rank_code_weight =>
        let* descend := wanted_below rank_code_weight wanted_ranks in
        if descend then
          let* children_dict := get_children [tax_id] in
          let* children := dict_get children_dict tax_id in
          for_each (dfs fuel' wanted_ranks) children (visited_nodes, tax_lvl_dict)
        else ret (visited_nodes, tax_lvl_dict)
      end
  end.

(** [get_clade_rank_taxids(tax_ids, rank=None)]; [rk] is the [rank]
    argument, false when [None] or empty. *)
Definition get_clade_rank_taxids (fuel : nat) (tax_ids : list Z) (rk : option string)
  : M (gmap Z (gmap string (gset Z))) :=
  let clade_tax_rank_dict : gmap Z (gmap string (gset Z)) :=
    list_to_map ((λ tax_id, (tax_id, ∅)) <$> tax_ids) in
  let* wanted_ranks :=
    match rk with
    | Some r =>
      if decide (r = "") then ret (list_to_set canonical_ranks)
      else match assoc r translate_rank2code with
           | Some code => ret (string_chars code)
           | None => raise KeyError
           end
    | None => ret (list_to_set canonical_ranks)
    end in
  for_each (λ clade_tax_rank_dict tax_id,
              let tax_lvl_dict : gmap string (gset Z) :=
                set_to_map (λ tax_lvl, (tax_lvl, ∅)) wanted_ranks in
              let* st := dfs fuel wanted_ranks (∅, tax_lvl_dict) tax_id in
              ret (<[tax_id := st.2]> clade_tax_rank_dict))
           tax_ids clade_tax_rank_dict.

(** [rank_codes] of [get_siblings]. *)
Definition rank_codes : list string := [ "S"; "G"; "F"; "O"; "C"; "P" ].

(** The nested function [get_parent] of [get_siblings]: the loop
    [while not parent_rank_ok: ...]. *)
Fixpoint siblings_parent (fuel : nat) (current_tax_id : Z) : M Z :=
  match fuel with
  | O => out_of_fuel
  | S fuel' =>
    let* parent_dict := get_parent [current_tax_id] in
    let* up := dict_get parent_dict current_tax_id in
    let* above := key_of up in
    let* code_dict := get_rank_code fuel' [above] in
    let* taxonomy_rank := dict_get code_dict above in
    if bool_decide (rank_code taxonomy_rank ∈ rank_codes)
       && bool_decide (rank_depth taxonomy_rank = 0)
    then ret above
    else if decide (above = 1) then ret above
    else siblings_parent fuel' above
  end.

(** The nested function [dfs] of [get_siblings]; the state is the pair of
    the enclosing [visited_nodes] and [siblings] sets. *)
Fixpoint siblings_dfs (fuel : nat) (wanted_rank : string) (st : gset Z * gset Z)
    (tax_id : Z) : M (gset Z * gset Z) :=
  match fuel with
  | O => out_of_fuel
  | S fuel' =>
    let '(visited_nodes, siblings) := st in
    if bool_decide (tax_id ∈ visited_nodes) then ret st
    else
      let visited_nodes := {[tax_id]} ∪ visited_nodes in
      let* code_dict := get_rank_code fuel' [tax_id] in
      let* taxonomy_rank := dict_get code_dict tax_id in
      if decide (rank_code taxonomy_rank ≠ wanted_rank) then
        let* children_dict := get_children [tax_id] in
        let* children := dict_get children_dict tax_id in
        for_each (siblings_dfs fuel' wanted_rank) children (visited_nodes, siblings)
      else ret (visited_nodes, {[tax_id]} ∪ siblings)
  end.

Definition get_siblings (fuel : nat) (tax_id : Z) : M (gset Z) :=
  let* code_dict := get_rank_code fuel [tax_id] in
  let* tax_id_rank := dict_get code_dict tax_id in
  let rk := rank_code tax_id_rank in
  if decide (rank_depth tax_id_rank ≠ 0) then raise TaxonomyTreeException
  else
    let* above := siblings_parent fuel tax_id in
    let* st := siblings_dfs fuel rk (∅, ∅) above in
    ret st.2.

(** * Properties *)

(** Unfold the monad on a goal or hypothesis. *)
Ltac run :=
  unfold bind, ret, raise, out_of_fuel, lift, get_self, dict_get, name_get, key_of,
    set_taxonomy, set_byranks, set_leaves, set_lineages, set_distances,
    set_lca_mappings in *;
  cbn [taxonomy byranks leaves lineages distances lca_mappings] in *.

(** ** The name source: at most one name of each kind per identifier *)

Section names.

(** [seen pre tax_id name_type]: a line of that kind for [tax_id] occurs
    in [pre]. *)
Definition seen (pre : list name_line) (tax_id : Z) (name_type : string) : Prop :=
  ∃ tax_name, (tax_id, tax_name, name_type) ∈ pre.

(** A second wanted name of the same kind for the same identifier. *)
Definition duplicate_name (names : list name_line) : Prop :=
  ∃ pre post tax_id tax_name name_type,
    names = pre ++ (tax_id, tax_name, name_type) :: post
    ∧ name_type ∈ wanted_name_types
    ∧ seen pre tax_id name_type.

(** What [taxid2name] records after the lines [pre]. *)
Definition names_inv (pre : list name_line) (taxid2name : gmap Z NameEntry) : Prop :=
  ∀ tax_id,
    (is_Some (taxid2name !! tax_id ≫= scientific_name)
       ↔ seen pre tax_id "scientific name")
    ∧ (is_Some (taxid2name !! tax_id ≫= common_name)
       ↔ seen pre tax_id "genbank common name").

Lemma seen_snoc pre line tax_id name_type :
  seen (pre ++ [line]) tax_id name_type
  ↔ seen pre tax_id name_type ∨ (line.1.1 = tax_id ∧ line.2 = name_type).
Proof.
  unfold seen. split.
  - intros [n Hn]. apply elem_of_app in Hn as [Hn | Hn]; [left; eauto |].
    apply list_elem_of_singleton in Hn. subst line. by right.
  - intros [[n Hn] | [<- <-]].
    + exists n. apply elem_of_app. by left.
    + destruct line as [[i n] ty]. exists n. apply elem_of_app. right.
      by apply list_elem_of_singleton.
Qed.

Lemma wanted_cases name_type :
  name_type ∈ wanted_name_types
  ↔ name_type = "scientific name" ∨ name_type = "genbank common name".
Proof.
  unfold wanted_name_types. rewrite !elem_of_cons, elem_of_nil. tauto.
Qed.

Lemma names_inv_nil : names_inv [] ∅.
Proof.
  intros i. rewrite lookup_empty. cbn.
  split; (split; [by intros [? ?] | intros [? H]; by apply elem_of_nil in H]).
Qed.

(** One line: the step either keeps the invariant or raises exactly when
    the line is a second name of its kind. *)
Lemma read_name_spec pre taxid2name line :
  names_inv pre taxid2name →
  (∃ taxid2name', read_name taxid2name line = Ok taxid2name'
                  ∧ names_inv (pre ++ [line]) taxid2name'
                  ∧ ¬ (line.2 ∈ wanted_name_types ∧ seen pre line.1.1 line.2))
  ∨ (read_name taxid2name line = Raise TaxonomyTreeException
     ∧ line.2 ∈ wanted_name_types ∧ seen pre line.1.1 line.2).
Proof.
  intros Hinv. destruct line as [[i n] ty]. cbn [fst snd].
  unfold read_name. case_bool_decide as Hw.
  2:{ left. exists taxid2name. split_and!; [done | | tauto].
      intros j. destruct (Hinv j) as [H1 H2].
      rewrite !seen_snoc. cbn [fst snd].
      rewrite wanted_cases in Hw. split; [rewrite H1 | rewrite H2]; naive_solver. }
  set (t2 := match taxid2name !! i with
             | Some _ => taxid2name
             | None => <[i := mkNameEntry None None]> taxid2name
             end).
  assert (Ht2 : ∀ j, t2 !! j ≫= scientific_name = taxid2name !! j ≫= scientific_name
                     ∧ t2 !! j ≫= common_name = taxid2name !! j ≫= common_name).
  { intros j. subst t2. destruct (taxid2name !! i) eqn:Hi; [done |].
    destruct (decide (i = j)) as [<- | Hne].
    - by rewrite lookup_insert_eq, Hi.
    - by rewrite lookup_insert_ne. }
  assert (Hi2 : is_Some (t2 !! i)).
  { subst t2. destruct (taxid2name !! i) eqn:Hi; [by rewrite Hi |].
    by rewrite lookup_insert_eq. }
  destruct Hi2 as [entry Hentry]. rewrite Hentry.
  pose proof (Hinv i) as [Hsci Hcom].
  pose proof (Ht2 i) as [Hsi Hci]. rewrite Hentry in Hsi, Hci. cbn in Hsi, Hci.
  apply wanted_cases in Hw as Hty.
  destruct (decide (ty = "scientific name")) as [-> | Hns].
  - destruct (scientific_name entry) as [old |] eqn:Hold.
    + right. split_and!; [done | done |]. apply Hsci. rewrite <- Hsi. eauto.
    + left. eexists. split_and!; [done | |].
      * intros j. destruct (Hinv j) as [H1 H2]. destruct (Ht2 j) as [E1 E2].
        rewrite !seen_snoc. cbn [fst snd].
        destruct (decide (i = j)) as [<- | Hne].
        -- rewrite lookup_insert_eq. cbn. split.
           ++ split; [intros _; by right | eauto].
           ++ rewrite <- H2, <- Hci. cbn. naive_solver.
        -- rewrite lookup_insert_ne by done. rewrite E1, E2, H1, H2. naive_solver.
      * intros [_ Hs]. apply Hsci in Hs. rewrite <- Hsi in Hs. by destruct Hs.
  - destruct Hty as [-> | ->]; [done |].
    destruct (decide ("genbank common name" = "genbank common name")); [| done].
    destruct (common_name entry) as [old |] eqn:Hold.
    + right. split_and!; [done | done |]. apply Hcom. rewrite <- Hci. eauto.
    + left. eexists. split_and!; [done | |].
      * intros j. destruct (Hinv j) as [H1 H2]. destruct (Ht2 j) as [E1 E2].
        rewrite !seen_snoc. cbn [fst snd].
        destruct (decide (i = j)) as [<- | Hne].
        -- rewrite lookup_insert_eq. cbn. split.
           ++ rewrite <- H1, <- Hsi. cbn. naive_solver.
           ++ split; [intros _; by right | eauto].
        -- rewrite lookup_insert_ne by done. rewrite E1, E2, H1, H2. naive_solver.
      * intros [_ Hs]. apply Hcom in Hs. rewrite <- Hci in Hs. by destruct Hs.
Qed.

(** The whole loop, started after the lines [pre]. *)
Lemma read_names_spec lines : ∀ pre taxid2name,
  names_inv pre taxid2name →
  (∃ taxid2name', read_names lines taxid2name = Ok taxid2name'
                  ∧ names_inv (pre ++ lines) taxid2name'
                  ∧ ¬ ∃ mid post tax_id tax_name name_type,
                        lines = mid ++ (tax_id, tax_name, name_type) :: post
                        ∧ name_type ∈ wanted_name_types
                        ∧ seen (pre ++ mid) tax_id name_type)
  ∨ (read_names lines taxid2name = Raise TaxonomyTreeException
     ∧ ∃ mid post tax_id tax_name name_type,
         lines = mid ++ (tax_id, tax_name, name_type) :: post
         ∧ name_type ∈ wanted_name_types
         ∧ seen (pre ++ mid) tax_id name_type).
Proof.
  induction lines as [| line lines IH]; intros pre taxid2name Hinv.
  - left. exists taxid2name. rewrite app_nil_r. split_and!; [done | done |].
    intros (mid & post & ? & ? & ? & Heq & _). by destruct mid.
  - cbn [read_names].
    destruct (read_name_spec pre taxid2name line Hinv)
      as [(t' & -> & Hinv' & Hnd) | (-> & Hw & Hs)].
    + destruct (IH (pre ++ [line]) t' Hinv')
        as [(t'' & -> & Hinv'' & Hnd') | (-> & Hdup)].
      * left. exists t''. rewrite <- app_assoc in Hinv''. split_and!; [done | done |].
        intros (mid & post & i & n & ty & Heq & Hw & Hs).
        destruct mid as [| m mid]; cbn in Heq; simplify_eq.
        -- apply Hnd. rewrite app_nil_r in Hs. done.
        -- apply Hnd'. exists mid, post, i, n, ty.
           rewrite <- app_assoc. done.
      * right. split; [done |].
        destruct Hdup as (mid & post & i & n & ty & -> & Hw & Hs).
        exists (line :: mid), post, i, n, ty. rewrite <- app_assoc in Hs. done.
    + right. split; [done |]. destruct line as [[i n] ty].
      exists [], lines, i, n, ty. rewrite app_nil_r. done.
Qed.

Lemma read_names_raises names :
  read_names names ∅ = Raise TaxonomyTreeException ↔ duplicate_name names.
Proof.
  destruct (read_names_spec names [] ∅ names_inv_nil)
    as [(t & Hok & _ & Hnd) | (Hr & Hdup)].
  - split; [by rewrite Hok |]. intros Hdup. by destruct Hnd.
  - done.
Qed.

Lemma read_names_outcome names :
  (∃ taxid2name, read_names names ∅ = Ok taxid2name)
  ∨ read_names names ∅ = Raise TaxonomyTreeException.
Proof.
  destruct (read_names_spec names [] ∅ names_inv_nil)
    as [(t & Hok & _) | (Hr & _)]; eauto.
Qed.

End names.

(** ** The node source: what [construct_tree] builds *)

Section construction.

(** The first half of the loop body on the taxonomy: the node of
    [tax_id] is updated in place or created. *)
Definition upsert_node (entry : NameEntry) (tax_id tax_parent : Z) (tax_rank : string)
    (t : gmap Z Node) : gmap Z Node :=
  match t !! tax_id with
  | Some node =>
    <[tax_id := mkNode (name node) (genbank_common_name node)
                       (Some tax_rank) (Some tax_parent) (children node)]> t
  | None =>
    <[tax_id := mkNode (scientific_name entry) (common_name entry)
                       (Some tax_rank) (Some tax_parent) []]> t
  end.

(** The second half: [tax_id] becomes a child of [tax_parent], whose
    node is created with no rank and no parent when missing. *)
Definition link_parent (pentry : option NameEntry) (tax_id tax_parent : Z)
    (t : gmap Z Node) : gmap Z Node :=
  match t !! tax_parent with
  | Some pnode =>
    <[tax_parent := mkNode (name pnode) (genbank_common_name pnode) (rank pnode)
                           (parent pnode) (children pnode ++ [tax_id])]> t
  | None =>
    <[tax_parent := mkNode (pentry ≫= scientific_name) (pentry ≫= common_name)
                           None None [tax_id]]> t
  end.

(** [read_node] succeeds exactly when the names it reads exist, and then
    the taxonomy is updated by the two halves; the caches are not
    touched. *)
Lemma read_node_spec taxid2name u tax_id tax_parent tax_rank s :
  match taxid2name !! tax_id with
  | None => ∃ s', read_node taxid2name u (tax_id, tax_parent, tax_rank) s = (Raise KeyError, s')
  | Some entry =>
    let t1 := upsert_node entry tax_id tax_parent tax_rank (taxonomy s) in
    if bool_decide (is_Some (t1 !! tax_parent) ∨ is_Some (taxid2name !! tax_parent))
    then ∃ s', read_node taxid2name u (tax_id, tax_parent, tax_rank) s = (Ok tt, s')
               ∧ taxonomy s' = link_parent (taxid2name !! tax_parent) tax_id tax_parent t1
               ∧ lineages s' = lineages s
               ∧ distances s' = distances s
               ∧ lca_mappings s' = lca_mappings s
    else ∃ s', read_node taxid2name u (tax_id, tax_parent, tax_rank) s = (Raise KeyError, s')
  end.
Proof.
  unfold read_node. run.
  destruct (taxid2name !! tax_id) as [entry |] eqn:He; [| eauto].
  cbn zeta. unfold upsert_node, link_parent.
  destruct (taxonomy s !! tax_id) as [node |] eqn:Hn; cbn; rewrite ?Hn; cbn;
    (match goal with
     | |- context [bool_decide (is_Some (?m !! tax_parent) ∨ _)] =>
       destruct (m !! tax_parent) as [pnode |] eqn:Hp
     end); cbn; rewrite ?Hp; cbn.
  - rewrite ?bool_decide_eq_true_2 by eauto.
    case_bool_decide; cbn; destruct (byranks s !! tax_rank); cbn; eauto 10.
  - destruct (taxid2name !! tax_parent) as [pe |] eqn:Hpe; cbn.
    + rewrite ?bool_decide_eq_true_2 by eauto.
      destruct (byranks s !! tax_rank); cbn; eauto 10.
    + rewrite ?bool_decide_eq_false_2 by (intros [[? ?] | [? ?]]; done). eauto.
  - rewrite ?bool_decide_eq_true_2 by eauto.
    case_bool_decide; cbn; destruct (byranks s !! tax_rank); cbn; eauto 10.
  - destruct (taxid2name !! tax_parent) as [pe |] eqn:Hpe; cbn.
    + rewrite ?bool_decide_eq_true_2 by eauto.
      destruct (byranks s !! tax_rank); cbn; eauto 10.
    + rewrite ?bool_decide_eq_false_2 by (intros [[? ?] | [? ?]]; done). eauto.
Qed.

(** The node written by each half. *)
Definition upserted (entry : NameEntry) (tax_id tax_parent : Z) (tax_rank : string)
    (t : gmap Z Node) : Node :=
  match t !! tax_id with
  | Some node => mkNode (name node) (genbank_common_name node)
                        (Some tax_rank) (Some tax_parent) (children node)
  | None => mkNode (scientific_name entry) (common_name entry)
                   (Some tax_rank) (Some tax_parent) []
  end.

Definition linked (pentry : option NameEntry) (tax_id tax_parent : Z)
    (t : gmap Z Node) : Node :=
  match t !! tax_parent with
  | Some pnode => mkNode (name pnode) (genbank_common_name pnode) (rank pnode)
                         (parent pnode) (children pnode ++ [tax_id])
  | None => mkNode (pentry ≫= scientific_name) (pentry ≫= common_name)
                   None None [tax_id]
  end.

Lemma lookup_upsert entry tax_id tax_parent tax_rank t k :
  upsert_node entry tax_id tax_parent tax_rank t !! k
  = if decide (k = tax_id) then Some (upserted entry tax_id tax_parent tax_rank t)
    else t !! k.
Proof.
  unfold upsert_node, upserted.
  destruct (t !! tax_id); (case_decide as Hk; [subst k; by rewrite lookup_insert_eq |
                                               by rewrite lookup_insert_ne]).
Qed.

Lemma lookup_link pentry tax_id tax_parent t k :
  link_parent pentry tax_id tax_parent t !! k
  = if decide (k = tax_parent) then Some (linked pentry tax_id tax_parent t)
    else t !! k.
Proof.
  unfold link_parent, linked.
  destruct (t !! tax_parent); (case_decide as Hk; [subst k; by rewrite lookup_insert_eq |
                                                   by rewrite lookup_insert_ne]).
Qed.

(** Identifiers with a record line, identifiers referenced as a parent,
    and the children the lines give to an identifier, in line order. *)
Definition ids (nodes : list tax_line) : list Z := (λ l : tax_line, l.1.1) <$> nodes.
Definition parents (nodes : list tax_line) : list Z := (λ l : tax_line, l.1.2) <$> nodes.
Definition children_of (nodes : list tax_line) (k : Z) : list Z :=
  (λ l : tax_line, l.1.1) <$> filter (λ l : tax_line, l.1.2 = k) nodes.

Lemma children_of_snoc pre tax_id tax_parent tax_rank k :
  children_of (pre ++ [(tax_id, tax_parent, tax_rank)]) k
  = children_of pre k ++ (if decide (tax_parent = k) then [tax_id] else []).
Proof.
  unfold children_of. rewrite filter_app, fmap_app. f_equal.
  rewrite filter_cons, filter_nil. cbn [fst snd].
  case_decide; by rewrite ?decide_True, ?decide_False by done.
Qed.

Lemma children_of_not_parent pre k : k ∉ parents pre → children_of pre k = [].
Proof.
  unfold children_of, parents. induction pre as [| l pre IH]; [done |].
  rewrite fmap_cons, not_elem_of_cons. intros [Hl Hpre].
  rewrite filter_cons, decide_False by done. auto.
Qed.

(** The state after the lines [pre] of the node source. *)
Record nodes_inv (pre : list tax_line) (s : TaxonomyTree) : Prop := {
  ni_own : ∀ k, k ∈ ids pre →
           ∃ node, taxonomy s !! k = Some node ∧ is_Some (parent node);
  ni_parents : ∀ k, k ∈ parents pre → is_Some (taxonomy s !! k);
  ni_dom : ∀ k, is_Some (taxonomy s !! k) → k ∈ ids pre ∨ k ∈ parents pre;
  ni_children : ∀ k node, taxonomy s !! k = Some node →
                children node = children_of pre k;
  ni_closed : ∀ k node p, taxonomy s !! k = Some node → parent node = Some p →
              is_Some (taxonomy s !! p);
  ni_lineages : lineages s = ∅;
  ni_distances : distances s = ∅;
  ni_lca_mappings : lca_mappings s = ∅
}.

Lemma nodes_inv_empty : nodes_inv [] empty_tree.
Proof.
  split; cbn; try done.
  - intros k Hk. by apply elem_of_nil in Hk.
  - intros k Hk. by apply elem_of_nil in Hk.
  - intros k [? Hk]. by rewrite lookup_empty in Hk.
Qed.

Lemma nodes_inv_step taxid2name pre u line s v s' :
  nodes_inv pre s →
  read_node taxid2name u line s = (Ok v, s') →
  nodes_inv (pre ++ [line]) s'.
Proof.
  intros [Hown Hpar Hdom Hch Hcl Hl Hd Hm] Hrun.
  destruct line as [[i p] r].
  pose proof (read_node_spec taxid2name u i p r s) as Hspec.
  destruct (taxid2name !! i) as [entry |]; [| destruct Hspec as [? ?]; congruence].
  cbn zeta in Hspec. case_bool_decide as Hp;
    [| destruct Hspec as [? ?]; congruence].
  destruct Hspec as (s2 & Hrun2 & Ht & Hl2 & Hd2 & Hm2).
  rewrite Hrun in Hrun2. simplify_eq.
  set (t1 := upsert_node entry i p r (taxonomy s)) in *.
  assert (Hlk : ∀ k, taxonomy s2 !! k
            = if decide (k = p) then Some (linked (taxid2name !! p) i p t1)
              else if decide (k = i) then Some (upserted entry i p r (taxonomy s))
              else taxonomy s !! k).
  { intros k. rewrite Ht, lookup_link. case_decide; [done |].
    subst t1. by rewrite lookup_upsert. }
  assert (Ht1i : t1 !! i = Some (upserted entry i p r (taxonomy s))).
  { subst t1. by rewrite lookup_upsert, decide_True. }
  assert (Hup_parent : parent (upserted entry i p r (taxonomy s)) = Some p).
  { unfold upserted. by destruct (taxonomy s !! i). }
  assert (Hup_children : children (upserted entry i p r (taxonomy s)) = children_of pre i).
  { unfold upserted. destruct (taxonomy s !! i) as [n |] eqn:Hi; cbn.
    - by apply Hch.
    - symmetry. apply children_of_not_parent. intros Hin.
      apply Hpar in Hin as [? ?]. congruence. }
  assert (Hlinked : ∀ pn, t1 !! p = Some pn →
            linked (taxid2name !! p) i p t1
            = mkNode (name pn) (genbank_common_name pn) (rank pn) (parent pn)
                     (children pn ++ [i])).
  { intros pn Hpn. unfold linked. by rewrite Hpn. }
  assert (Hlinked_none : t1 !! p = None →
            linked (taxid2name !! p) i p t1
            = mkNode (taxid2name !! p ≫= scientific_name)
                     (taxid2name !! p ≫= common_name) None None [i]).
  { intros Hpn. unfold linked. by rewrite Hpn. }
  assert (Ht1p_ne : p ≠ i → t1 !! p = taxonomy s !! p).
  { intros Hne. subst t1. by rewrite lookup_upsert, decide_False. }
  split.
  - (* own lines have a parent *)
    intros k Hk. unfold ids in Hk. rewrite fmap_app, elem_of_app in Hk.
    rewrite (Hlk k). destruct (decide (k = p)) as [-> | Hkp].
    + destruct (decide (p = i)) as [-> | Hpi].
      * erewrite Hlinked by done. eexists; split; [done |]. cbn.
        rewrite Hup_parent. eauto.
      * destruct Hk as [Hk | Hk].
        -- destruct (Hown p Hk) as (n & Hn & Hsome).
           erewrite Hlinked by (by rewrite Ht1p_ne). eexists; split; done.
        -- apply list_elem_of_singleton in Hk. cbn in Hk. done.
    + destruct (decide (k = i)) as [-> | Hki].
      * eexists; split; [done |]. rewrite Hup_parent. eauto.
      * destruct Hk as [Hk | Hk]; [by apply Hown |].
        apply list_elem_of_singleton in Hk. cbn in Hk. done.
  - (* referenced parents are registered *)
    intros k Hk. unfold parents in Hk. rewrite fmap_app, elem_of_app in Hk.
    rewrite (Hlk k). destruct (decide (k = p)); [eauto |].
    destruct (decide (k = i)); [eauto |].
    destruct Hk as [Hk | Hk]; [by apply Hpar |].
    apply list_elem_of_singleton in Hk. cbn in Hk. done.
  - (* nothing else is registered *)
    intros k. rewrite (Hlk k). unfold ids, parents. rewrite !fmap_app, !elem_of_app.
    cbn. rewrite !list_elem_of_singleton.
    destruct (decide (k = p)); [naive_solver |].
    destruct (decide (k = i)); [naive_solver |].
    intros Hk. apply Hdom in Hk. unfold ids, parents in Hk. tauto.
  - (* children, in line order *)
    intros k node. rewrite (Hlk k), children_of_snoc.
    destruct (decide (k = p)) as [-> | Hkp].
    + rewrite decide_True by done. intros [= <-].
      destruct (decide (p = i)) as [-> | Hpi].
      * erewrite Hlinked by done. cbn. by rewrite Hup_children.
      * destruct (taxonomy s !! p) as [pn |] eqn:Hpn.
        -- erewrite Hlinked by (by rewrite Ht1p_ne). cbn. f_equal. by apply Hch.
        -- rewrite Hlinked_none by (by rewrite Ht1p_ne). cbn.
           rewrite children_of_not_parent; [done |].
           intros Hin. apply Hpar in Hin as [? ?]. congruence.
    + rewrite (decide_False (P := p = k)) by congruence. rewrite app_nil_r.
      destruct (decide (k = i)) as [-> | Hki]; [by intros [= <-] | apply Hch].
  - (* parents are keys *)
    intros k node q. rewrite (Hlk k), (Hlk q).
    assert (Hqp : is_Some (if decide (q = p)
              then Some (linked (taxid2name !! p) i p t1)
              else if decide (q = i) then Some (upserted entry i p r (taxonomy s))
              else taxonomy s !! q) ↔ q = p ∨ q = i ∨ is_Some (taxonomy s !! q)).
    { destruct (decide (q = p)); [naive_solver |].
      destruct (decide (q = i)); naive_solver. }
    rewrite Hqp. clear Hqp.
    destruct (decide (k = p)) as [-> | Hkp].
    + intros [= <-]. destruct (decide (p = i)) as [-> | Hpi].
      * erewrite Hlinked by done. cbn. rewrite Hup_parent.
        intros [= <-]. by left.
      * destruct (taxonomy s !! p) as [pn |] eqn:Hpn.
        -- erewrite Hlinked by (by rewrite Ht1p_ne). cbn.
           intros Hq. right; right. by eapply Hcl.
        -- rewrite Hlinked_none by (by rewrite Ht1p_ne). done.
    + destruct (decide (k = i)) as [-> | Hki].
      * intros [= <-]. rewrite Hup_parent. intros [= <-]. by left.
      * intros Hk Hq. right; right. by eapply Hcl.
  - congruence.
  - congruence.
  - congruence.
Qed.

(** A [for] loop keeps an invariant indexed by the items consumed. *)
Lemma for_each_inv {A B : Type} (body : B → A → M B)
    (P : list A → TaxonomyTree → Prop) (l : list A) :
  (∀ pre acc x s acc' s', P pre s → body acc x s = (Ok acc', s') → P (pre ++ [x]) s') →
  ∀ pre acc s acc' s',
    P pre s → for_each body l acc s = (Ok acc', s') → P (pre ++ l) s'.
Proof.
  intros Hstep. induction l as [| x l IH]; intros pre acc s acc' s' HP Hrun.
  - cbn in Hrun. run. simplify_eq. by rewrite app_nil_r.
  - cbn [for_each] in Hrun. unfold bind in Hrun.
    destruct (body acc x s) as [[a | e |] s1] eqn:Hb; try done.
    rewrite (assoc_L _ pre [x] l : pre ++ x :: l = (pre ++ [x]) ++ l).
    eapply IH; [| exact Hrun]. eapply Hstep; eauto.
Qed.

(** The root adjustment: the first occurrence of 1 leaves the root's
    children, and the root's parent becomes [None]. *)
Lemma adjust_root_spec s v s' :
  adjust_root s = (Ok v, s') →
  ∃ root root_children,
    taxonomy s !! 1 = Some root
    ∧ py_remove 1 (children root) = Some root_children
    ∧ taxonomy s' = <[1 := mkNode (name root) (genbank_common_name root) (rank root)
                                  None root_children]> (taxonomy s)
    ∧ lineages s' = lineages s
    ∧ distances s' = distances s
    ∧ lca_mappings s' = lca_mappings s.
Proof.
  unfold adjust_root. run.
  destruct (taxonomy s !! 1) as [root |] eqn:Hroot; cbn; [| done].
  destruct (py_remove 1 (children root)) as [rc |] eqn:Hrc; cbn; [| done].
  intros [= <- <-]. exists root, rc. done.
Qed.

(** The shape of every successfully constructed object. *)
Lemma init_spec nodes names self :
  TaxonomyTree_init nodes names = Ok self →
  ∃ taxid2name s1 root root_children,
    read_names names ∅ = Ok taxid2name
    ∧ for_each (read_node taxid2name) nodes tt empty_tree = (Ok tt, s1)
    ∧ nodes_inv nodes s1
    ∧ taxonomy s1 !! 1 = Some root
    ∧ py_remove 1 (children root) = Some root_children
    ∧ taxonomy self = <[1 := mkNode (name root) (genbank_common_name root) (rank root)
                                    None root_children]> (taxonomy s1)
    ∧ lineages self = ∅ ∧ distances self = ∅ ∧ lca_mappings self = ∅.
Proof.
  unfold TaxonomyTree_init, construct_tree. unfold bind at 1. unfold lift.
  destruct (read_names names ∅) as [taxid2name | e |] eqn:Hnames; try done.
  unfold bind.
  destruct (for_each (read_node taxid2name) nodes tt empty_tree)
    as [[[] | e |] s1] eqn:Hnodes; try done.
  destruct (adjust_root s1) as [[[] | e |] s2] eqn:Hadj; try done.
  intros [= <-].
  assert (Hinv : nodes_inv ([] ++ nodes) s1).
  { eapply (for_each_inv (read_node taxid2name) nodes_inv);
      [| exact nodes_inv_empty | exact Hnodes].
    intros pre acc x s acc' s' HP Hb. by eapply nodes_inv_step. }
  cbn in Hinv.
  apply adjust_root_spec in Hadj as (root & rc & Hroot & Hrc & Ht & Hl & Hd & Hm).
  exists taxid2name, s1, root, rc. destruct Hinv.
  split_and!; try done; congruence.
Qed.

(** Occurrences and [list.remove]. *)
Lemma py_remove_count x l l' :
  py_remove x l = Some l' →
  length (filter (eq x) l) = S (length (filter (eq x) l')).
Proof.
  revert l'. induction l as [| y l IH]; intros l'; cbn [py_remove]; [done |].
  destruct (decide (x = y)) as [<- | Hne].
  - intros [= <-]. by rewrite filter_cons, decide_True.
  - destruct (py_remove x l) as [l0 |]; cbn [fmap option_fmap option_map]; [| done].
    intros [= <-]. rewrite !filter_cons, !decide_False by done. by apply IH.
Qed.

Lemma count_elem_of (x : Z) (l : list Z) :
  x ∈ l → (0 < length (filter (eq x) l))%nat.
Proof.
  intros Hx. assert (Hf : x ∈ filter (eq x) l) by (by apply list_elem_of_filter).
  destruct (filter (eq x) l); [by apply elem_of_nil in Hf | cbn; lia].
Qed.

(** The root's own record lines. *)
Definition root_lines (nodes : list tax_line) : list tax_line :=
  filter (λ l : tax_line, l.1.1 = 1 ∧ l.1.2 = 1) nodes.

Lemma children_of_root_count nodes :
  length (filter (eq 1) (children_of nodes 1)) = length (root_lines nodes).
Proof.
  unfold children_of, root_lines. induction nodes as [| [[i p] r] nodes IH]; [done |].
  rewrite !filter_cons. cbn [fst snd].
  destruct (decide (p = 1)) as [-> | Hp].
  - rewrite fmap_cons, filter_cons. cbn [fst snd].
    destruct (decide (1 = i)) as [<- | Hi].
    + rewrite decide_True by done. cbn. by rewrite IH.
    + rewrite decide_False by naive_solver. done.
  - rewrite decide_False by naive_solver. done.
Qed.

(** A [for] loop raises only what its body raises. *)
Lemma for_each_raise {A B : Type} (body : B → A → M B) (e : exn) (l : list A) :
  (∀ acc x s s', body acc x s ≠ (Raise e, s')) →
  ∀ acc s s', for_each body l acc s ≠ (Raise e, s').
Proof.
  intros Hbody. induction l as [| x l IH]; intros acc s s'; cbn [for_each].
  - by run.
  - unfold bind. destruct (body acc x s) as [[a | e' |] s1] eqn:Hb.
    + apply IH.
    + intros [= -> ->]. by apply Hbody in Hb.
    + done.
Qed.

Lemma read_node_outcome taxid2name u line s :
  (∃ s', read_node taxid2name u line s = (Ok tt, s'))
  ∨ (∃ s', read_node taxid2name u line s = (Raise KeyError, s')).
Proof.
  destruct line as [[i p] r].
  pose proof (read_node_spec taxid2name u i p r s) as Hspec.
  destruct (taxid2name !! i); [| by right].
  cbn zeta in Hspec. case_bool_decide; [left | by right].
  destruct Hspec as (s' & ? & _). eauto.
Qed.

(** After the name source is read, construction can only end in a
    [KeyError] (a name or the root is missing) or a [ValueError] (the root
    is not its own child). *)
Lemma node_phase_not_tree_exception taxid2name nodes s s' :
  (do for_each (read_node taxid2name) nodes tt then adjust_root) s
  ≠ (Raise TaxonomyTreeException, s').
Proof.
  unfold bind.
  destruct (for_each (read_node taxid2name) nodes tt s) as [[[] | e |] s1] eqn:Hn.
  - unfold adjust_root. run. destruct (taxonomy s1 !! 1) as [root |]; cbn; [| done].
    by destruct (py_remove 1 (children root)).
  - intros [= -> ->]. revert Hn. apply for_each_raise.
    intros acc x s0 s0' Hb.
    destruct (read_node_outcome taxid2name acc x s0) as [[? ?] | [? ?]]; congruence.
  - done.
Qed.

(** A node line whose identifier or parent has no entry in [taxid2name]
    stops the second loop with a [KeyError]: every identifier that enters
    the taxonomy has had its names read. *)
Lemma read_nodes_missing_name taxid2name nodes : ∀ s,
  (∀ k, is_Some (taxonomy s !! k) → is_Some (taxid2name !! k)) →
  (∃ k, (k ∈ ids nodes ∨ k ∈ parents nodes) ∧ taxid2name !! k = None) →
  ∃ s', for_each (read_node taxid2name) nodes tt s = (Raise KeyError, s').
Proof.
  induction nodes as [| [[i p] r] nodes IH]; intros s Hdom (k & Hk & Hnone).
  - unfold ids, parents in Hk. cbn in Hk. rewrite !elem_of_nil in Hk. tauto.
  - cbn [for_each]. unfold bind.
    pose proof (read_node_spec taxid2name tt i p r s) as Hspec.
    destruct (taxid2name !! i) as [entry |] eqn:Hi;
      [| destruct Hspec as [s' ->]; eauto].
    cbn zeta in Hspec. case_bool_decide as Hp;
      [| destruct Hspec as [s' ->]; eauto].
    destruct Hspec as (s1 & -> & Ht & _).
    assert (Hpname : is_Some (taxid2name !! p)).
    { destruct Hp as [Hp | Hp]; [| done]. rewrite lookup_upsert in Hp.
      case_decide; [by subst p; rewrite Hi | by apply Hdom]. }
    apply IH.
    + intros j. rewrite Ht, lookup_link, lookup_upsert.
      repeat case_decide; subst; rewrite ?Hi; eauto.
    + exists k. split; [| done]. unfold ids, parents in *. cbn in Hk.
      rewrite !elem_of_cons in Hk.
      destruct Hk as [[-> | Hk] | [-> | Hk]]; eauto.
      * rewrite Hi in Hnone. done.
      * rewrite Hnone in Hpname. by destruct Hpname.
Qed.

End construction.


(** ** Worked inputs *)

(** The example scenario of the specification: the root, the genus Pinus
    and two of its species. *)
Definition pinus_names : list name_line :=
  [ (1, "root", "scientific name");
    (10, "Pinus", "scientific name");
    (100, "Pinus taeda", "scientific name");
    (100, "loblolly pine", "genbank common name");
    (101, "Pinus strobus", "scientific name");
    (101, "Weymouth pine", "synonym") ].

Definition pinus_nodes : list tax_line :=
  [ (1, 1, "no rank"); (10, 1, "genus"); (100, 10, "species"); (101, 10, "species") ].

(** The object a successful construction returns, [empty_tree] otherwise. *)
Definition built (nodes : list tax_line) (names : list name_line) : TaxonomyTree :=
  match TaxonomyTree_init nodes names with
  | Ok self => self
  | _ => empty_tree
  end.

Definition pinus : TaxonomyTree := built pinus_nodes pinus_names.

Lemma pinus_built : TaxonomyTree_init pinus_nodes pinus_names = Ok pinus.
Proof. vm_compute. reflexivity. Qed.

(** ** Claims on construction *)

(** C9. Reading the name source fails with [TaxonomyTreeException] (the
    duplicate-name error) exactly when some wanted name line is the second
    of its kind ("scientific name" or "genbank common name") for its
    identifier; the build then aborts with that exception, and a name
    source with at most one name of each kind per identifier never makes
    construction raise it. *)
Theorem duplicate_name_aborts (nodes : list tax_line) (names : list name_line) :
  TaxonomyTree_init nodes names = Raise TaxonomyTreeException ↔ duplicate_name names.
Proof.
  rewrite <- read_names_raises.
  unfold TaxonomyTree_init, construct_tree. unfold bind at 1. unfold lift.
  destruct (read_names names ∅) as [taxid2name | e |] eqn:Hnames.
  - split; [| done].
    destruct ((do for_each (read_node taxid2name) nodes tt then adjust_root) empty_tree)
      as [[[] | e |] s1] eqn:Hrun; try done.
    intros [= ->]. by apply node_phase_not_tree_exception in Hrun.
  - split; congruence.
  - destruct (read_names_outcome names) as [[? ?] | ?]; congruence.
Qed.

(** A node source that references a parent, 7, which has no record line of
    its own; [orphan_names] names every identifier, [orphan_names_short]
    leaves 7 out, and [orphan_names_twice] leaves 7 out and names 5
    twice. *)
Definition orphan_nodes : list tax_line :=
  [ (1, 1, "no rank"); (5, 7, "species") ].

Definition orphan_names_short : list name_line :=
  [ (1, "root", "scientific name"); (5, "five", "scientific name") ].

Definition orphan_names : list name_line :=
  orphan_names_short ++ [ (7, "seven", "scientific name") ].

Definition orphan_names_twice : list name_line :=
  orphan_names_short ++ [ (5, "cinq", "scientific name") ].

Definition orphan : TaxonomyTree := built orphan_nodes orphan_names.

Lemma orphan_built : TaxonomyTree_init orphan_nodes orphan_names = Ok orphan.
Proof. vm_compute. reflexivity. Qed.

(** A node source whose root record line occurs twice. *)
Definition twice_nodes : list tax_line :=
  [ (1, 1, "no rank"); (1, 1, "no rank") ].

Definition twice_names : list name_line :=
  [ (1, "root", "scientific name") ].

Definition twice : TaxonomyTree := built twice_nodes twice_names.

Lemma twice_built : TaxonomyTree_init twice_nodes twice_names = Ok twice.
Proof. vm_compute. reflexivity. Qed.

(** C5, as amended. After [construct_tree] succeeds on a node source in
    which every referenced parent has a record line of its own and the
    root's record line (identifier 1 with parent 1) occurs at most once,
    the root has parent [None], is not among its own children, and is the
    only node whose parent is [None]. *)
Theorem root_normalized (nodes : list tax_line) (names : list name_line)
    (self : TaxonomyTree) :
  TaxonomyTree_init nodes names = Ok self →
  (∀ p, p ∈ parents nodes → p ∈ ids nodes) →
  (length (root_lines nodes) ≤ 1)%nat →
  ∃ root, taxonomy self !! 1 = Some root
          ∧ parent root = None
          ∧ (1 ∉ children root)
          ∧ ∀ k node, taxonomy self !! k = Some node → parent node = None → k = 1.
Proof.
  intros Hinit Hrefs Honce.
  apply init_spec in Hinit
    as (taxid2name & s1 & root & rc & _ & _ & Hinv & Hroot & Hrc & Ht & _).
  destruct Hinv as [Hown _ Hdom Hch _ _ _ _].
  eexists. rewrite Ht, lookup_insert_eq. split_and!; [done | done | cbn |].
  - intros Hin. apply count_elem_of in Hin.
    apply py_remove_count in Hrc.
    rewrite (Hch 1 root Hroot), children_of_root_count in Hrc. lia.
  - intros k node Hk Hnone. destruct (decide (k = 1)) as [| Hne]; [done |].
    rewrite lookup_insert_ne in Hk by done.
    assert (Hin : k ∈ ids nodes).
    { destruct (Hdom k) as [? | ?]; eauto. }
    destruct (Hown k Hin) as (node' & Hk' & Hsome).
    rewrite Hk in Hk'. simplify_eq. rewrite Hnone in Hsome. by destruct Hsome.
Qed.

Lemma root_normalized_witness :
  ∃ root, taxonomy pinus !! 1 = Some root
          ∧ parent root = None
          ∧ (1 ∉ children root)
          ∧ ∀ k node, taxonomy pinus !! k = Some node → parent node = None → k = 1.
Proof.
  apply (root_normalized pinus_nodes pinus_names pinus).
  - vm_compute. reflexivity.
  - intros p Hp. vm_compute in Hp. vm_compute.
    repeat (apply elem_of_cons in Hp as [-> | Hp]);
      [by left | by left | by right; left | by right; left |].
    by apply elem_of_nil in Hp.
  - vm_compute. lia.
Defined.

(** The claim as stated fails when the root's record line is repeated:
    every referenced parent has a record line, construction succeeds, and
    [list.remove] has dropped only the first of the two occurrences of 1 in
    the root's children. *)
Lemma root_normalized_counterexample :
  TaxonomyTree_init twice_nodes twice_names = Ok twice
  ∧ (∀ p, p ∈ parents twice_nodes → p ∈ ids twice_nodes)
  ∧ ∃ root, taxonomy twice !! 1 = Some root ∧ 1 ∈ children root.
Proof.
  split_and!.
  - exact twice_built.
  - intros p Hp. vm_compute in Hp. vm_compute.
    repeat (apply elem_of_cons in Hp as [-> | Hp]); [by left | by left |].
    by apply elem_of_nil in Hp.
  - eexists. split; [vm_compute; reflexivity |]. by left.
Qed.

(** ** Field access *)

(** What [self.taxonomy[tax_id]] gives inside [_get_property] and
    [get_node]. *)
Definition lookup_node (s : TaxonomyTree) (tax_id : Z) : outcome Node :=
  if taxonomy_built s then
    match taxonomy s !! tax_id with
    | Some node => Ok node
    | None => Raise KeyError
    end
  else Raise TaxonomyTreeException.

Lemma taxonomy_built_lookup s k node :
  taxonomy s !! k = Some node → taxonomy_built s = true.
Proof.
  intros Hk. unfold taxonomy_built. apply bool_decide_eq_true.
  intros Hempty. by rewrite Hempty, lookup_empty in Hk.
Qed.

Lemma lookup_node_found s k node :
  taxonomy s !! k = Some node → lookup_node s k = Ok node.
Proof.
  intros Hk. unfold lookup_node. by rewrite (taxonomy_built_lookup s k node Hk), Hk.
Qed.

Lemma lookup_node_ok s k node :
  lookup_node s k = Ok node → taxonomy s !! k = Some node.
Proof.
  unfold lookup_node. destruct (taxonomy_built s); [| done].
  destruct (taxonomy s !! k); [| done]. congruence.
Qed.

(** [self.get_node([k])[k]] followed by the rest of the computation. *)
Lemma get_node_one {B : Type} (k : Z) (f : Node → M B) s :
  (let* node_dict := get_node [k] in let* node := dict_get node_dict k in f node) s
  = match lookup_node s k with
    | Ok node => f node s
    | Raise e => (Raise e, s)
    | OutOfFuel => (OutOfFuel, s)
    end.
Proof.
  unfold get_node, lookup_node. run.
  destruct (taxonomy_built s); [| done]. cbn [for_each]. run.
  destruct (taxonomy s !! k); cbn; [| done]. by rewrite lookup_insert_eq.
Qed.

(** [self.get_parent([k])[k]], [self.get_rank([k])[k]], ... followed by
    the rest of the computation. *)
Lemma get_properties_one {A B : Type} (property : Node → A) (k : Z) (f : A → M B) s :
  (let* d := get_properties property [k] in let* v := dict_get d k in f v) s
  = match lookup_node s k with
    | Ok node => f (property node) s
    | Raise e => (Raise e, s)
    | OutOfFuel => (OutOfFuel, s)
    end.
Proof.
  unfold get_properties, _get_property, lookup_node. cbn [for_each]. run.
  destruct (taxonomy_built s); [| done].
  destruct (taxonomy s !! k); cbn; [| done]. by rewrite lookup_insert_eq.
Qed.

(** ** Lineages *)

(** [lineage_of t id l]: [l] is the chain of parents of [id] in [t],
    root-first and ending with [id], as the loop [while node.parent:]
    follows it: it stops at the first node whose parent is [None] or 0. *)
Inductive lineage_of (t : gmap Z Node) : Z → list Z → Prop :=
  | lineage_top id node :
      t !! id = Some node → parent_link node = None → lineage_of t id [id]
  | lineage_step id node p l :
      t !! id = Some node → parent_link node = Some p →
      lineage_of t p l → lineage_of t id (l ++ [id]).

Lemma lineage_of_node t id l : lineage_of t id l → is_Some (t !! id).
Proof. destruct 1; eauto. Qed.

Lemma lineage_of_last t id l : lineage_of t id l → last l = Some id.
Proof. destruct 1; [done | by rewrite last_snoc]. Qed.

Lemma lineage_of_reverse t id l :
  lineage_of t id l → reverse l = id :: tail (reverse l).
Proof. destruct 1; [done | by rewrite reverse_snoc]. Qed.

Lemma lineage_of_det t id l :
  lineage_of t id l → ∀ l', lineage_of t id l' → l = l'.
Proof.
  induction 1 as [id node Hn Hp | id node p l Hn Hp Hl IH]; intros l' Hl'.
  - destruct Hl' as [id node' Hn' Hp' | id node' p' l' Hn' Hp' Hl']; [done |].
    congruence.
  - destruct Hl' as [id node' Hn' Hp' | id node' p' l' Hn' Hp' Hl']; [congruence |].
    simplify_eq. f_equal. by apply IH.
Qed.

(** The lineage of any member of a lineage is a prefix of it. *)
Lemma lineage_of_prefix t id l :
  lineage_of t id l → ∀ x, x ∈ l → ∃ lx r, lineage_of t x lx ∧ l = lx ++ r.
Proof.
  induction 1 as [id node Hn Hp | id node p l Hn Hp Hl IH]; intros x Hx.
  - apply list_elem_of_singleton in Hx as ->. exists [id], [].
    split; [by eapply lineage_top | done].
  - apply elem_of_app in Hx as [Hx | Hx].
    + destruct (IH x Hx) as (lx & r & Hlx & ->). exists lx, (r ++ [id]).
      by rewrite app_assoc.
    + apply list_elem_of_singleton in Hx as ->. exists (l ++ [id]), [].
      split; [by eapply lineage_step | by rewrite app_nil_r].
Qed.

Lemma lineage_of_NoDup t id l : lineage_of t id l → NoDup l.
Proof.
  induction 1 as [id node Hn Hp | id node p l Hn Hp Hl IH].
  - apply NoDup_singleton.
  - apply NoDup_app. split_and!; [done | | apply NoDup_singleton].
    intros x Hx Hid. apply list_elem_of_singleton in Hid as ->.
    assert (Hfull : lineage_of t id (l ++ [id])) by (by eapply lineage_step).
    destruct (lineage_of_prefix t p l Hl id Hx) as (lx & r & Hlx & Heq).
    pose proof (lineage_of_det _ _ _ Hfull _ Hlx) as <-.
    apply (f_equal length) in Heq. rewrite !length_app in Heq. cbn in Heq. lia.
Qed.

Lemma lineage_of_members t id l x :
  lineage_of t id l → x ∈ l → is_Some (t !! x).
Proof.
  intros Hl Hx. destruct (lineage_of_prefix t id l Hl x Hx) as (lx & _ & Hlx & _).
  by eapply lineage_of_node.
Qed.

(** The loop of [get_lineage] computes the chain, for any fuel at least the
    length of the chain, and leaves the state alone. *)
Lemma lineage_loop_complete s id l :
  lineage_of (taxonomy s) id l →
  ∀ node acc fuel, taxonomy s !! id = Some node → (length l ≤ fuel)%nat →
    lineage_loop fuel node acc s = (Ok (acc ++ tail (reverse l)), s).
Proof.
  induction 1 as [id node Hn Hp | id node p l Hn Hp Hl IH];
    intros node' acc fuel Hnode Hfuel; simplify_eq.
  - destruct fuel as [| fuel]; [cbn in Hfuel; lia |].
    cbn [lineage_loop]. rewrite Hp. cbn. by rewrite app_nil_r.
  - rewrite length_app in Hfuel. cbn in Hfuel.
    destruct fuel as [| fuel]; [lia |].
    cbn [lineage_loop]. rewrite Hp. cbn zeta. rewrite get_node_one.
    destruct (lineage_of_node _ _ _ Hl) as [pnode Hpnode].
    rewrite (lookup_node_found _ _ _ Hpnode).
    rewrite (IH pnode (acc ++ [p]) fuel Hpnode) by lia.
    rewrite reverse_snoc. cbn [tail].
    rewrite (lineage_of_reverse _ _ _ Hl) at 2. by rewrite <- app_assoc.
Qed.

Lemma lineage_loop_state fuel : ∀ node acc s o s',
  lineage_loop fuel node acc s = (o, s') → s' = s.
Proof.
  induction fuel as [| fuel IH]; intros node acc s o s'; cbn [lineage_loop].
  - by intros [= _ <-].
  - destruct (parent_link node) as [p |]; [| by intros [= _ <-]].
    cbn zeta. rewrite get_node_one.
    destruct (lookup_node s p); [apply IH | by intros [= _ <-] ..].
Qed.

Lemma lineage_loop_sound fuel : ∀ node acc s r s' id,
  taxonomy s !! id = Some node →
  lineage_loop fuel node acc s = (Ok r, s') →
  ∃ l, lineage_of (taxonomy s) id l
       ∧ r = acc ++ tail (reverse l)
       ∧ (length l ≤ fuel)%nat.
Proof.
  induction fuel as [| fuel IH]; intros node acc s r s' id Hnode; cbn [lineage_loop];
    [done |].
  destruct (parent_link node) as [p |] eqn:Hp.
  - cbn zeta. rewrite get_node_one.
    destruct (lookup_node s p) as [pnode | |] eqn:Hpnode; [| done ..].
    apply lookup_node_ok in Hpnode. intros Hrun.
    destruct (IH _ _ _ _ _ p Hpnode Hrun) as (l & Hl & -> & Hlen).
    exists (l ++ [id]). split_and!.
    + by eapply lineage_step.
    + rewrite reverse_snoc. cbn [tail].
      rewrite (lineage_of_reverse _ _ _ Hl) at 2. by rewrite <- app_assoc.
    + rewrite length_app. cbn. lia.
  - intros [= <- <-]. exists [id]. split_and!.
    + by eapply lineage_top.
    + cbn. by rewrite app_nil_r.
    + cbn. lia.
Qed.

(** ** The caches *)

(** The state with one cache replaced: what [set_lineages],
    [set_lca_mappings] and [set_distances] leave behind. *)
Definition with_lineages (v : gmap Z (list Z)) (s : TaxonomyTree) : TaxonomyTree :=
  mkTree (taxonomy s) (byranks s) (leaves s) v (distances s) (lca_mappings s).
Definition with_lca_mappings (v : gmap Z (gmap Z Z)) (s : TaxonomyTree) : TaxonomyTree :=
  mkTree (taxonomy s) (byranks s) (leaves s) (lineages s) (distances s) v.
Definition with_distances (v : gmap Z (gmap Z Z)) (s : TaxonomyTree) : TaxonomyTree :=
  mkTree (taxonomy s) (byranks s) (leaves s) (lineages s) v (lca_mappings s).

(** The tree proper: everything construction builds and no query writes. *)
Definition tree_of (s : TaxonomyTree) : gmap Z Node * gmap string (gset Z) * gset Z :=
  (taxonomy s, byranks s, leaves s).

(** [v] is what [get_lca] computes for [(a, b)] from their lineages. *)
Definition is_lca (t : gmap Z Node) (a b v : Z) : Prop :=
  ∃ la lb, lineage_of t a la ∧ lineage_of t b lb ∧ lca_of_lineages la lb = Some v.

(** [d] is what [get_distance] computes for [(a, b)]: the two one-way
    distances to an LCA that [get_lca] may return for the pair. *)
Definition is_distance (t : gmap Z Node) (a b d : Z) : Prop :=
  ∃ la lb v ia ja ib jb,
    lineage_of t a la ∧ lineage_of t b lb
    ∧ (is_lca t a b v ∨ is_lca t b a v)
    ∧ py_index v la = Some ia ∧ py_index a la = Some ja
    ∧ py_index v lb = Some ib ∧ py_index b lb = Some jb
    ∧ d = (ja - ia) + (jb - ib).

(** Every cached value is one the queries compute on this taxonomy.  A pair
    is cached under (smaller, larger), so the value may come from either
    order of the arguments. *)
Definition lineages_ok (t : gmap Z Node) (c : gmap Z (list Z)) : Prop :=
  ∀ id l, c !! id = Some l → lineage_of t id l.
Definition lca_ok (t : gmap Z Node) (c : gmap Z (gmap Z Z)) : Prop :=
  ∀ x y inner v, c !! x = Some inner → inner !! y = Some v →
    is_lca t x y v ∨ is_lca t y x v.
Definition distances_ok (t : gmap Z Node) (c : gmap Z (gmap Z Z)) : Prop :=
  ∀ x y inner d, c !! x = Some inner → inner !! y = Some d →
    is_distance t x y d ∨ is_distance t y x d.

Record caches_ok (s : TaxonomyTree) : Prop := {
  co_lineages : lineages_ok (taxonomy s) (lineages s);
  co_lca : lca_ok (taxonomy s) (lca_mappings s);
  co_distances : distances_ok (taxonomy s) (distances s)
}.

(** [self] is the object built from the two sources, in a state that
    queries may have brought it to: the tree is the built one and the
    caches hold computed values only. *)
Definition state_of (built_tree self : TaxonomyTree) : Prop :=
  tree_of self = tree_of built_tree ∧ caches_ok self.

Lemma with_lineages_id s id l :
  lineages s !! id = Some l → with_lineages (<[id := l]> (lineages s)) s = s.
Proof. intros Hl. unfold with_lineages. rewrite insert_id by done. by destruct s. Qed.

Lemma lineages_ok_insert t c id l :
  lineages_ok t c → lineage_of t id l → lineages_ok t (<[id := l]> c).
Proof.
  intros Hc Hl id' l'. rewrite lookup_insert. case_decide; [| apply Hc].
  intros [= <-]. by subst.
Qed.

(** Construction leaves the caches empty. *)
Lemma init_state nodes names self :
  TaxonomyTree_init nodes names = Ok self → state_of self self.
Proof.
  intros Hinit. apply init_spec in Hinit
    as (? & ? & ? & ? & _ & _ & _ & _ & _ & _ & Hl & Hd & Hm).
  split; [done |]. split.
  - rewrite Hl. intros ? ? H. by rewrite lookup_empty in H.
  - rewrite Hm. intros ? ? ? ? H. by rewrite lookup_empty in H.
  - rewrite Hd. intros ? ? ? ? H. by rewrite lookup_empty in H.
Qed.

(** A built taxonomy has its root, whose parent is [None]. *)
Lemma init_root nodes names self :
  TaxonomyTree_init nodes names = Ok self →
  ∃ root, taxonomy self !! 1 = Some root ∧ parent root = None.
Proof.
  intros Hinit. apply init_spec in Hinit
    as (? & ? & root & rc & _ & _ & _ & _ & _ & Ht & _).
  eexists. rewrite Ht, lookup_insert_eq. done.
Qed.

(** ** [get_lineage] *)

Lemma get_lineage_step_complete fuel d id s l :
  lineages_ok (taxonomy s) (lineages s) →
  lineage_of (taxonomy s) id l →
  (length l ≤ fuel)%nat →
  get_lineage_step fuel d id s
  = (Ok (<[id := l]> d), with_lineages (<[id := l]> (lineages s)) s).
Proof.
  intros Hc Hl Hfuel. unfold get_lineage_step. unfold bind at 1. unfold get_self.
  destruct (lineages s !! id) as [l0 |] eqn:Hcached.
  - pose proof (lineage_of_det _ _ _ (Hc _ _ Hcached) _ Hl) as ->.
    by rewrite with_lineages_id.
  - cbn zeta. rewrite get_node_one.
    destruct (lineage_of_node _ _ _ Hl) as [node Hnode].
    rewrite (lookup_node_found _ _ _ Hnode). unfold bind at 1.
    rewrite (lineage_loop_complete s id l Hl node [id] fuel Hnode Hfuel).
    cbn [app]. rewrite <- (lineage_of_reverse _ _ _ Hl), reverse_involutive.
    by run.
Qed.

(** Whatever the outcome of one step, the state changes at most by a
    correct cache entry; a returned dictionary has gained the lineage. *)
Lemma get_lineage_step_spec fuel d id s o s' :
  lineages_ok (taxonomy s) (lineages s) →
  get_lineage_step fuel d id s = (o, s') →
  (∃ l, o = Ok (<[id := l]> d)
        ∧ lineage_of (taxonomy s) id l
        ∧ s' = with_lineages (<[id := l]> (lineages s)) s)
  ∨ (s' = s ∧ ∀ d', o ≠ Ok d').
Proof.
  intros Hc. unfold get_lineage_step. unfold bind at 1. unfold get_self.
  destruct (lineages s !! id) as [l0 |] eqn:Hcached.
  - intros [= <- <-]. left. exists l0. rewrite with_lineages_id by done.
    split_and!; [done | by apply Hc | done].
  - cbn zeta. rewrite get_node_one.
    destruct (lookup_node s id) as [node | e |] eqn:Hnode;
      [| intros [= <- <-]; by right ..].
    apply lookup_node_ok in Hnode. unfold bind at 1.
    destruct (lineage_loop fuel node [id] s) as [[r | e |] s1] eqn:Hloop.
    + pose proof (lineage_loop_state _ _ _ _ _ _ Hloop) as ->.
      destruct (lineage_loop_sound _ _ _ _ _ _ id Hnode Hloop) as (l & Hl & -> & _).
      cbn [app]. rewrite <- (lineage_of_reverse _ _ _ Hl), reverse_involutive.
      run. intros [= <- <-]. left. by exists l.
    + pose proof (lineage_loop_state _ _ _ _ _ _ Hloop) as ->.
      intros [= <- <-]. by right.
    + pose proof (lineage_loop_state _ _ _ _ _ _ Hloop) as ->.
      intros [= <- <-]. by right.
Qed.


Lemma get_lineage_one_complete fuel a la s :
  lineages_ok (taxonomy s) (lineages s) →
  lineage_of (taxonomy s) a la →
  (length la ≤ fuel)%nat →
  get_lineage fuel [a] s
  = (Ok (<[a := la]> ∅), with_lineages (<[a := la]> (lineages s)) s).
Proof.
  intros Hc Ha Hfuel. unfold get_lineage. cbn [for_each]. unfold bind.
  by rewrite (get_lineage_step_complete fuel ∅ a s la).
Qed.

Lemma get_lineage_pair_complete fuel a b la lb s :
  lineages_ok (taxonomy s) (lineages s) →
  lineage_of (taxonomy s) a la →
  lineage_of (taxonomy s) b lb →
  (length la ≤ fuel)%nat → (length lb ≤ fuel)%nat →
  get_lineage fuel [a; b] s
  = (Ok (<[b := lb]> (<[a := la]> ∅)),
     with_lineages (<[b := lb]> (<[a := la]> (lineages s))) s).
Proof.
  intros Hc Ha Hb Hfa Hfb. unfold get_lineage. cbn [for_each]. unfold bind.
  rewrite (get_lineage_step_complete fuel ∅ a s la) by done.
  rewrite (get_lineage_step_complete fuel _ b _ lb); [done | | done | done].
  by apply lineages_ok_insert.
Qed.

(** The whole loop of [get_lineage], whatever its outcome: only the
    lineage cache changes and it stays correct; a returned dictionary maps
    every requested identifier to its lineage. *)
Lemma get_lineage_spec fuel ids : ∀ d s o s',
  lineages_ok (taxonomy s) (lineages s) →
  for_each (get_lineage_step fuel) ids d s = (o, s') →
  ∃ c, s' = with_lineages c s
       ∧ lineages_ok (taxonomy s) c
       ∧ ∀ d', o = Ok d' →
           (∀ id, id ∈ ids → ∃ l, d' !! id = Some l ∧ lineage_of (taxonomy s) id l)
           ∧ (∀ id, id ∉ ids → d' !! id = d !! id).
Proof.
  induction ids as [| x ids IH]; intros d s o s' Hc; cbn [for_each].
  - run. intros [= <- <-]. exists (lineages s). split_and!; [by destruct s | done |].
    intros d' [= <-]. split; [| done]. intros id Hid. by apply elem_of_nil in Hid.
  - unfold bind. destruct (get_lineage_step fuel d x s) as [o1 s1] eqn:Hstep.
    destruct (get_lineage_step_spec _ _ _ _ _ _ Hc Hstep)
      as [(l & -> & Hl & ->) | [-> Hno]].
    + intros Hrest.
      apply IH in Hrest as (c & -> & Hc' & Hd); [| by apply lineages_ok_insert].
      exists c. split_and!; [done | done |].
      intros d' Ho. destruct (Hd d' Ho) as [Hin Hout]. split.
      * intros id Hid. destruct (decide (id ∈ ids)) as [Hi | Hi]; [by apply Hin |].
        apply elem_of_cons in Hid as [-> | Hid]; [| done].
        exists l. by rewrite Hout, lookup_insert_eq.
      * intros id Hid. apply not_elem_of_cons in Hid as [Hne Hid].
        by rewrite Hout, lookup_insert_ne.
    + destruct o1 as [d1 | e |]; [by destruct (Hno d1) | |];
        intros [= <- <-]; (exists (lineages s); split_and!;
                           [by destruct s | done | done]).
Qed.

(** ** Lists: indices and the common part of two lineages *)

Lemma py_index_lookup x l i :
  py_index x l = Some i → 0 ≤ i ∧ l !! Z.to_nat i = Some x.
Proof.
  revert i. induction l as [| y l IH]; intros i; cbn [py_index]; [done |].
  destruct (decide (x = y)) as [<- | Hne].
  - intros [= <-]. done.
  - destruct (py_index x l) as [j |]; [| done]. cbn. intros [= <-].
    destruct (IH j eq_refl) as [Hj Hl]. split; [lia |].
    replace (Z.to_nat (Z.succ j)) with (S (Z.to_nat j)) by lia. done.
Qed.

Lemma py_index_lt x l i : py_index x l = Some i → i < Z.of_nat (length l).
Proof.
  intros Hi. apply py_index_lookup in Hi as [Hi Hl].
  apply lookup_lt_Some in Hl. lia.
Qed.

Lemma py_index_elem_of x l : x ∈ l → is_Some (py_index x l).
Proof.
  induction l as [| y l IH]; [by intros ?%elem_of_nil |]. cbn [py_index].
  destruct (decide (x = y)); [eauto |].
  intros [? | Hx]%elem_of_cons; [done |]. destruct (IH Hx) as [j ->]. eauto.
Qed.

(** The element a lineage ends with is at its last index. *)
Lemma py_index_last l x :
  NoDup l → last l = Some x → py_index x l = Some (Z.of_nat (length l) - 1).
Proof.
  intros Hnd Hlast.
  assert (Hx : x ∈ l).
  { rewrite last_lookup in Hlast. by eapply list_elem_of_lookup_2. }
  destruct (py_index_elem_of x l Hx) as [i Hi]. rewrite Hi. f_equal.
  pose proof (py_index_lookup _ _ _ Hi) as [Hi0 Hl].
  rewrite last_lookup in Hlast.
  pose proof (NoDup_lookup _ _ _ _ Hnd Hl Hlast) as Heq.
  apply lookup_lt_Some in Hl. lia.
Qed.

Lemma py_getitem_last l x :
  last l = Some x → py_getitem l (Z.of_nat (length l) - 1) = Some x.
Proof.
  intros Hlast. unfold py_getitem.
  destruct l as [| y l]; [done |]. cbn [length] in *.
  rewrite decide_True by lia. rewrite last_lookup in Hlast. cbn [length pred] in Hlast.
  rewrite <- Hlast. f_equal. lia.
Qed.

Lemma py_getitem_minus_one l x :
  last l = Some x → py_getitem l (-1) = Some x.
Proof.
  intros Hlast. unfold py_getitem.
  destruct l as [| y l]; [done |]. cbn [length] in *.
  rewrite decide_False by lia. rewrite decide_True by lia.
  rewrite last_lookup in Hlast. cbn [length pred] in Hlast.
  rewrite <- Hlast. f_equal. lia.
Qed.

Lemma size_list_to_set_le (l : list Z) :
  (size (list_to_set l : gset Z) ≤ length l)%nat.
Proof.
  induction l as [| x l IH]; [done |]. cbn [list_to_set length].
  rewrite size_union_alt, size_singleton.
  assert (size (list_to_set l ∖ {[x]} : gset Z) ≤ size (list_to_set l : gset Z))%nat
    by (apply subseteq_size; set_solver).
  lia.
Qed.

(** [get_lca]'s index expression never raises on a non-empty lineage. *)
Lemma lca_of_lineages_some l1 l2 :
  l1 ≠ [] → is_Some (lca_of_lineages l1 l2).
Proof.
  intros Hne. unfold lca_of_lineages, py_getitem.
  set (k := size (list_to_set l1 ∩ list_to_set l2 : gset Z)).
  assert (Hk : (k ≤ length l1)%nat).
  { etrans; [| apply size_list_to_set_le]. apply subseteq_size. set_solver. }
  assert (Hlen : (0 < length l1)%nat) by (destruct l1; [done | cbn; lia]).
  case_decide.
  - apply lookup_lt_is_Some. lia.
  - rewrite decide_True by lia. apply lookup_lt_is_Some. lia.
Qed.

(** The LCA of an identifier with itself is the identifier. *)
Lemma lca_of_lineages_self t a l :
  lineage_of t a l → lca_of_lineages l l = Some a.
Proof.
  intros Hl. unfold lca_of_lineages.
  replace (list_to_set l ∩ list_to_set l : gset Z) with (list_to_set l : gset Z)
    by set_solver.
  rewrite size_list_to_set by (by eapply lineage_of_NoDup).
  apply py_getitem_last. by eapply lineage_of_last.
Qed.

(** Two lineages have in common exactly their longest common prefix: a
    common node brings its whole lineage, which is a prefix of both. *)
Lemma common_lineage t a b la lb :
  lineage_of t a la → lineage_of t b lb →
  (list_to_set la ∩ list_to_set lb : gset Z) = list_to_set (max_prefix la lb).2.
Proof.
  intros Ha Hb. apply set_eq. intros x.
  rewrite elem_of_intersection, !elem_of_list_to_set. split.
  - intros [Hxa Hxb].
    destruct (lineage_of_prefix _ _ _ Ha x Hxa) as (lx & ra & Hlx & Hla).
    destruct (lineage_of_prefix _ _ _ Hb x Hxb) as (lx' & rb & Hlx' & Hlb).
    pose proof (lineage_of_det _ _ _ Hlx _ Hlx') as <-.
    assert (Hpre : lx `prefix_of` (max_prefix la lb).2).
    { apply max_prefix_max; [by exists ra | by exists rb]. }
    destruct Hpre as [r ->]. apply elem_of_app. left.
    pose proof (lineage_of_last _ _ _ Hlx) as Hlast. rewrite last_lookup in Hlast.
    by eapply list_elem_of_lookup_2.
  - intros Hx. split.
    + rewrite (max_prefix_fst la lb). apply elem_of_app. by left.
    + rewrite (max_prefix_snd la lb). apply elem_of_app. by left.
Qed.

(** When two lineages meet, the index expression of [get_lca] lands on the
    last node of their common prefix, whichever lineage is indexed. *)
Lemma lca_of_meeting_lineages t a b la lb x :
  lineage_of t a la → lineage_of t b lb → x ∈ la → x ∈ lb →
  ∃ v, last (max_prefix la lb).2 = Some v
       ∧ size (list_to_set la ∩ list_to_set lb : gset Z) = length (max_prefix la lb).2
       ∧ (0 < length (max_prefix la lb).2)%nat
       ∧ lca_of_lineages la lb = Some v
       ∧ lca_of_lineages lb la = Some v.
Proof.
  intros Ha Hb Hxa Hxb.
  pose proof (common_lineage t a b la lb Ha Hb) as Hcommon.
  pose proof (max_prefix_fst la lb) as Hla. pose proof (max_prefix_snd la lb) as Hlb.
  set (p := (max_prefix la lb).2) in *.
  assert (Hxp : x ∈ p).
  { apply (elem_of_list_to_set (C := gset Z)). rewrite <- Hcommon. set_solver. }
  assert (Hlen : (0 < length p)%nat).
  { destruct p; [by apply elem_of_nil in Hxp | cbn; lia]. }
  assert (Hnd : NoDup p).
  { pose proof (lineage_of_NoDup _ _ _ Ha) as Hnda. rewrite Hla in Hnda.
    by apply NoDup_app in Hnda as [? _]. }
  assert (Hsize : size (list_to_set la ∩ list_to_set lb : gset Z) = length p).
  { rewrite Hcommon. by apply size_list_to_set. }
  destruct (last p) as [v |] eqn:Hlast;
    [| apply last_None in Hlast; rewrite Hlast in Hlen; cbn in Hlen; lia].
  exists v. split_and!; [done | done | done | |].
  - unfold lca_of_lineages. rewrite Hsize. unfold py_getitem.
    rewrite decide_True by lia. rewrite Hla at 1.
    rewrite lookup_app_l by lia. rewrite last_lookup in Hlast.
    rewrite <- Hlast. f_equal. lia.
  - unfold lca_of_lineages.
    replace (list_to_set lb ∩ list_to_set la : gset Z)
      with (list_to_set la ∩ list_to_set lb : gset Z) by set_solver.
    rewrite Hsize. unfold py_getitem.
    rewrite decide_True by lia. rewrite Hlb at 1.
    rewrite lookup_app_l by lia. rewrite last_lookup in Hlast.
    rewrite <- Hlast. f_equal. lia.
Qed.

(** ** [get_lca] *)

Lemma cached_pair_ok (rel : Z → Z → Z → Prop) c small large hit c' :
  (∀ x y inner v, c !! x = Some inner → inner !! y = Some v → rel x y v) →
  cached_pair c small large = (hit, c') →
  (∀ x y inner v, c' !! x = Some inner → inner !! y = Some v → rel x y v)
  ∧ (∃ inner, c' !! small = Some inner ∧ inner !! large = hit).
Proof.
  intros Hc. unfold cached_pair. destruct (c !! small) as [inner |] eqn:Hs.
  - intros [= <- <-]. eauto.
  - intros [= <- <-]. split.
    + intros x y inner v. rewrite lookup_insert. case_decide; [| apply Hc].
      intros [= <-]. by rewrite lookup_empty.
    + exists ∅. by rewrite lookup_insert_eq, lookup_empty.
Qed.

Lemma store_pair_ok (rel : Z → Z → Z → Prop) c small large v inner s :
  (∀ x y inner v, c !! x = Some inner → inner !! y = Some v → rel x y v) →
  c !! small = Some inner →
  rel small large v →
  store_pair c small large v s = (Ok (<[small := <[large := v]> inner]> c), s)
  ∧ (∀ x y inner' v', <[small := <[large := v]> inner]> c !! x = Some inner' →
       inner' !! y = Some v' → rel x y v').
Proof.
  intros Hc Hs Hv. unfold store_pair. run. rewrite Hs. cbn. split; [done |].
  intros x y inner' v'. rewrite lookup_insert. case_decide as Hx; [| apply Hc].
  intros [= <-]. subst x. rewrite lookup_insert. case_decide; [| by eapply Hc].
  intros [= <-]. by subst.
Qed.

Lemma min_max_cases (a b : Z) :
  (Z.min a b = a ∧ Z.max a b = b) ∨ (Z.min a b = b ∧ Z.max a b = a).
Proof. lia. Qed.

(** The relation a cached LCA satisfies, as a relation on the key pair. *)
Definition lca_rel (t : gmap Z Node) (x y v : Z) : Prop :=
  is_lca t x y v ∨ is_lca t y x v.

Lemma lca_rel_sym t x y v : lca_rel t x y v → lca_rel t y x v.
Proof. unfold lca_rel. tauto. Qed.

Lemma lca_rel_min_max t a b v :
  lca_rel t a b v ↔ lca_rel t (Z.min a b) (Z.max a b) v.
Proof.
  destruct (min_max_cases a b) as [[-> ->] | [-> ->]]; [done |].
  split; apply lca_rel_sym.
Qed.

Lemma caches_ok_with_lineages s c :
  caches_ok s → lineages_ok (taxonomy s) c → caches_ok (with_lineages c s).
Proof. intros [? ? ?] ?. by split. Qed.

Lemma caches_ok_with_lca_mappings s c :
  caches_ok s → lca_ok (taxonomy s) c → caches_ok (with_lca_mappings c s).
Proof. intros [? ? ?] ?. by split. Qed.

Lemma caches_ok_with_distances s c :
  caches_ok s → distances_ok (taxonomy s) c → caches_ok (with_distances c s).
Proof. intros [? ? ?] ?. by split. Qed.

(** [get_lca], whatever its outcome: the tree and the distance cache are
    untouched, the caches stay correct, and a returned value is an LCA of
    the pair as the code computes it. *)
Lemma get_lca_spec fuel a b s o s' :
  caches_ok s →
  get_lca fuel a b s = (o, s') →
  tree_of s' = tree_of s
  ∧ distances s' = distances s
  ∧ caches_ok s'
  ∧ ∀ v, o = Ok v → lca_rel (taxonomy s) a b v.
Proof.
  intros Hok. unfold get_lca. cbn zeta. unfold bind at 1. unfold get_self.
  destruct (cached_pair (lca_mappings s) (Z.min a b) (Z.max a b)) as [hit c1] eqn:Hcp.
  destruct (cached_pair_ok (lca_rel (taxonomy s)) _ _ _ _ _ (co_lca s Hok) Hcp)
    as [Hc1 (inner & Hinner & Hhit)].
  unfold bind at 1. unfold set_lca_mappings at 1.
  change (mkTree (taxonomy s) (byranks s) (leaves s) (lineages s) (distances s) c1)
    with (with_lca_mappings c1 s).
  pose proof (caches_ok_with_lca_mappings s c1 Hok Hc1) as Hok1.
  destruct hit as [v |].
  - run. intros [= <- <-]. split_and!; [done | done | done |].
    intros v' [= <-]. apply (proj2 (lca_rel_min_max _ a b v)). by eapply Hc1.
  - unfold bind at 1.
    destruct (get_lineage fuel [a; b] (with_lca_mappings c1 s)) as [o1 s1] eqn:Hlin.
    destruct (get_lineage_spec fuel [a; b] ∅ _ _ _ (co_lineages _ Hok1) Hlin)
      as (c2 & -> & Hc2 & Hd).
    pose proof (caches_ok_with_lineages _ c2 Hok1 Hc2) as Hok2.
    destruct o1 as [d | e |];
      [| intros [= <- <-]; split_and!; done ..].
    destruct (Hd d eq_refl) as [Hin _].
    destruct (Hin a) as (la & Hda & Hla); [set_solver |].
    destruct (Hin b) as (lb & Hdb & Hlb); [set_solver |].
    run. rewrite Hda, Hdb. cbn.
    destruct (lca_of_lineages la lb) as [v |] eqn:Hv; cbn;
      [| intros [= <- <-]; split_and!; done].
    assert (Hrel : lca_rel (taxonomy s) (Z.min a b) (Z.max a b) v).
    { apply (proj1 (lca_rel_min_max _ a b v)). left. exists la, lb.
      split_and!; [exact Hla | exact Hlb | done]. }
    destruct (store_pair_ok (lca_rel (taxonomy s)) c1 _ _ v inner
                (with_lineages c2 (with_lca_mappings c1 s)) Hc1 Hinner Hrel)
      as [Hstore Hc3].
    rewrite Hstore. cbn.
    intros [= <- <-]. split_and!; [done | done | | ].
    + destruct Hok2. by split.
    + intros v' [= <-]. apply (proj2 (lca_rel_min_max _ a b v)), Hrel.
Qed.

(** With both lineages at hand and enough fuel, [get_lca] returns. *)
Lemma get_lca_complete fuel a b la lb s :
  caches_ok s →
  lineage_of (taxonomy s) a la → lineage_of (taxonomy s) b lb →
  (length la ≤ fuel)%nat → (length lb ≤ fuel)%nat →
  ∃ v s', get_lca fuel a b s = (Ok v, s').
Proof.
  intros Hok Hla Hlb Hfa Hfb. unfold get_lca. cbn zeta. unfold bind at 1. unfold get_self.
  destruct (cached_pair (lca_mappings s) (Z.min a b) (Z.max a b)) as [hit c1] eqn:Hcp.
  destruct (cached_pair_ok (lca_rel (taxonomy s)) _ _ _ _ _ (co_lca s Hok) Hcp)
    as [Hc1 (inner & Hinner & Hhit)].
  unfold bind at 1. unfold set_lca_mappings at 1.
  change (mkTree (taxonomy s) (byranks s) (leaves s) (lineages s) (distances s) c1)
    with (with_lca_mappings c1 s).
  destruct hit as [v |]; [run; eauto |].
  unfold bind at 1.
  rewrite (get_lineage_pair_complete fuel a b la lb);
    [| apply (co_lineages s Hok) | exact Hla | exact Hlb | done | done].
  assert (Hda : (<[b := lb]> (<[a := la]> ∅) : gmap Z (list Z)) !! a = Some la).
  { rewrite lookup_insert. case_decide as Hab; [| by rewrite lookup_insert_eq].
    subst b. f_equal. by eapply lineage_of_det. }
  run. rewrite Hda, lookup_insert_eq. cbn.
  destruct (lca_of_lineages_some la lb) as [v Hv].
  { intros ->. by apply lineage_of_last in Hla. }
  rewrite Hv. cbn. unfold store_pair. run. rewrite Hinner. cbn. eauto.
Qed.

(** ** [get_distance] *)

Definition distance_rel (t : gmap Z Node) (x y d : Z) : Prop :=
  is_distance t x y d ∨ is_distance t y x d.

Lemma distance_rel_sym t x y d : distance_rel t x y d → distance_rel t y x d.
Proof. unfold distance_rel. tauto. Qed.

Lemma distance_rel_min_max t a b d :
  distance_rel t a b d ↔ distance_rel t (Z.min a b) (Z.max a b) d.
Proof.
  destruct (min_max_cases a b) as [[-> ->] | [-> ->]]; [done |].
  split; apply distance_rel_sym.
Qed.

(** [one_way_distance], whatever its outcome: only the lineage cache may
    change; a returned value is the difference of two indices in the
    lineage of [tax_id]. *)
Lemma one_way_distance_spec fuel anc id s o s' :
  lineages_ok (taxonomy s) (lineages s) →
  one_way_distance fuel anc id s = (o, s') →
  ∃ c, s' = with_lineages c s
       ∧ lineages_ok (taxonomy s) c
       ∧ ∀ d, o = Ok d →
           ∃ l i j, lineage_of (taxonomy s) id l
                    ∧ py_index anc l = Some i ∧ py_index id l = Some j
                    ∧ d = j - i.
Proof.
  intros Hc. unfold one_way_distance. unfold bind at 1.
  destruct (get_lineage fuel [id] s) as [o1 s1] eqn:Hlin.
  destruct (get_lineage_spec fuel [id] ∅ _ _ _ Hc Hlin) as (c & -> & Hc' & Hd).
  destruct o1 as [dict | e |];
    [| intros [= <- <-]; exists c; split_and!; done ..].
  destruct (Hd dict eq_refl) as [Hin _].
  destruct (Hin id) as (l & Hdl & Hl); [set_solver |].
  run. rewrite Hdl. cbn.
  destruct (py_index anc l) as [i |] eqn:Hi; cbn;
    [| intros [= <- <-]; exists c; split_and!; done].
  destruct (py_index id l) as [j |] eqn:Hj; cbn;
    [| intros [= <- <-]; exists c; split_and!; done].
  intros [= <- <-]. exists c. split_and!; [done | done |].
  intros d [= <-]. by exists l, i, j.
Qed.

Lemma one_way_distance_complete fuel anc id l i s :
  lineages_ok (taxonomy s) (lineages s) →
  lineage_of (taxonomy s) id l →
  (length l ≤ fuel)%nat →
  py_index anc l = Some i →
  one_way_distance fuel anc id s
  = (Ok (Z.of_nat (length l) - 1 - i), with_lineages (<[id := l]> (lineages s)) s).
Proof.
  intros Hc Hl Hfuel Hi. unfold one_way_distance. unfold bind at 1.
  rewrite (get_lineage_one_complete fuel id l) by done.
  run. rewrite lookup_insert_eq. cbn. rewrite Hi.
  rewrite (py_index_last l id); [done | by eapply lineage_of_NoDup |
                                 by eapply lineage_of_last].
Qed.

(** [get_distance], whatever its outcome: the tree is untouched, the
    caches stay correct, and a returned value is a distance of the pair as
    the code computes it. *)
Lemma get_distance_spec fuel a b s o s' :
  caches_ok s →
  get_distance fuel a b s = (o, s') →
  tree_of s' = tree_of s
  ∧ caches_ok s'
  ∧ ∀ d, o = Ok d → distance_rel (taxonomy s) a b d.
Proof.
  intros Hok. unfold get_distance. cbn zeta. unfold bind at 1. unfold get_self.
  destruct (cached_pair (distances s) (Z.min a b) (Z.max a b)) as [hit c1] eqn:Hcp.
  destruct (cached_pair_ok (distance_rel (taxonomy s)) _ _ _ _ _ (co_distances s Hok) Hcp)
    as [Hc1 (inner & Hinner & Hhit)].
  unfold bind at 1. unfold set_distances at 1.
  change (mkTree (taxonomy s) (byranks s) (leaves s) (lineages s) c1 (lca_mappings s))
    with (with_distances c1 s).
  pose proof (caches_ok_with_distances s c1 Hok Hc1) as Hok1.
  destruct hit as [d |].
  - run. intros [= <- <-]. split_and!; [done | done |].
    intros d' [= <-]. apply (proj2 (distance_rel_min_max _ a b d)). by eapply Hc1.
  - unfold bind at 1.
    destruct (get_lca fuel a b (with_distances c1 s)) as [o1 s1] eqn:Hlca.
    destruct (get_lca_spec _ _ _ _ _ _ Hok1 Hlca) as (Htree1 & Hdist1 & Hok2 & Hv).
    assert (Ht1 : taxonomy s1 = taxonomy s) by (by injection Htree1).
    destruct o1 as [v | e |];
      [| intros [= <- <-]; split_and!; done ..].
    specialize (Hv v eq_refl). cbn [taxonomy with_distances] in Hv.
    unfold bind at 1.
    destruct (one_way_distance fuel v a s1) as [o2 s2] eqn:Hd1.
    destruct (one_way_distance_spec _ _ _ _ _ _ (co_lineages _ Hok2) Hd1)
      as (c2 & -> & Hc2 & Hd1v).
    pose proof (caches_ok_with_lineages _ c2 Hok2 Hc2) as Hok3.
    destruct o2 as [d1 | e |];
      [| intros [= <- <-]; split_and!; done ..].
    destruct (Hd1v d1 eq_refl) as (la & ia & ja & Hla & Hia & Hja & ->).
    unfold bind at 1.
    destruct (one_way_distance fuel v b (with_lineages c2 s1)) as [o3 s3] eqn:Hd2.
    destruct (one_way_distance_spec _ _ _ _ _ _ (co_lineages _ Hok3) Hd2)
      as (c3 & -> & Hc3 & Hd2v).
    pose proof (caches_ok_with_lineages _ c3 Hok3 Hc3) as Hok4.
    destruct o3 as [d2 | e |];
      [| intros [= <- <-]; split_and!; done ..].
    destruct (Hd2v d2 eq_refl) as (lb & ib & jb & Hlb & Hib & Hjb & ->).
    cbn [taxonomy with_lineages] in Hlb. rewrite Ht1 in Hla, Hlb.
    assert (Hrel : distance_rel (taxonomy s) (Z.min a b) (Z.max a b)
                     (ja - ia + (jb - ib))).
    { apply (proj1 (distance_rel_min_max _ a b _)). left.
      exists la, lb, v, ia, ja, ib, jb. split_and!; done. }
    unfold bind at 1. cbn [distances with_lineages].
    rewrite Hdist1. cbn [distances with_distances].
    destruct (store_pair_ok (distance_rel (taxonomy s)) c1 _ _ _ inner
                (with_lineages c3 (with_lineages c2 s1)) Hc1 Hinner Hrel)
      as [Hstore Hc4].
    unfold bind at 1. rewrite Hstore. run.
    intros [= <- <-]. split_and!; [done | | ].
    + destruct Hok4 as [H1 H2 H3]. split; cbn; [done | done |]. by rewrite Ht1.
    + intros d' [= <-]. apply (proj2 (distance_rel_min_max _ a b _)), Hrel.
Qed.

(** A distance of 0, as the code computes it, is between a node and
    itself: both one-way distances are non-negative, and the LCA is at the
    same index as each end in a lineage without repetition. *)
Lemma is_distance_zero t a b : is_distance t a b 0 → a = b.
Proof.
  intros (la & lb & v & ia & ja & ib & jb & Hla & Hlb & _ & Hia & Hja & Hib & Hjb & Hd).
  pose proof (py_index_last la a (lineage_of_NoDup _ _ _ Hla) (lineage_of_last _ _ _ Hla))
    as Hja'.
  pose proof (py_index_last lb b (lineage_of_NoDup _ _ _ Hlb) (lineage_of_last _ _ _ Hlb))
    as Hjb'.
  pose proof (py_index_lt _ _ _ Hia). pose proof (py_index_lt _ _ _ Hib).
  assert (ia = ja) by (simplify_eq; lia). assert (ib = jb) by (simplify_eq; lia).
  subst ia ib.
  apply py_index_lookup in Hia as [_ Hia]. apply py_index_lookup in Hja as [_ Hja].
  apply py_index_lookup in Hib as [_ Hib]. apply py_index_lookup in Hjb as [_ Hjb].
  congruence.
Qed.

Lemma distance_rel_zero t a b : distance_rel t a b 0 → a = b.
Proof. intros [H | H]; apply is_distance_zero in H; done. Qed.

(** When the two lineages meet, any LCA the code may return for the pair
    (in either order) is the last node of their common prefix. *)
Lemma lca_rel_meeting t a b la lb x v :
  lineage_of t a la → lineage_of t b lb → x ∈ la → x ∈ lb →
  lca_rel t a b v →
  lca_of_lineages la lb = Some v ∧ last (max_prefix la lb).2 = Some v.
Proof.
  intros Hla Hlb Hxa Hxb Hrel.
  destruct (lca_of_meeting_lineages t a b la lb x Hla Hlb Hxa Hxb)
    as (w & Hlast & _ & _ & Hab & Hba).
  assert (v = w) as ->; [| done].
  destruct Hrel as [(la' & lb' & Hla' & Hlb' & Hv) | (lb' & la' & Hlb' & Hla' & Hv)];
    pose proof (lineage_of_det _ _ _ Hla _ Hla') as <-;
    pose proof (lineage_of_det _ _ _ Hlb _ Hlb') as <-; congruence.
Qed.

Lemma last_elem_of (l : list Z) x : last l = Some x → x ∈ l.
Proof. rewrite last_lookup. apply list_elem_of_lookup_2. Qed.

(** With both lineages at hand, meeting, and enough fuel, [get_distance]
    returns. *)
Lemma get_distance_complete fuel a b la lb x s :
  caches_ok s →
  lineage_of (taxonomy s) a la → lineage_of (taxonomy s) b lb →
  x ∈ la → x ∈ lb →
  (length la ≤ fuel)%nat → (length lb ≤ fuel)%nat →
  ∃ d s', get_distance fuel a b s = (Ok d, s').
Proof.
  intros Hok Hla Hlb Hxa Hxb Hfa Hfb.
  unfold get_distance. cbn zeta. unfold bind at 1. unfold get_self.
  destruct (cached_pair (distances s) (Z.min a b) (Z.max a b)) as [hit c1] eqn:Hcp.
  destruct (cached_pair_ok (distance_rel (taxonomy s)) _ _ _ _ _ (co_distances s Hok) Hcp)
    as [Hc1 (inner & Hinner & Hhit)].
  unfold bind at 1. unfold set_distances at 1.
  change (mkTree (taxonomy s) (byranks s) (leaves s) (lineages s) c1 (lca_mappings s))
    with (with_distances c1 s).
  pose proof (caches_ok_with_distances s c1 Hok Hc1) as Hok1.
  destruct hit as [d |]; [run; eauto |].
  unfold bind at 1.
  destruct (get_lca_complete fuel a b la lb (with_distances c1 s) Hok1 Hla Hlb Hfa Hfb)
    as (v & s1 & Hlca).
  rewrite Hlca.
  destruct (get_lca_spec _ _ _ _ _ _ Hok1 Hlca) as (Htree1 & Hdist1 & Hok2 & Hv).
  assert (Ht1 : taxonomy s1 = taxonomy s) by (by injection Htree1).
  specialize (Hv v eq_refl). cbn [taxonomy with_distances] in Hv.
  destruct (lca_rel_meeting _ _ _ _ _ _ _ Hla Hlb Hxa Hxb Hv) as [_ Hlast].
  apply last_elem_of in Hlast.
  assert (Hva : v ∈ la).
  { rewrite (max_prefix_fst la lb). apply elem_of_app. by left. }
  assert (Hvb : v ∈ lb).
  { rewrite (max_prefix_snd la lb). apply elem_of_app. by left. }
  destruct (py_index_elem_of _ _ Hva) as [ia Hia].
  destruct (py_index_elem_of _ _ Hvb) as [ib Hib].
  rewrite <- Ht1 in Hla, Hlb.
  unfold bind at 1.
  rewrite (one_way_distance_complete fuel v a la ia s1 (co_lineages _ Hok2) Hla Hfa Hia).
  unfold bind at 1.
  rewrite (one_way_distance_complete fuel v b lb ib); [| | exact Hlb | done | done].
  2:{ apply lineages_ok_insert; [apply (co_lineages _ Hok2) | exact Hla]. }
  unfold bind at 1. cbn [distances with_lineages]. rewrite Hdist1.
  cbn [distances with_distances]. unfold store_pair. run. rewrite Hinner. cbn. eauto.
Qed.

(** ** Outcomes of a query, fuel aside *)

(** The query returns [v]: it does so with any fuel from some bound on. *)
Definition returns {A : Type} (query : nat → M A) (self : TaxonomyTree) (v : A) : Prop :=
  ∃ fuel0, ∀ fuel, (fuel0 ≤ fuel)%nat → ∃ self', query fuel self = (Ok v, self').

(** The query raises [e]. *)
Definition raises {A : Type} (query : nat → M A) (self : TaxonomyTree) (e : exn) : Prop :=
  ∃ fuel0, ∀ fuel, (fuel0 ≤ fuel)%nat → ∃ self', query fuel self = (Raise e, self').

(** The query never comes back: no amount of fuel is enough. *)
Definition diverges {A : Type} (query : nat → M A) (self : TaxonomyTree) : Prop :=
  ∀ fuel, ∃ self', query fuel self = (OutOfFuel, self').

Lemma diverges_not_returns {A : Type} (query : nat → M A) self v :
  diverges query self → ¬ returns query self v.
Proof.
  intros Hdiv [fuel0 Hret]. destruct (Hret fuel0) as [s1 H1]; [done |].
  destruct (Hdiv fuel0) as [s2 H2]. congruence.
Qed.

Lemma returns_det {A : Type} (query : nat → M A) self v w :
  returns query self v → returns query self w → v = w.
Proof.
  intros [f1 H1] [f2 H2].
  destruct (H1 (f1 `max` f2)%nat) as [s1 E1]; [lia |].
  destruct (H2 (f1 `max` f2)%nat) as [s2 E2]; [lia |]. congruence.
Qed.

(** [descends t n]: the parent links lead from [n] up to the root,
    identifier 1, whose parent is [None]. *)
Inductive descends (t : gmap Z Node) : Z → Prop :=
  | descends_root root :
      t !! 1 = Some root → parent root = None → descends t 1
  | descends_child id node p :
      t !! id = Some node → parent node = Some p → p ≠ 0 →
      descends t p → descends t id.

Lemma descends_lineage t n :
  descends t n → ∃ l, lineage_of t n l ∧ head l = Some 1.
Proof.
  induction 1 as [root Hroot Hp | id node p Hn Hp Hp0 Hd (l & Hl & Hhead)].
  - exists [1]. split; [| done]. eapply lineage_top; [done |].
    unfold parent_link. by rewrite Hp.
  - exists (l ++ [id]). split.
    + eapply lineage_step; [done | | done].
      unfold parent_link. by rewrite Hp, decide_False.
    + destruct l; [done | done].
Qed.




Lemma returns_lineage self n l :
  caches_ok self →
  lineage_of (taxonomy self) n l →
  returns (λ fuel, get_lineage fuel [n]) self {[n := l]}.
Proof.
  intros Hok Hl. exists (length l). intros fuel Hfuel.
  rewrite (get_lineage_one_complete fuel n l) by (done || apply (co_lineages _ Hok)).
  rewrite insert_empty. eauto.
Qed.

Lemma returns_lca_self self a l :
  caches_ok self →
  lineage_of (taxonomy self) a l →
  returns (λ fuel, get_lca fuel a a) self a.
Proof.
  intros Hok Hl. exists (length l). intros fuel Hfuel.
  destruct (get_lca_complete fuel a a l l self Hok Hl Hl Hfuel Hfuel) as (v & s' & Hrun).
  destruct (get_lca_spec _ _ _ _ _ _ Hok Hrun) as (_ & _ & _ & Hv).
  assert (v = a) as ->; [| eauto].
  assert (Hlca : is_lca (taxonomy self) a a v) by (destruct (Hv v eq_refl); done).
  destruct Hlca as (la & lb & Hla & Hlb & Hlca).
  pose proof (lineage_of_det _ _ _ Hl _ Hla) as <-.
  pose proof (lineage_of_det _ _ _ Hl _ Hlb) as <-.
  rewrite (lca_of_lineages_self _ _ _ Hl) in Hlca. congruence.
Qed.

Lemma returns_distance_self self a l :
  caches_ok self →
  lineage_of (taxonomy self) a l →
  returns (λ fuel, get_distance fuel a a) self 0.
Proof.
  intros Hok Hl. exists (length l). intros fuel Hfuel.
  assert (Ha : a ∈ l) by (eapply last_elem_of, lineage_of_last; done).
  destruct (get_distance_complete fuel a a l l a self Hok Hl Hl Ha Ha Hfuel Hfuel)
    as (d & s' & Hrun).
  destruct (get_distance_spec _ _ _ _ _ _ Hok Hrun) as (_ & _ & Hd).
  assert (d = 0) as ->; [| eauto].
  assert (Hdist : is_distance (taxonomy self) a a d) by (destruct (Hd d eq_refl); done).
  destruct Hdist as (la & lb & v & ia & ja & ib & jb
                     & Hla & Hlb & Hv & Hia & Hja & Hib & Hjb & ->).
  pose proof (lineage_of_det _ _ _ Hl _ Hla) as <-.
  pose proof (lineage_of_det _ _ _ Hl _ Hlb) as <-.
  assert (Hlca : is_lca (taxonomy self) a a v) by (destruct Hv; done).
  destruct Hlca as (la & lb & Hla' & Hlb' & Hlca).
  pose proof (lineage_of_det _ _ _ Hl _ Hla') as <-.
  pose proof (lineage_of_det _ _ _ Hl _ Hlb') as <-.
  rewrite (lca_of_lineages_self _ _ _ Hl) in Hlca. simplify_eq. lia.
Qed.

Lemma state_of_taxonomy built_tree self :
  state_of built_tree self → taxonomy self = taxonomy built_tree.
Proof. intros [Htree _]. by injection Htree. Qed.

(** ** Claims on lineages *)

(** C6, as amended. In any state of a built tree, [get_lineage([1])[1]]
    is [[1]]; and for every identifier [n] whose parent links lead up to
    the root, [get_lineage([n])[n]] is a root-first sequence that begins
    with the root, identifier 1, and ends with [n] itself. *)
Theorem lineage_root_first (nodes : list tax_line) (names : list name_line)
    (built_tree self : TaxonomyTree) (n : Z) :
  TaxonomyTree_init nodes names = Ok built_tree →
  state_of built_tree self →
  returns (λ fuel, get_lineage fuel [1]) self {[1 := [1]]}
  ∧ (descends (taxonomy self) n →
     ∃ l, returns (λ fuel, get_lineage fuel [n]) self {[n := l]}
          ∧ head l = Some 1 ∧ last l = Some n).
Proof.
  intros Hinit Hstate.
  pose proof (state_of_taxonomy _ _ Hstate) as Ht.
  destruct Hstate as [_ Hok].
  destruct (init_root _ _ _ Hinit) as (root & Hroot & Hparent).
  rewrite <- Ht in Hroot. split.
  - apply returns_lineage; [done |].
    eapply lineage_top; [done |]. unfold parent_link. by rewrite Hparent.
  - intros Hn. destruct (descends_lineage _ _ Hn) as (l & Hl & Hhead).
    exists l. split_and!; [by apply returns_lineage | done |].
    by eapply lineage_of_last.
Qed.

Lemma lineage_root_first_witness :
  returns (λ fuel, get_lineage fuel [1]) pinus {[1 := [1]]}
  ∧ ∃ l, returns (λ fuel, get_lineage fuel [100]) pinus {[100 := l]}
         ∧ head l = Some 1 ∧ last l = Some 100.
Proof.
  destruct (lineage_root_first pinus_nodes pinus_names pinus pinus 100)
    as [Hroot Hleaf].
  - vm_compute. reflexivity.
  - apply (init_state pinus_nodes pinus_names). vm_compute. reflexivity.
  - split; [exact Hroot |]. apply Hleaf.
    eapply descends_child; [vm_compute; reflexivity | reflexivity | done |].
    eapply descends_child; [vm_compute; reflexivity | reflexivity | done |].
    eapply descends_root; [vm_compute; reflexivity | reflexivity].
Defined.

Lemma orphan_lineage_5 : lineage_of (taxonomy orphan) 5 [7; 5].
Proof.
  eapply (lineage_step _ 5 _ 7 [7]); [vm_compute; reflexivity | reflexivity |].
  eapply lineage_top; [vm_compute; reflexivity | reflexivity].
Qed.

Lemma orphan_state : state_of orphan orphan.
Proof. exact (init_state _ _ _ orphan_built). Qed.

(** C6 as written fails on a built tree: in [orphan], identifier 5 is in
    the tree and its lineage is [[7; 5]], which does not begin with the
    root. *)
Lemma lineage_root_first_counterexample :
  TaxonomyTree_init orphan_nodes orphan_names = Ok orphan
  ∧ is_Some (taxonomy orphan !! 5)
  ∧ returns (λ fuel, get_lineage fuel [5]) orphan {[5 := [7; 5]]}
  ∧ head [7; 5] ≠ Some 1.
Proof.
  split_and!.
  - exact orphan_built.
  - vm_compute. eauto.
  - apply returns_lineage; [apply orphan_state | apply orphan_lineage_5].
  - done.
Qed.

(** ** Nodes that are their own parent *)

(** A node source line [(2, 2, ...)] builds a node that is its own
    parent; the root line alone is normalised. *)
Definition loop_nodes : list tax_line :=
  [ (1, 1, "no rank"); (2, 2, "no rank") ].

Definition loop_names : list name_line :=
  [ (1, "root", "scientific name"); (2, "two", "scientific name") ].

Definition looped : TaxonomyTree := built loop_nodes loop_names.

Lemma looped_built : TaxonomyTree_init loop_nodes loop_names = Ok looped.
Proof. vm_compute. reflexivity. Qed.

Lemma self_parent_no_lineage t p node l :
  t !! p = Some node → parent_link node = Some p → ¬ lineage_of t p l.
Proof.
  intros Hn Hp Hl. inversion Hl as [id node' Hn' Hp' | id node' q l' Hn' Hp' Hl']; simplify_eq.
  pose proof (lineage_of_det _ _ _ Hl' _ Hl) as Heq.
  apply (f_equal length) in Heq. rewrite length_app in Heq. cbn in Heq. lia.
Qed.

Lemma lineage_loop_self_parent fuel : ∀ p node acc s,
  taxonomy s !! p = Some node → parent_link node = Some p →
  lineage_loop fuel node acc s = (OutOfFuel, s).
Proof.
  induction fuel as [| fuel IH]; intros p node acc s Hn Hp; [done |].
  cbn [lineage_loop]. rewrite Hp. cbn zeta. rewrite get_node_one.
  rewrite (lookup_node_found _ _ _ Hn). by eapply IH.
Qed.

Lemma get_lineage_step_self_parent fuel d p node s :
  lineages_ok (taxonomy s) (lineages s) →
  taxonomy s !! p = Some node → parent_link node = Some p →
  get_lineage_step fuel d p s = (OutOfFuel, s).
Proof.
  intros Hc Hn Hp. unfold get_lineage_step. unfold bind at 1. unfold get_self.
  destruct (lineages s !! p) as [l0 |] eqn:Hcached.
  - apply Hc in Hcached. by apply self_parent_no_lineage with (node := node) in Hcached.
  - cbn zeta. rewrite get_node_one, (lookup_node_found _ _ _ Hn).
    unfold bind at 1. by rewrite (lineage_loop_self_parent fuel p node).
Qed.

(** On a node that is its own parent, [get_lca] never comes back. *)
Lemma get_lca_self_parent p node s :
  caches_ok s →
  taxonomy s !! p = Some node → parent_link node = Some p →
  diverges (λ fuel, get_lca fuel p p) s.
Proof.
  intros Hok Hn Hp fuel. unfold get_lca. cbn zeta. unfold bind at 1. unfold get_self.
  destruct (cached_pair (lca_mappings s) (Z.min p p) (Z.max p p)) as [hit c1] eqn:Hcp.
  destruct (cached_pair_ok (lca_rel (taxonomy s)) _ _ _ _ _ (co_lca s Hok) Hcp)
    as [Hc1 (inner & Hinner & Hhit)].
  unfold bind at 1. unfold set_lca_mappings at 1.
  destruct hit as [v |].
  - exfalso.
    assert (Hv : is_lca (taxonomy s) p p v).
    { pose proof (Hc1 _ _ _ _ Hinner Hhit) as Hrel.
      apply (proj2 (lca_rel_min_max _ p p v)) in Hrel. by destruct Hrel. }
    destruct Hv as (la & _ & Hla & _).
    by apply self_parent_no_lineage with (node := node) in Hla.
  - unfold bind at 1. unfold get_lineage. cbn [for_each]. unfold bind at 1.
    rewrite (get_lineage_step_self_parent fuel ∅ p node);
      [eauto | apply (co_lineages s Hok) | done | done].
Qed.

(** ... and neither does [get_distance]. *)
Lemma get_distance_self_parent p node s :
  caches_ok s →
  taxonomy s !! p = Some node → parent_link node = Some p →
  diverges (λ fuel, get_distance fuel p p) s.
Proof.
  intros Hok Hn Hp fuel. unfold get_distance. cbn zeta. unfold bind at 1. unfold get_self.
  destruct (cached_pair (distances s) (Z.min p p) (Z.max p p)) as [hit c1] eqn:Hcp.
  destruct (cached_pair_ok (distance_rel (taxonomy s)) _ _ _ _ _ (co_distances s Hok) Hcp)
    as [Hc1 (inner & Hinner & Hhit)].
  unfold bind at 1. unfold set_distances at 1.
  change (mkTree (taxonomy s) (byranks s) (leaves s) (lineages s) c1 (lca_mappings s))
    with (with_distances c1 s).
  pose proof (caches_ok_with_distances s c1 Hok Hc1) as Hok1.
  destruct hit as [d |].
  - exfalso.
    assert (Hd : is_distance (taxonomy s) p p d).
    { pose proof (Hc1 _ _ _ _ Hinner Hhit) as Hrel.
      apply (proj2 (distance_rel_min_max _ p p d)) in Hrel. by destruct Hrel. }
    destruct Hd as (la & ? & ? & ? & ? & ? & ? & Hla & _).
    by apply self_parent_no_lineage with (node := node) in Hla.
  - unfold bind at 1.
    destruct (get_lca_self_parent p node (with_distances c1 s) Hok1 Hn Hp fuel)
      as [s' ->]. eauto.
Qed.

(** ** Claims on [get_lca] and [get_distance] *)

(** C8, as amended. In any state of a built tree, for every identifier
    [a] whose chain of parent links ends (it has a lineage [l]),
    [get_distance(a, a)] returns 0 and [get_lca(a, a)] returns [a]. *)
Theorem self_distance_and_lca (nodes : list tax_line) (names : list name_line)
    (built_tree self : TaxonomyTree) (a : Z) (l : list Z) :
  TaxonomyTree_init nodes names = Ok built_tree →
  state_of built_tree self →
  lineage_of (taxonomy self) a l →
  returns (λ fuel, get_distance fuel a a) self 0
  ∧ returns (λ fuel, get_lca fuel a a) self a.
Proof.
  intros _ [_ Hok] Hl. split.
  - by eapply returns_distance_self.
  - by eapply returns_lca_self.
Qed.

Lemma self_distance_and_lca_witness :
  returns (λ fuel, get_distance fuel 100 100) pinus 0
  ∧ returns (λ fuel, get_lca fuel 100 100) pinus 100.
Proof.
  apply (self_distance_and_lca pinus_nodes pinus_names pinus pinus 100 [1; 10; 100]).
  - vm_compute. reflexivity.
  - apply (init_state pinus_nodes pinus_names). vm_compute. reflexivity.
  - eapply (lineage_step _ 100 _ 10 [1; 10]); [vm_compute; reflexivity | reflexivity |].
    eapply (lineage_step _ 10 _ 1 [1]); [vm_compute; reflexivity | reflexivity |].
    eapply lineage_top; [vm_compute; reflexivity | reflexivity].
Defined.

(** C8 as written fails on a built tree: in [looped], identifier 2 is in
    the tree and is its own parent; neither query on it comes back, so
    neither returns its value. *)
Lemma self_distance_and_lca_counterexample :
  TaxonomyTree_init loop_nodes loop_names = Ok looped
  ∧ is_Some (taxonomy looped !! 2)
  ∧ diverges (λ fuel, get_distance fuel 2 2) looped
  ∧ diverges (λ fuel, get_lca fuel 2 2) looped
  ∧ ¬ returns (λ fuel, get_distance fuel 2 2) looped 0
  ∧ ¬ returns (λ fuel, get_lca fuel 2 2) looped 2.
Proof.
  assert (Hok : caches_ok looped) by apply (init_state _ _ _ looped_built).
  assert (Hd : diverges (λ fuel, get_distance fuel 2 2) looped).
  { eapply get_distance_self_parent; [done | vm_compute; reflexivity | reflexivity]. }
  assert (Hl : diverges (λ fuel, get_lca fuel 2 2) looped).
  { eapply get_lca_self_parent; [done | vm_compute; reflexivity | reflexivity]. }
  split_and!; [exact looped_built | vm_compute; eauto | done | done | |];
    by apply diverges_not_returns.
Qed.

(** With meeting lineages, [get_lca] returns the last node of their
    common prefix. *)
Lemma returns_lca self a b la lb x :
  caches_ok self →
  lineage_of (taxonomy self) a la → lineage_of (taxonomy self) b lb →
  x ∈ la → x ∈ lb →
  ∃ v, returns (λ fuel, get_lca fuel a b) self v
       ∧ last (max_prefix la lb).2 = Some v.
Proof.
  intros Hok Hla Hlb Hxa Hxb.
  destruct (lca_of_meeting_lineages _ a b la lb x Hla Hlb Hxa Hxb) as (v & Hlast & _).
  exists v. split; [| done].
  exists (length la `max` length lb)%nat. intros fuel Hfuel.
  destruct (get_lca_complete fuel a b la lb self Hok Hla Hlb) as (w & s' & Hrun);
    [lia | lia |].
  destruct (get_lca_spec _ _ _ _ _ _ Hok Hrun) as (_ & _ & _ & Hw).
  destruct (lca_rel_meeting _ _ _ _ _ _ _ Hla Hlb Hxa Hxb (Hw w eq_refl)) as [_ Hlast'].
  assert (w = v) as -> by congruence. eauto.
Qed.

(** C1, as amended. In any state of a built tree, for identifiers [a]
    and [b] whose lineages [la] and [lb] have a node in common,
    [get_lca(a, b)] returns the element of [la] at index [k - 1], where
    [k] is the size of the set intersection of the two lineages; that
    node is present in both lineages and no node present in both lies
    deeper in [la]. *)
Theorem lca_is_deepest_common (nodes : list tax_line) (names : list name_line)
    (built_tree self : TaxonomyTree) (a b x : Z) (la lb : list Z) :
  TaxonomyTree_init nodes names = Ok built_tree →
  state_of built_tree self →
  lineage_of (taxonomy self) a la → lineage_of (taxonomy self) b lb →
  x ∈ la → x ∈ lb →
  let k := size (list_to_set la ∩ list_to_set lb : gset Z) in
  ∃ v, returns (λ fuel, get_lca fuel a b) self v
       ∧ (0 < k)%nat ∧ la !! (k - 1)%nat = Some v
       ∧ v ∈ la ∧ v ∈ lb
       ∧ ∀ i y, la !! i = Some y → y ∈ lb → (i ≤ k - 1)%nat.
Proof.
  intros _ [_ Hok] Hla Hlb Hxa Hxb k.
  destruct (returns_lca self a b la lb x Hok Hla Hlb Hxa Hxb) as (v & Hret & Hlast).
  destruct (lca_of_meeting_lineages _ a b la lb x Hla Hlb Hxa Hxb)
    as (v' & Hlast' & Hsize & Hpos & _).
  pose proof (common_lineage _ a b la lb Hla Hlb) as Hcommon.
  pose proof (max_prefix_fst la lb) as Hpa. pose proof (max_prefix_snd la lb) as Hpb.
  fold k in Hsize. set (p := (max_prefix la lb).2) in *.
  assert (Hvp : p !! (k - 1)%nat = Some v).
  { rewrite last_lookup in Hlast. rewrite Hsize. rewrite <- Hlast. f_equal. lia. }
  assert (Hvin : v ∈ p) by (by eapply list_elem_of_lookup_2).
  exists v. split_and!; [done | lia | | | |].
  - rewrite Hpa. rewrite lookup_app_l by lia. done.
  - rewrite Hpa. apply elem_of_app. by left.
  - rewrite Hpb. apply elem_of_app. by left.
  - intros i y Hi Hy.
    assert (Hyp : y ∈ p).
    { apply (elem_of_list_to_set (C := gset Z)). rewrite <- Hcommon.
      apply elem_of_intersection. rewrite !elem_of_list_to_set.
      split; [by eapply list_elem_of_lookup_2 | done]. }
    apply list_elem_of_lookup_1 in Hyp as [j Hj].
    pose proof (lookup_lt_Some _ _ _ Hj) as Hjlt.
    assert (Hj' : la !! j = Some y) by (rewrite Hpa; by rewrite lookup_app_l by lia).
    pose proof (NoDup_lookup _ _ _ _ (lineage_of_NoDup _ _ _ Hla) Hi Hj') as ->. lia.
Qed.

Lemma lca_is_deepest_common_witness :
  let k := size (list_to_set [1; 10; 100] ∩ list_to_set [1; 10; 101] : gset Z) in
  ∃ v, returns (λ fuel, get_lca fuel 100 101) pinus v
       ∧ (0 < k)%nat ∧ [1; 10; 100] !! (k - 1)%nat = Some v
       ∧ v ∈ [1; 10; 100] ∧ v ∈ [1; 10; 101]
       ∧ ∀ i y, [1; 10; 100] !! i = Some y → y ∈ [1; 10; 101] → (i ≤ k - 1)%nat.
Proof.
  apply (lca_is_deepest_common pinus_nodes pinus_names pinus pinus 100 101 1).
  - vm_compute. reflexivity.
  - apply (init_state pinus_nodes pinus_names). vm_compute. reflexivity.
  - eapply (lineage_step _ 100 _ 10 [1; 10]); [vm_compute; reflexivity | reflexivity |].
    eapply (lineage_step _ 10 _ 1 [1]); [vm_compute; reflexivity | reflexivity |].
    eapply lineage_top; [vm_compute; reflexivity | reflexivity].
  - eapply (lineage_step _ 101 _ 10 [1; 10]); [vm_compute; reflexivity | reflexivity |].
    eapply (lineage_step _ 10 _ 1 [1]); [vm_compute; reflexivity | reflexivity |].
    eapply lineage_top; [vm_compute; reflexivity | reflexivity].
  - apply list_elem_of_here.
  - apply list_elem_of_here.
Defined.

(** With no LCA cached yet, [get_lca] returns what the index expression
    gives on the lineages of its arguments, in the order given. *)
Lemma get_lca_uncached a b la lb v s :
  caches_ok s → lca_mappings s = ∅ →
  lineage_of (taxonomy s) a la → lineage_of (taxonomy s) b lb →
  lca_of_lineages la lb = Some v →
  returns (λ fuel, get_lca fuel a b) s v.
Proof.
  intros Hok Hempty Hla Hlb Hv.
  exists (length la `max` length lb)%nat. intros fuel Hfuel.
  unfold get_lca. cbn zeta. unfold bind at 1. unfold get_self.
  unfold cached_pair. rewrite Hempty, lookup_empty.
  unfold bind at 1. unfold set_lca_mappings at 1.
  change (mkTree (taxonomy s) (byranks s) (leaves s) (lineages s) (distances s)
            (<[Z.min a b := ∅]> ∅))
    with (with_lca_mappings (<[Z.min a b := ∅]> ∅) s).
  unfold bind at 1.
  rewrite (get_lineage_pair_complete fuel a b la lb);
    [| apply (co_lineages s Hok) | exact Hla | exact Hlb | lia | lia].
  assert (Hda : (<[b := lb]> (<[a := la]> ∅) : gmap Z (list Z)) !! a = Some la).
  { rewrite lookup_insert. case_decide as Hab; [| by rewrite lookup_insert_eq].
    subst b. f_equal. by eapply lineage_of_det. }
  run. rewrite Hda, lookup_insert_eq. cbn. rewrite Hv. cbn.
  unfold store_pair. run. rewrite lookup_insert_eq. cbn. eauto.
Qed.

(** C1 as written fails on a built tree: in [orphan], identifiers 5 and 1
    are both in the tree, their lineages [[7; 5]] and [[1]] share no node
    ([k = 0]), and [get_lca(5, 1)] returns 5, the element at index [-1]
    of the first lineage, which is not in the lineage of 1. *)
Lemma lca_is_deepest_common_counterexample :
  TaxonomyTree_init orphan_nodes orphan_names = Ok orphan
  ∧ is_Some (taxonomy orphan !! 5) ∧ is_Some (taxonomy orphan !! 1)
  ∧ lineage_of (taxonomy orphan) 5 [7; 5] ∧ lineage_of (taxonomy orphan) 1 [1]
  ∧ size (list_to_set [7; 5] ∩ list_to_set [1] : gset Z) = 0%nat
  ∧ returns (λ fuel, get_lca fuel 5 1) orphan 5
  ∧ 5 ∉ [1].
Proof.
  assert (H1 : lineage_of (taxonomy orphan) 1 [1]).
  { eapply lineage_top; [vm_compute; reflexivity | reflexivity]. }
  split_and!.
  - exact orphan_built.
  - vm_compute. eauto.
  - vm_compute. eauto.
  - exact orphan_lineage_5.
  - exact H1.
  - vm_compute. reflexivity.
  - eapply get_lca_uncached;
      [apply orphan_state | vm_compute; reflexivity | apply orphan_lineage_5
      | exact H1 | vm_compute; reflexivity].
  - rewrite list_elem_of_singleton. done.
Qed.

(** ** Queries on an unknown identifier *)















(** ** An unknown second argument after a first that never ends *)





(** ** Rank codes *)

(** A [for] loop keeps an invariant of the accumulator and the state. *)
Lemma for_each_fold {A B : Type} (body : B → A → M B)
    (P : B → TaxonomyTree → Prop) (l : list A) :
  (∀ acc x s acc' s', P acc s → body acc x s = (Ok acc', s') → P acc' s') →
  ∀ acc s acc' s', P acc s → for_each body l acc s = (Ok acc', s') → P acc' s'.
Proof.
  intros Hstep. induction l as [| x l IH]; intros acc s acc' s' HP Hrun.
  - cbn in Hrun. run. by simplify_eq.
  - cbn [for_each] in Hrun. unfold bind in Hrun.
    destruct (body acc x s) as [[a | e |] s1] eqn:Hb; try done.
    eapply IH; [| exact Hrun]. eapply Hstep; eauto.
Qed.

(** [get_name], [get_rank], ...: a returned dict maps identifiers of the
    tree to the property of their nodes, and the state is untouched. *)
Lemma get_properties_spec {A : Type} (property : Node → A) l s d s' :
  get_properties property l s = (Ok d, s') →
  s' = s ∧ ∀ k v, d !! k = Some v →
             ∃ node, taxonomy s !! k = Some node ∧ v = property node.
Proof.
  unfold get_properties.
  apply (for_each_fold _ (λ d s', s' = s ∧ ∀ k v, d !! k = Some v →
                            ∃ node, taxonomy s !! k = Some node ∧ v = property node)).
  - intros acc x s1 acc' s1' [-> Hacc]. unfold _get_property. run.
    destruct (taxonomy_built s); [| done].
    destruct (taxonomy s !! x) as [node |] eqn:Hx; cbn; [| done].
    intros [= <- <-]. split; [done |]. intros k v. rewrite lookup_insert.
    case_decide; [| apply Hacc]. intros [= <-]. subst. eauto.
  - split; [done |]. intros k v. by rewrite lookup_empty.
Qed.

(** The code a node's own textual rank maps to: the entry of the table
    for a canonical rank, [R] for the root when its rank is not in the
    table. *)
Definition own_rank_code (tax_id : Z) (node : Node) (code : string) : Prop :=
  rank2code (rank node) = Some code
  ∨ (rank2code (rank node) = None ∧ tax_id = 1 ∧ code = "R").

(** The loop of [get_rank_code] stops on a node whose own rank maps to
    the code it reports, and leaves the state alone. *)
Lemma rank_code_loop_sound fuel : ∀ rk current_node node s code stop s',
  taxonomy s !! current_node = Some node → rank node = rk →
  rank_code_loop fuel rk current_node s = (Ok (code, stop), s') →
  s' = s ∧ ∃ node', taxonomy s !! stop = Some node' ∧ own_rank_code stop node' code.
Proof.
  induction fuel as [| fuel IH]; intros rk cur node s code stop s' Hn Hrk; [done |].
  cbn [rank_code_loop]. destruct (rank2code rk) as [c |] eqn:Hcode.
  - run. intros [= <- <- <-]. split; [done |]. exists node. split; [done |].
    left. by rewrite Hrk.
  - destruct (decide (cur = 1)) as [-> | Hne].
    + run. intros [= <- <- <-]. split; [done |]. exists node. split; [done |].
      right. by rewrite Hrk.
    + unfold get_parent. rewrite get_properties_one.
      rewrite (lookup_node_found _ _ _ Hn).
      destruct (parent node) as [p |]; [| by run].
      unfold key_of at 1. unfold bind at 1. unfold ret at 1.
      unfold get_rank. rewrite get_properties_one.
      destruct (lookup_node s p) as [pnode | e |] eqn:Hp; [| done | done].
      apply lookup_node_ok in Hp. intros Hrun.
      by apply (IH _ _ pnode _ _ _ _ Hp eq_refl) in Hrun.
Qed.

(** What an entry of [get_rank_code]'s result says when its depth is 0. *)
Definition depth_zero_identity (t : gmap Z Node) (tax_id : Z) (rk : Rank) : Prop :=
  rank_depth rk = 0 →
  ∃ node, t !! tax_id = Some node
          ∧ rank_name rk = rank node
          ∧ own_rank_code tax_id node (rank_code rk).

Lemma get_rank_code_step_sound fuel rank_dict acc tax_id s acc' s' :
  caches_ok s →
  (∀ k v, rank_dict !! k = Some v →
          ∃ node, taxonomy s !! k = Some node ∧ v = rank node) →
  (∀ n rk, acc !! n = Some rk → depth_zero_identity (taxonomy s) n rk) →
  get_rank_code_step fuel rank_dict acc tax_id s = (Ok acc', s') →
  tree_of s' = tree_of s ∧ caches_ok s'
  ∧ ∀ n rk, acc' !! n = Some rk → depth_zero_identity (taxonomy s) n rk.
Proof.
  intros Hok Hranks Hacc. unfold get_rank_code_step.
  unfold bind at 1. unfold dict_get at 1.
  destruct (rank_dict !! tax_id) as [rk0 |] eqn:Hrk0; [| by run].
  destruct (Hranks _ _ Hrk0) as (node & Hnode & ->).
  unfold ret at 1. unfold bind at 1.
  destruct (rank_code_loop fuel (rank node) tax_id s) as [[[code stop] | e |] s1] eqn:Hloop;
    [| done | done].
  destruct (rank_code_loop_sound _ _ _ _ _ _ _ _ Hnode eq_refl Hloop)
    as (-> & node' & Hstop & Hown).
  unfold bind at 1.
  destruct (get_distance fuel stop tax_id s) as [[depth | e |] s2] eqn:Hdist;
    [| done | done].
  destruct (get_distance_spec _ _ _ _ _ _ Hok Hdist) as (Htree & Hok2 & Hd).
  assert (Ht : taxonomy s2 = taxonomy s) by (by injection Htree).
  unfold get_rank. rewrite get_properties_one.
  rewrite <- Ht in Hnode. rewrite (lookup_node_found _ _ _ Hnode). rewrite Ht in Hnode.
  run. intros [= <- <-]. split_and!; [done | done |].
  intros n rk. rewrite lookup_insert. case_decide as Hn; [| apply Hacc].
  intros [= <-] Hzero. cbn in Hzero. subst n depth.
  apply distance_rel_zero in Hd; [| done]. subst stop.
  exists node. split_and!; [done | done |]. cbn. by simplify_eq.
Qed.

Lemma get_rank_code_sound fuel ids s d s' :
  caches_ok s →
  get_rank_code fuel ids s = (Ok d, s') →
  tree_of s' = tree_of s ∧ caches_ok s'
  ∧ ∀ n rk, d !! n = Some rk → depth_zero_identity (taxonomy s) n rk.
Proof.
  intros Hok. unfold get_rank_code. unfold bind at 1.
  destruct (get_rank ids s) as [[rank_dict | e |] s1] eqn:Hrank; [| done | done].
  apply get_properties_spec in Hrank as [-> Hranks].
  apply (for_each_fold _ (λ acc s', tree_of s' = tree_of s ∧ caches_ok s'
           ∧ ∀ n rk, acc !! n = Some rk → depth_zero_identity (taxonomy s) n rk)).
  - intros acc x s1 acc' s1' (Htree & Hok1 & Hacc) Hstep.
    assert (Ht : taxonomy s1 = taxonomy s) by (by injection Htree).
    rewrite <- Ht in Hranks, Hacc.
    destruct (get_rank_code_step_sound _ _ _ _ _ _ _ Hok1 Hranks Hacc Hstep)
      as (Htree' & Hok' & Hacc').
    rewrite Ht in Hacc'. split_and!; [congruence | done | done].
  - split_and!; [done | done |]. intros n rk. by rewrite lookup_empty.
Qed.

(** C4. In any state of a built tree, if [get_rank_code] returns and
    reports [rank_depth == 0] for an identifier [n], then [n] is in the
    tree and its own textual rank maps to the reported rank code: by the
    rank-to-code table, or to [R] for the root, identifier 1, whose rank
    is not in the table. The reported rank name is that same rank. *)
Theorem rank_depth_zero_identity (nodes : list tax_line) (names : list name_line)
    (built_tree self self' : TaxonomyTree) (fuel : nat) (tax_id_list : list Z)
    (rank_code_dict : gmap Z Rank) (n : Z) (rk : Rank) :
  TaxonomyTree_init nodes names = Ok built_tree →
  state_of built_tree self →
  get_rank_code fuel tax_id_list self = (Ok rank_code_dict, self') →
  rank_code_dict !! n = Some rk →
  rank_depth rk = 0 →
  ∃ node, taxonomy built_tree !! n = Some node
          ∧ rank_name rk = rank node
          ∧ own_rank_code n node (rank_code rk).
Proof.
  intros _ Hstate Hrun Hn Hzero.
  pose proof (state_of_taxonomy _ _ Hstate) as Ht. destruct Hstate as [_ Hok].
  destruct (get_rank_code_sound _ _ _ _ _ Hok Hrun) as (_ & _ & Hd).
  rewrite <- Ht. by apply (Hd n rk).
Qed.

Lemma rank_depth_zero_identity_witness :
  ∃ node, taxonomy pinus !! 10 = Some node
          ∧ rank_name (mkRank (Some "genus") "G" 0) = rank node
          ∧ own_rank_code 10 node (rank_code (mkRank (Some "genus") "G" 0)).
Proof.
  eapply (rank_depth_zero_identity pinus_nodes pinus_names pinus pinus _ 10%nat [10; 100]
            _ 10 (mkRank (Some "genus") "G" 0)).
  - vm_compute. reflexivity.
  - apply (init_state pinus_nodes pinus_names). vm_compute. reflexivity.
  - vm_compute. reflexivity.
  - vm_compute. reflexivity.
  - reflexivity.
Defined.

(** ** Claims on subtrees *)

(** A node source in which a genus sits below a species. *)
Definition irregular_nodes : list tax_line :=
  [ (1, 1, "no rank"); (2, 1, "species"); (3, 2, "genus") ].

Definition irregular_names : list name_line :=
  [ (1, "root", "scientific name");
    (2, "two", "scientific name");
    (3, "three", "scientific name") ].

Definition irregular : TaxonomyTree := built irregular_nodes irregular_names.

(** C2, on the code. On [irregular], identifier 3 is in the clade of the
    root and [get_rank_code] gives it code [G] at depth 0, yet
    [get_clade_rank_taxids([1], "genus")] records no genus: the
    traversal stops at the species 2, whose weight is not below that of
    [G], and never reaches 3. With no rank requested the genus is omitted
    as well. *)
Theorem pruning_omits_genus_below_species :
  TaxonomyTree_init irregular_nodes irregular_names = Ok irregular
  ∧ (get_clade 10 [1] irregular).1 = Ok {[1 := {[1; 2; 3]}]}
  ∧ (get_rank_code 10 [3] irregular).1 = Ok {[3 := mkRank (Some "genus") "G" 0]}
  ∧ (get_clade_rank_taxids 10 [1] (Some "genus") irregular).1
    = Ok {[1 := {["G" := ∅]}]}
  ∧ (∃ ranks, (get_clade_rank_taxids 10 [1] None irregular).1 = Ok {[1 := ranks]}
              ∧ ranks !! "S" = Some {[2]} ∧ ranks !! "G" = Some ∅).
Proof.
  split_and!; [vm_compute; reflexivity .. |].
  eexists. split_and!; vm_compute; reflexivity.
Qed.

(** A node source with a superkingdom right below the root. *)
Definition domain_nodes : list tax_line :=
  [ (1, 1, "no rank"); (2, 1, "superkingdom") ].

Definition domain_names : list name_line :=
  [ (1, "root", "scientific name"); (2, "Bacteria", "scientific name") ].

Definition domain : TaxonomyTree := built domain_nodes domain_names.

(** C3, on the code. On [domain], identifier 2 is at depth 0 with rank
    code [D], which is not one of [S, G, F, O, C, P]; [get_siblings(2)]
    does not raise, it returns [{2}]. The only test of [get_siblings] is
    [rank_depth != 0]. On the root, at depth 0 with code [R], the call
    raises [KeyError], from looking up the parent [None], not the rank
    error. *)
Theorem siblings_accepts_superkingdom :
  TaxonomyTree_init domain_nodes domain_names = Ok domain
  ∧ (get_rank_code 10 [2] domain).1 = Ok {[2 := mkRank (Some "superkingdom") "D" 0]}
  ∧ ("D" ∉ rank_codes)
  ∧ (get_siblings 10 2 domain).1 = Ok {[2]}
  ∧ (get_rank_code 10 [1] domain).1 = Ok {[1 := mkRank (Some "no rank") "R" 0]}
  ∧ (get_siblings 10 1 domain).1 = Raise KeyError.
Proof.
  split_and!; try (vm_compute; reflexivity).
  unfold rank_codes. rewrite !elem_of_cons, elem_of_nil. naive_solver.
Qed.

(** * Further properties *)

(** ** Lineages are chains of parent links *)

(** A lineage read as the code builds it: it starts at a node whose
    [parent] is [None] or 0, and each further element has the one before
    it as its [parent]. *)
Definition parent_chain (t : gmap Z Node) (l : list Z) : Prop :=
  (∃ top node, head l = Some top ∧ t !! top = Some node ∧ parent_link node = None)
  ∧ ∀ i x y, l !! i = Some x → l !! S i = Some y →
      ∃ node, t !! y = Some node ∧ parent node = Some x ∧ x ≠ 0.

Lemma parent_link_some node p : parent_link node = Some p → parent node = Some p ∧ p ≠ 0.
Proof.
  unfold parent_link. destruct (parent node) as [q |]; [| done].
  case_decide; [done |]. by intros [= <-].
Qed.

Lemma lineage_of_parent_chain t id l : lineage_of t id l → parent_chain t l.
Proof.
  induction 1 as [id node Hn Hp | id node p l Hn Hp Hl [(top & tnode & Hhead & Htop & Hnone) IH]].
  - split; [by exists id, node |]. intros i x y Hx Hy. by destruct i.
  - split.
    + exists top, tnode. split_and!; [| done | done]. by destruct l.
    + intros i x y Hx Hy.
      destruct (decide (S i < length l)%nat) as [Hlt | Hge].
      * rewrite lookup_app_l in Hx by lia. rewrite lookup_app_l in Hy by lia. eauto.
      * pose proof (lookup_lt_Some _ _ _ Hy) as Hlen.
        rewrite length_app in Hlen. cbn in Hlen.
        assert (S i = length l) as Hi by lia.
        rewrite lookup_app_r in Hy by lia. rewrite Hi, Nat.sub_diag in Hy.
        injection Hy as <-.
        rewrite lookup_app_l in Hx by lia.
        pose proof (lineage_of_last _ _ _ Hl) as Hlast. rewrite last_lookup in Hlast.
        replace (pred (length l)) with i in Hlast by lia.
        assert (x = p) as -> by congruence.
        apply parent_link_some in Hp as [Hp Hp0]. eauto.
Qed.

(** X1. In any state of a built tree, a dictionary [get_lineage]
    returns has exactly the requested identifiers as keys, and the value
    for each is a duplicate-free chain of parent links in the tree: it
    ends with the identifier, each element is the [parent] of the next,
    and its first element is a node whose [parent] is [None] or 0. *)
Theorem get_lineage_parent_chains (nodes : list tax_line) (names : list name_line)
    (built_tree self self' : TaxonomyTree) (fuel : nat) (tax_id_list : list Z)
    (lineage_dict : gmap Z (list Z)) :
  TaxonomyTree_init nodes names = Ok built_tree →
  state_of built_tree self →
  get_lineage fuel tax_id_list self = (Ok lineage_dict, self') →
  (∀ n, n ∉ tax_id_list → lineage_dict !! n = None)
  ∧ ∀ n, n ∈ tax_id_list →
      ∃ l, lineage_dict !! n = Some l
           ∧ last l = Some n ∧ NoDup l ∧ parent_chain (taxonomy built_tree) l.
Proof.
  intros _ Hstate Hrun.
  pose proof (state_of_taxonomy _ _ Hstate) as Ht. destruct Hstate as [_ Hok].
  destruct (get_lineage_spec fuel tax_id_list ∅ _ _ _ (co_lineages _ Hok) Hrun)
    as (c & _ & _ & Hd).
  destruct (Hd _ eq_refl) as [Hin Hout]. split.
  - intros n Hn. by rewrite Hout, lookup_empty.
  - intros n Hn. destruct (Hin n Hn) as (l & Hl & Hlin). rewrite Ht in Hlin.
    exists l. split_and!; [done | by eapply lineage_of_last
                          | by eapply lineage_of_NoDup | by eapply lineage_of_parent_chain].
Qed.

Lemma get_lineage_parent_chains_witness :
  (∀ n, n ∉ [100; 1] → ({[100 := [1; 10; 100]; 1 := [1]]} : gmap Z (list Z)) !! n = None)
  ∧ ∀ n, n ∈ [100; 1] →
      ∃ l, ({[100 := [1; 10; 100]; 1 := [1]]} : gmap Z (list Z)) !! n = Some l
           ∧ last l = Some n ∧ NoDup l ∧ parent_chain (taxonomy pinus) l.
Proof.
  eapply (get_lineage_parent_chains pinus_nodes pinus_names pinus pinus _ 5%nat [100; 1]).
  - vm_compute. reflexivity.
  - apply (init_state pinus_nodes pinus_names). vm_compute. reflexivity.
  - vm_compute. reflexivity.
Defined.

(** ** The lineage cache *)

(** A cached identifier costs [get_lineage] nothing: no fuel, no change
    of state. *)
Lemma get_lineage_step_cached fuel d id l s :
  lineages s !! id = Some l →
  get_lineage_step fuel d id s = (Ok (<[id := l]> d), s).
Proof.
  intros Hl. unfold get_lineage_step. unfold bind at 1. unfold get_self.
  by rewrite Hl.
Qed.

Lemma get_lineage_all_cached fuel ids : ∀ d s,
  (∀ id, id ∈ ids → is_Some (lineages s !! id)) →
  ∃ d', for_each (get_lineage_step fuel) ids d s = (Ok d', s)
        ∧ (∀ id, id ∈ ids → d' !! id = lineages s !! id)
        ∧ (∀ id, id ∉ ids → d' !! id = d !! id).
Proof.
  induction ids as [| x ids IH]; intros d s Hall; cbn [for_each].
  - exists d. split_and!; [done | |done]. intros id Hid. by apply elem_of_nil in Hid.
  - destruct (Hall x) as [l Hl]; [apply list_elem_of_here |].
    unfold bind. rewrite (get_lineage_step_cached fuel d x l s Hl).
    destruct (IH (<[x := l]> d) s) as (d' & -> & Hin & Hout).
    { intros id Hid. apply Hall. by apply list_elem_of_further. }
    exists d'. split_and!; [done | |].
    + intros id Hid. destruct (decide (id ∈ ids)) as [Hi | Hi]; [by apply Hin |].
      apply elem_of_cons in Hid as [-> | Hid]; [| done].
      by rewrite Hout, lookup_insert_eq.
    + intros id Hid. apply not_elem_of_cons in Hid as [Hne Hid].
      by rewrite Hout, lookup_insert_ne.
Qed.

(** A returned [get_lineage] leaves every requested identifier cached,
    with the value it returned, and drops nothing from the cache. *)
Lemma get_lineage_fills_cache fuel ids : ∀ d s d' s',
  lineages_ok (taxonomy s) (lineages s) →
  for_each (get_lineage_step fuel) ids d s = (Ok d', s') →
  (∀ id l, lineages s !! id = Some l → lineages s' !! id = Some l)
  ∧ (∀ id, id ∈ ids → is_Some (d' !! id) ∧ lineages s' !! id = d' !! id).
Proof.
  induction ids as [| x ids IH]; intros d s d' s' Hc; cbn [for_each].
  - run. intros [= <- <-]. split; [done |]. intros id Hid. by apply elem_of_nil in Hid.
  - unfold bind. destruct (get_lineage_step fuel d x s) as [o1 s1] eqn:Hstep.
    destruct (get_lineage_step_spec _ _ _ _ _ _ Hc Hstep)
      as [(l & -> & Hl & ->) | [-> Hno]];
      [| destruct o1 as [d1 | e |]; [by destruct (Hno d1) | done | done]].
    intros Hrest.
    assert (Hc1 : lineages_ok (taxonomy (with_lineages (<[x := l]> (lineages s)) s))
                    (lineages (with_lineages (<[x := l]> (lineages s)) s))).
    { cbn [taxonomy lineages with_lineages]. by apply lineages_ok_insert. }
    pose proof (get_lineage_spec fuel ids _ _ _ _ Hc1 Hrest) as (c & _ & Hc' & Hd).
    destruct (Hd _ eq_refl) as [Hdin Hdout].
    apply IH in Hrest as [Hmono Hin]; [| done].
    cbn [lineages with_lineages] in Hmono.
    assert (Hx : lineages s' !! x = Some l) by (apply Hmono; by rewrite lookup_insert_eq).
    split.
    + intros id l0 Hid. apply Hmono. rewrite lookup_insert. case_decide; [| done].
      subst id. f_equal. by eapply lineage_of_det; [| apply Hc].
    + intros id Hid. destruct (decide (id ∈ ids)) as [Hi | Hi]; [by apply Hin |].
      apply elem_of_cons in Hid as [-> | Hid]; [| done].
      rewrite Hdout by done. rewrite lookup_insert_eq. eauto.
Qed.

(** X2. In any state of a built tree, once [get_lineage] has returned
    for a list of identifiers, calling it again on the same list returns
    the same dictionary without walking the tree (any fuel does, even
    none) and leaves the object as it is. *)
Theorem get_lineage_again (nodes : list tax_line) (names : list name_line)
    (built_tree self self' : TaxonomyTree) (fuel : nat) (tax_id_list : list Z)
    (lineage_dict : gmap Z (list Z)) :
  TaxonomyTree_init nodes names = Ok built_tree →
  state_of built_tree self →
  get_lineage fuel tax_id_list self = (Ok lineage_dict, self') →
  ∀ fuel', get_lineage fuel' tax_id_list self' = (Ok lineage_dict, self').
Proof.
  intros _ [_ Hok] Hrun fuel'.
  destruct (get_lineage_fills_cache _ _ _ _ _ _ (co_lineages _ Hok) Hrun) as [_ Hin].
  destruct (get_lineage_spec fuel tax_id_list ∅ _ _ _ (co_lineages _ Hok) Hrun)
    as (c & _ & _ & Hd).
  destruct (Hd _ eq_refl) as [_ Hout].
  destruct (get_lineage_all_cached fuel' tax_id_list ∅ self') as (d' & Hrun' & Hin' & Hout').
  { intros id Hid. destruct (Hin id Hid) as [Hsome ->]. done. }
  unfold get_lineage. rewrite Hrun'. f_equal. f_equal. apply map_eq. intros id.
  destruct (decide (id ∈ tax_id_list)) as [Hid | Hid].
  - rewrite Hin' by done. by destruct (Hin id Hid) as [_ ->].
  - by rewrite Hout', Hout.
Qed.

Lemma get_lineage_again_witness :
  get_lineage 0 [100; 101] (get_lineage 5 [100; 101] pinus).2
  = (Ok {[100 := [1; 10; 100]; 101 := [1; 10; 101]]},
     (get_lineage 5 [100; 101] pinus).2).
Proof.
  apply (get_lineage_again pinus_nodes pinus_names pinus pinus _ 5%nat).
  - vm_compute. reflexivity.
  - apply (init_state pinus_nodes pinus_names). vm_compute. reflexivity.
  - vm_compute. reflexivity.
Defined.

(** ** Distances *)

Lemma py_index_NoDup l i x :
  NoDup l → l !! i = Some x → py_index x l = Some (Z.of_nat i).
Proof.
  intros Hnd Hi.
  destruct (py_index_elem_of x l) as [j Hj]; [by eapply list_elem_of_lookup_2 |].
  rewrite Hj. f_equal. apply py_index_lookup in Hj as [Hj0 Hj].
  pose proof (NoDup_lookup _ _ _ _ Hnd Hi Hj). lia.
Qed.

(** The number of edges between [a] and [b] through the end of the
    common part of their lineages. *)
Definition path_length (la lb : list Z) : Z :=
  let k := Z.of_nat (size (list_to_set la ∩ list_to_set lb : gset Z)) in
  (Z.of_nat (length la) - k) + (Z.of_nat (length lb) - k).

Lemma path_length_sym la lb : path_length la lb = path_length lb la.
Proof.
  unfold path_length.
  rewrite (comm_L (∩) (list_to_set la : gset Z) (list_to_set lb)). lia.
Qed.

Lemma is_distance_meeting t a b la lb x d :
  lineage_of t a la → lineage_of t b lb → x ∈ la → x ∈ lb →
  is_distance t a b d → d = path_length la lb.
Proof.
  intros Hla Hlb Hxa Hxb
    (la' & lb' & v & ia & ja & ib & jb & Hla' & Hlb' & Hv & Hia & Hja & Hib & Hjb & ->).
  pose proof (lineage_of_det _ _ _ Hla _ Hla') as <-.
  pose proof (lineage_of_det _ _ _ Hlb _ Hlb') as <-.
  destruct (lca_rel_meeting _ _ _ _ _ _ _ Hla Hlb Hxa Hxb Hv) as [_ Hlast].
  destruct (lca_of_meeting_lineages _ a b la lb x Hla Hlb Hxa Hxb)
    as (_ & _ & Hsize & Hpos & _).
  pose proof (max_prefix_fst la lb) as Hpa. pose proof (max_prefix_snd la lb) as Hpb.
  unfold path_length. cbn zeta. rewrite Hsize.
  set (p := (max_prefix la lb).2) in *.
  rewrite last_lookup in Hlast.
  assert (Hva : la !! pred (length p) = Some v).
  { rewrite Hpa. by rewrite lookup_app_l by lia. }
  assert (Hvb : lb !! pred (length p) = Some v).
  { rewrite Hpb. by rewrite lookup_app_l by lia. }
  pose proof (lineage_of_NoDup _ _ _ Hla) as Hnda.
  pose proof (lineage_of_NoDup _ _ _ Hlb) as Hndb.
  rewrite (py_index_NoDup _ _ _ Hnda Hva) in Hia.
  rewrite (py_index_NoDup _ _ _ Hndb Hvb) in Hib.
  rewrite (py_index_last _ _ Hnda (lineage_of_last _ _ _ Hla)) in Hja.
  rewrite (py_index_last _ _ Hndb (lineage_of_last _ _ _ Hlb)) in Hjb.
  simplify_eq. lia.
Qed.

Lemma distance_rel_meeting t a b la lb x d :
  lineage_of t a la → lineage_of t b lb → x ∈ la → x ∈ lb →
  distance_rel t a b d → d = path_length la lb.
Proof.
  intros Hla Hlb Hxa Hxb [Hd | Hd].
  - by eapply is_distance_meeting.
  - rewrite path_length_sym. by eapply is_distance_meeting.
Qed.

Lemma returns_distance self a b la lb x :
  caches_ok self →
  lineage_of (taxonomy self) a la → lineage_of (taxonomy self) b lb →
  x ∈ la → x ∈ lb →
  returns (λ fuel, get_distance fuel a b) self (path_length la lb).
Proof.
  intros Hok Hla Hlb Hxa Hxb.
  exists (length la `max` length lb)%nat. intros fuel Hfuel.
  destruct (get_distance_complete fuel a b la lb x self Hok Hla Hlb Hxa Hxb)
    as (d & s' & Hrun); [lia | lia |].
  destruct (get_distance_spec _ _ _ _ _ _ Hok Hrun) as (_ & _ & Hd).
  rewrite (distance_rel_meeting _ _ _ _ _ _ _ Hla Hlb Hxa Hxb (Hd d eq_refl)) in Hrun.
  eauto.
Qed.

(** X3. In any state of a built tree, for identifiers whose lineages
    [la] and [lb] have a node in common, [get_distance(a, b)] returns
    [(len(la) - k) + (len(lb) - k)], where [k] is the number of nodes the
    two lineages share: the number of edges from [a] up to their lowest
    common ancestor and down to [b]. The value is not negative and is
    the same for [get_distance(b, a)]. *)
Theorem distance_through_lca (nodes : list tax_line) (names : list name_line)
    (built_tree self : TaxonomyTree) (a b x : Z) (la lb : list Z) :
  TaxonomyTree_init nodes names = Ok built_tree →
  state_of built_tree self →
  lineage_of (taxonomy self) a la → lineage_of (taxonomy self) b lb →
  x ∈ la → x ∈ lb →
  returns (λ fuel, get_distance fuel a b) self (path_length la lb)
  ∧ returns (λ fuel, get_distance fuel b a) self (path_length la lb)
  ∧ 0 ≤ path_length la lb.
Proof.
  intros _ [_ Hok] Hla Hlb Hxa Hxb. split_and!.
  - by eapply returns_distance.
  - rewrite path_length_sym. by eapply returns_distance.
  - destruct (lca_of_meeting_lineages _ a b la lb x Hla Hlb Hxa Hxb)
      as (_ & _ & Hsize & _).
    unfold path_length. cbn zeta. rewrite Hsize.
    pose proof (max_prefix_fst la lb) as Hpa. pose proof (max_prefix_snd la lb) as Hpb.
    apply (f_equal length) in Hpa, Hpb. rewrite length_app in Hpa, Hpb. lia.
Qed.

Lemma distance_through_lca_witness :
  returns (λ fuel, get_distance fuel 100 101) pinus (path_length [1; 10; 100] [1; 10; 101])
  ∧ returns (λ fuel, get_distance fuel 101 100) pinus (path_length [1; 10; 100] [1; 10; 101])
  ∧ 0 ≤ path_length [1; 10; 100] [1; 10; 101].
Proof.
  apply (distance_through_lca pinus_nodes pinus_names pinus pinus 100 101 1).
  - vm_compute. reflexivity.
  - apply (init_state pinus_nodes pinus_names). vm_compute. reflexivity.
  - eapply (lineage_step _ 100 _ 10 [1; 10]); [vm_compute; reflexivity | reflexivity |].
    eapply (lineage_step _ 10 _ 1 [1]); [vm_compute; reflexivity | reflexivity |].
    eapply lineage_top; [vm_compute; reflexivity | reflexivity].
  - eapply (lineage_step _ 101 _ 10 [1; 10]); [vm_compute; reflexivity | reflexivity |].
    eapply (lineage_step _ 10 _ 1 [1]); [vm_compute; reflexivity | reflexivity |].
    eapply lineage_top; [vm_compute; reflexivity | reflexivity].
  - apply list_elem_of_here.
  - apply list_elem_of_here.
Defined.

(** X4. In any state of a built tree, for identifiers whose lineages
    have a node in common, [get_lca(a, b)] and [get_lca(b, a)] return
    the same node. *)
Theorem lca_symmetric (nodes : list tax_line) (names : list name_line)
    (built_tree self : TaxonomyTree) (a b x : Z) (la lb : list Z) :
  TaxonomyTree_init nodes names = Ok built_tree →
  state_of built_tree self →
  lineage_of (taxonomy self) a la → lineage_of (taxonomy self) b lb →
  x ∈ la → x ∈ lb →
  ∃ v, returns (λ fuel, get_lca fuel a b) self v
       ∧ returns (λ fuel, get_lca fuel b a) self v.
Proof.
  intros _ [_ Hok] Hla Hlb Hxa Hxb.
  destruct (returns_lca self a b la lb x Hok Hla Hlb Hxa Hxb) as (v & Hab & Hlast).
  destruct (returns_lca self b a lb la x Hok Hlb Hla Hxb Hxa) as (w & Hba & Hlast').
  destruct (lca_of_meeting_lineages _ a b la lb x Hla Hlb Hxa Hxb)
    as (v' & Hv' & _ & _ & _ & Hswap).
  destruct (lca_of_meeting_lineages _ b a lb la x Hlb Hla Hxb Hxa)
    as (w' & Hw' & _ & _ & Hswap' & _).
  assert (w = v) as -> by congruence. eauto.
Qed.

Lemma lca_symmetric_witness :
  ∃ v, returns (λ fuel, get_lca fuel 100 10) pinus v
       ∧ returns (λ fuel, get_lca fuel 10 100) pinus v.
Proof.
  apply (lca_symmetric pinus_nodes pinus_names pinus pinus 100 10 1 [1; 10; 100] [1; 10]).
  - vm_compute. reflexivity.
  - apply (init_state pinus_nodes pinus_names). vm_compute. reflexivity.
  - eapply (lineage_step _ 100 _ 10 [1; 10]); [vm_compute; reflexivity | reflexivity |].
    eapply (lineage_step _ 10 _ 1 [1]); [vm_compute; reflexivity | reflexivity |].
    eapply lineage_top; [vm_compute; reflexivity | reflexivity].
  - eapply (lineage_step _ 10 _ 1 [1]); [vm_compute; reflexivity | reflexivity |].
    eapply lineage_top; [vm_compute; reflexivity | reflexivity].
  - apply list_elem_of_here.
  - apply list_elem_of_here.
Defined.

(** ** The pair caches *)

Lemma cached_pair_hit c small large inner v :
  c !! small = Some inner → inner !! large = Some v →
  cached_pair c small large = (Some v, c).
Proof. intros Hs Hl. unfold cached_pair. by rewrite Hs, Hl. Qed.

(** A value found in the LCA cache is returned as it is. *)
Lemma get_lca_cached fuel a b inner v s :
  lca_mappings s !! Z.min a b = Some inner → inner !! Z.max a b = Some v →
  get_lca fuel a b s = (Ok v, s).
Proof.
  intros Hs Hl. unfold get_lca. cbn zeta. unfold bind at 1. unfold get_self.
  rewrite (cached_pair_hit _ _ _ _ _ Hs Hl). run. by destruct s.
Qed.

(** A returned LCA is in the cache, under (smaller, larger). *)
Lemma get_lca_stores fuel a b v s s' :
  get_lca fuel a b s = (Ok v, s') →
  ∃ inner, lca_mappings s' !! Z.min a b = Some inner ∧ inner !! Z.max a b = Some v.
Proof.
  unfold get_lca. cbn zeta. unfold bind at 1. unfold get_self.
  unfold cached_pair.
  destruct (lca_mappings s !! Z.min a b) as [inner |] eqn:Hs.
  - destruct (inner !! Z.max a b) as [hit |] eqn:Hl.
    + run. intros [= <- <-]. eauto.
    + unfold bind at 1. unfold set_lca_mappings at 1. unfold bind at 1.
      destruct (get_lineage fuel [a; b] _) as [[d | e |] s2]; [| done | done].
      unfold bind at 1. unfold dict_get at 1.
      destruct (d !! a) as [l1 |]; [| done]. unfold ret at 1.
      unfold bind at 1. unfold dict_get at 1.
      destruct (d !! b) as [l2 |]; [| done]. unfold ret at 1.
      destruct (lca_of_lineages l1 l2) as [lca |]; [| done].
      unfold store_pair. run.
      destruct (lca_mappings s2 !! Z.min a b) as [inner2 |]; cbn; [| done].
      intros [= <- <-]. cbn. eexists. by rewrite !lookup_insert_eq.
  - unfold bind at 1. unfold set_lca_mappings at 1. unfold bind at 1.
    destruct (get_lineage fuel [a; b] _) as [[d | e |] s2]; [| done | done].
    unfold bind at 1. unfold dict_get at 1.
    destruct (d !! a) as [l1 |]; [| done]. unfold ret at 1.
    unfold bind at 1. unfold dict_get at 1.
    destruct (d !! b) as [l2 |]; [| done]. unfold ret at 1.
    destruct (lca_of_lineages l1 l2) as [lca |]; [| done].
    unfold store_pair. run.
    destruct (lca_mappings s2 !! Z.min a b) as [inner2 |]; cbn; [| done].
    intros [= <- <-]. cbn. eexists. by rewrite !lookup_insert_eq.
Qed.

(** X5. Whenever [get_lca(a, b)] has returned a node, calling it again
    with the same two identifiers in either order returns that node from
    the cache, without fetching a lineage, and leaves the object as it
    is: the cache is keyed by the unordered pair. *)
Theorem get_lca_again (fuel : nat) (a b v : Z) (self self' : TaxonomyTree) :
  get_lca fuel a b self = (Ok v, self') →
  ∀ fuel', get_lca fuel' a b self' = (Ok v, self')
           ∧ get_lca fuel' b a self' = (Ok v, self').
Proof.
  intros Hrun fuel'. destruct (get_lca_stores _ _ _ _ _ _ Hrun) as (inner & Hs & Hl).
  split; [by eapply get_lca_cached |].
  eapply get_lca_cached; [by rewrite Z.min_comm | by rewrite Z.max_comm].
Qed.

Lemma get_lca_again_witness :
  get_lca 0 100 101 (get_lca 5 100 101 pinus).2
  = (Ok 10, (get_lca 5 100 101 pinus).2)
  ∧ get_lca 0 101 100 (get_lca 5 100 101 pinus).2
    = (Ok 10, (get_lca 5 100 101 pinus).2).
Proof.
  apply (get_lca_again 5 100 101 10 pinus).
  vm_compute. reflexivity.
Defined.

(** A value found in the distance cache is returned as it is. *)
Lemma get_distance_cached fuel a b inner d s :
  distances s !! Z.min a b = Some inner → inner !! Z.max a b = Some d →
  get_distance fuel a b s = (Ok d, s).
Proof.
  intros Hs Hl. unfold get_distance. cbn zeta. unfold bind at 1. unfold get_self.
  rewrite (cached_pair_hit _ _ _ _ _ Hs Hl). run. by destruct s.
Qed.

(** What [get_distance] does once the cache has missed. *)
Lemma get_distance_miss_stores fuel a b d s1 s' :
  (let* lca := get_lca fuel a b in
   let* distance_1 := one_way_distance fuel lca a in
   let* distance_2 := one_way_distance fuel lca b in
   let distance := distance_1 + distance_2 in
   let* self := get_self in
   let* cache := store_pair (distances self) (Z.min a b) (Z.max a b) distance in
   do set_distances cache then ret distance) s1 = (Ok d, s') →
  ∃ inner, distances s' !! Z.min a b = Some inner ∧ inner !! Z.max a b = Some d.
Proof.
  unfold bind at 1.
  destruct (get_lca fuel a b s1) as [[v | e |] s2]; [| done | done].
  unfold bind at 1.
  destruct (one_way_distance fuel v a s2) as [[d1 | e |] s3]; [| done | done].
  unfold bind at 1.
  destruct (one_way_distance fuel v b s3) as [[d2 | e |] s4]; [| done | done].
  cbn zeta. unfold store_pair. run.
  destruct (distances s4 !! Z.min a b) as [inner |]; cbn; [| done].
  intros [= <- <-]. cbn. eexists. by rewrite !lookup_insert_eq.
Qed.

(** A returned distance is in the cache, under (smaller, larger). *)
Lemma get_distance_stores fuel a b d s s' :
  get_distance fuel a b s = (Ok d, s') →
  ∃ inner, distances s' !! Z.min a b = Some inner ∧ inner !! Z.max a b = Some d.
Proof.
  unfold get_distance. cbn zeta. unfold bind at 1. unfold get_self.
  unfold cached_pair.
  destruct (distances s !! Z.min a b) as [inner |] eqn:Hs.
  - destruct (inner !! Z.max a b) as [hit |] eqn:Hl.
    + run. intros [= <- <-]. eauto.
    + unfold bind at 1. unfold set_distances at 1. apply get_distance_miss_stores.
  - unfold bind at 1. unfold set_distances at 1. apply get_distance_miss_stores.
Qed.

(** X6. Whenever [get_distance(a, b)] has returned a distance, calling
    it again with the same two identifiers in either order returns that
    distance from the cache, without computing an LCA or a lineage, and
    leaves the object as it is. *)
Theorem get_distance_again (fuel : nat) (a b d : Z) (self self' : TaxonomyTree) :
  get_distance fuel a b self = (Ok d, self') →
  ∀ fuel', get_distance fuel' a b self' = (Ok d, self')
           ∧ get_distance fuel' b a self' = (Ok d, self').
Proof.
  intros Hrun fuel'. destruct (get_distance_stores _ _ _ _ _ _ Hrun) as (inner & Hs & Hl).
  split; [by eapply get_distance_cached |].
  eapply get_distance_cached; [by rewrite Z.min_comm | by rewrite Z.max_comm].
Qed.

Lemma get_distance_again_witness :
  get_distance 0 100 101 (get_distance 5 100 101 pinus).2
  = (Ok 2, (get_distance 5 100 101 pinus).2)
  ∧ get_distance 0 101 100 (get_distance 5 100 101 pinus).2
    = (Ok 2, (get_distance 5 100 101 pinus).2).
Proof.
  apply (get_distance_again 5 100 101 2 pinus).
  vm_compute. reflexivity.
Defined.

(** ** Lineages that do not meet *)

Lemma lca_of_disjoint_lineages la lb a :
  last la = Some a → (∀ x, x ∈ la → x ∉ lb) → lca_of_lineages la lb = Some a.
Proof.
  intros Hlast Hdisj. unfold lca_of_lineages. cbn zeta.
  replace (list_to_set la ∩ list_to_set lb : gset Z) with (∅ : gset Z).
  - rewrite size_empty. by apply py_getitem_minus_one.
  - symmetry. apply set_eq. intros x.
    rewrite elem_of_intersection, !elem_of_list_to_set. split; [| set_solver].
    intros [Ha Hb]. by destruct (Hdisj x Ha).
Qed.

(** X7. On a freshly built tree, for identifiers whose lineages share
    no node, [get_lca(a, b)] returns its first argument [a]: the size of
    the intersection is 0 and the index expression [lineage[0 - 1]]
    reads the last element of the lineage of [a]. *)
Theorem lca_of_disjoint_is_first_argument (nodes : list tax_line) (names : list name_line)
    (built_tree : TaxonomyTree) (a b : Z) (la lb : list Z) :
  TaxonomyTree_init nodes names = Ok built_tree →
  lineage_of (taxonomy built_tree) a la → lineage_of (taxonomy built_tree) b lb →
  (∀ x, x ∈ la → x ∉ lb) →
  returns (λ fuel, get_lca fuel a b) built_tree a.
Proof.
  intros Hinit Hla Hlb Hdisj.
  pose proof (init_state _ _ _ Hinit) as [_ Hok].
  apply (get_lca_uncached a b la lb); [done | | done | done |].
  - apply init_spec in Hinit as (? & ? & ? & ? & _ & _ & _ & _ & _ & _ & _ & _ & Hm).
    exact Hm.
  - apply lca_of_disjoint_lineages; [by eapply lineage_of_last | done].
Qed.

Lemma lca_of_disjoint_is_first_argument_witness :
  returns (λ fuel, get_lca fuel 1 5) orphan 1.
Proof.
  apply (lca_of_disjoint_is_first_argument orphan_nodes orphan_names orphan 1 5 [1] [7; 5]).
  - vm_compute. reflexivity.
  - eapply lineage_top; [vm_compute; reflexivity | reflexivity].
  - eapply (lineage_step _ 5 _ 7 [7]); [vm_compute; reflexivity | reflexivity |].
    eapply lineage_top; [vm_compute; reflexivity | reflexivity].
  - intros x Hx. apply list_elem_of_singleton in Hx as ->.
    rewrite !elem_of_cons, elem_of_nil. lia.
Defined.

(** ** The getters *)

Lemma _get_property_run {A : Type} (property : Node → A) tax_id s :
  taxonomy s ≠ ∅ →
  _get_property tax_id property s
  = (match taxonomy s !! tax_id with
     | Some node => Ok (property node)
     | None => Raise KeyError
     end, s).
Proof.
  intros Hne. unfold _get_property, taxonomy_built. run.
  rewrite bool_decide_eq_true_2 by done. by destruct (taxonomy s !! tax_id).
Qed.

Lemma get_properties_known {A : Type} (property : Node → A) l : ∀ (d0 : gmap Z A) s,
  taxonomy s ≠ ∅ →
  Forall (λ k, is_Some (taxonomy s !! k)) l →
  ∃ d, for_each (λ d tax_id, let* v := _get_property tax_id property in
                             ret (<[tax_id := v]> d)) l d0 s = (Ok d, s)
       ∧ ∀ k, d !! k = if decide (k ∈ l) then property <$> taxonomy s !! k else d0 !! k.
Proof.
  induction l as [| x l IH]; intros d0 s Hne Hall; cbn [for_each].
  - exists d0. split; [done |]. intros k. rewrite decide_False; [done |].
    by intros ?%elem_of_nil.
  - apply Forall_cons in Hall as [[node Hx] Hall].
    unfold bind at 1. unfold bind at 1. rewrite _get_property_run by done. rewrite Hx.
    unfold ret at 1.
    destruct (IH (<[x := property node]> d0) s Hne Hall) as (d & -> & Hd).
    exists d. split; [done |]. intros k. rewrite Hd.
    destruct (decide (k ∈ l)) as [Hk | Hk].
    + rewrite decide_True; [done |]. by apply list_elem_of_further.
    + destruct (decide (k = x)) as [-> | Hkx].
      * rewrite decide_True by apply list_elem_of_here.
        by rewrite lookup_insert_eq, Hx.
      * rewrite decide_False by (by intros [? | ?]%elem_of_cons).
        by rewrite lookup_insert_ne.
Qed.

Lemma get_properties_unknown {A : Type} (property : Node → A) l : ∀ (d0 : gmap Z A) s,
  taxonomy s ≠ ∅ →
  Exists (λ k, taxonomy s !! k = None) l →
  for_each (λ d tax_id, let* v := _get_property tax_id property in
                        ret (<[tax_id := v]> d)) l d0 s = (Raise KeyError, s).
Proof.
  induction l as [| x l IH]; intros d0 s Hne Hex; [by apply Exists_nil in Hex |].
  cbn [for_each]. unfold bind at 1. unfold bind at 1.
  rewrite _get_property_run by done.
  destruct (taxonomy s !! x) as [node |] eqn:Hx; [| done].
  unfold ret at 1. apply IH; [done |].
  apply Exists_cons in Hex as [Hex | Hex]; [congruence | done].
Qed.

(** X8. In any state of a built tree, each of [get_name],
    [get_common_name], [get_children], [get_parent] and [get_rank]
    (here: [get_properties] with the field read) leaves the object
    unchanged and either returns the dictionary that maps exactly the
    requested identifiers to that field of their nodes, when all of them
    are in the tree, or raises [KeyError], when one of them is not. *)
Theorem getters_on_built_tree {A : Type} (property : Node → A)
    (nodes : list tax_line) (names : list name_line)
    (built_tree self : TaxonomyTree) (tax_id_list : list Z) :
  TaxonomyTree_init nodes names = Ok built_tree →
  state_of built_tree self →
  (Forall (λ k, is_Some (taxonomy built_tree !! k)) tax_id_list →
   ∃ d, get_properties property tax_id_list self = (Ok d, self)
        ∧ ∀ k, d !! k = if decide (k ∈ tax_id_list)
                        then property <$> taxonomy built_tree !! k else None)
  ∧ (Exists (λ k, taxonomy built_tree !! k = None) tax_id_list →
     get_properties property tax_id_list self = (Raise KeyError, self)).
Proof.
  intros Hinit Hstate.
  pose proof (state_of_taxonomy _ _ Hstate) as Ht.
  assert (Hne : taxonomy self ≠ ∅).
  { destruct (init_root _ _ _ Hinit) as (root & Hroot & _). rewrite Ht.
    intros Hempty. by rewrite Hempty, lookup_empty in Hroot. }
  rewrite <- Ht. split.
  - intros Hall.
    destruct (get_properties_known property tax_id_list ∅ self Hne Hall) as (d & Hrun & Hd).
    exists d. split; [done |]. intros k. rewrite Hd. by rewrite lookup_empty.
  - intros Hex. by apply get_properties_unknown.
Qed.

Lemma getters_on_built_tree_witness :
  (Forall (λ k, is_Some (taxonomy pinus !! k)) [100; 10] →
   ∃ d, get_parent [100; 10] pinus = (Ok d, pinus)
        ∧ ∀ k, d !! k = if decide (k ∈ [100; 10])
                        then parent <$> taxonomy pinus !! k else None)
  ∧ (Exists (λ k, taxonomy pinus !! k = None) [100; 10] →
     get_parent [100; 10] pinus = (Raise KeyError, pinus)).
Proof.
  apply (getters_on_built_tree parent pinus_nodes pinus_names pinus pinus [100; 10]).
  - vm_compute. reflexivity.
  - apply (init_state pinus_nodes pinus_names). vm_compute. reflexivity.
Defined.

(** One turn of the loop of [get_node] over a taxonomy [t]. *)
Lemma get_node_loop_cons (t : gmap Z Node) x l (d0 : gmap Z Node) s :
  for_each (λ node_dict tax_id,
              let* node := dict_get t tax_id in
              ret (<[tax_id := node]> node_dict)) (x :: l) d0 s
  = match t !! x with
    | Some node =>
      for_each (λ node_dict tax_id,
                  let* node := dict_get t tax_id in
                  ret (<[tax_id := node]> node_dict)) l (<[x := node]> d0) s
    | None => (Raise KeyError, s)
    end.
Proof. cbn [for_each]. unfold bind, dict_get, ret. by destruct (t !! x). Qed.

Lemma get_node_loop (t : gmap Z Node) l : ∀ (d0 : gmap Z Node) s,
  (Forall (λ k, is_Some (t !! k)) l →
   ∃ d, for_each (λ node_dict tax_id,
                    let* node := dict_get t tax_id in
                    ret (<[tax_id := node]> node_dict)) l d0 s = (Ok d, s)
        ∧ ∀ k, d !! k = if decide (k ∈ l) then t !! k else d0 !! k)
  ∧ (Exists (λ k, t !! k = None) l →
     for_each (λ node_dict tax_id,
                 let* node := dict_get t tax_id in
                 ret (<[tax_id := node]> node_dict)) l d0 s = (Raise KeyError, s)).
Proof.
  induction l as [| x l IH]; intros d0 s.
  - split.
    + intros _. exists d0. split; [done |]. intros k. rewrite decide_False; [done |].
      by intros ?%elem_of_nil.
    + by intros ?%Exists_nil.
  - rewrite get_node_loop_cons. destruct (t !! x) as [node |] eqn:Hx.
    + destruct (IH (<[x := node]> d0) s) as [IHok IHerr]. split.
      * intros [_ Hall]%Forall_cons. destruct (IHok Hall) as (d & -> & Hd).
        exists d. split; [done |]. intros k. rewrite Hd.
        destruct (decide (k ∈ l)) as [Hk | Hk].
        -- rewrite decide_True; [done |]. by apply list_elem_of_further.
        -- destruct (decide (k = x)) as [-> | Hkx].
           ++ rewrite decide_True by apply list_elem_of_here.
              by rewrite lookup_insert_eq.
           ++ rewrite decide_False by (by intros [? | ?]%elem_of_cons).
              by rewrite lookup_insert_ne.
      * intros [Hex | Hex]%Exists_cons; [congruence | by apply IHerr].
    + split; [| done]. intros [[? ?] _]%Forall_cons. congruence.
Qed.

Lemma get_node_unfold l s :
  get_node l s
  = if taxonomy_built s then
      for_each (λ node_dict tax_id,
                  let* node := dict_get (taxonomy s) tax_id in
                  ret (<[tax_id := node]> node_dict)) l ∅ s
    else (Raise TaxonomyTreeException, s).
Proof. unfold get_node, bind, get_self. by destruct (taxonomy_built s). Qed.

(** X9. In any state of a built tree, [get_node] leaves the object
    unchanged and either returns the dictionary that maps exactly the
    requested identifiers to their nodes, when all of them are in the
    tree, or raises [KeyError], when one of them is not. *)
Theorem get_node_on_built_tree (nodes : list tax_line) (names : list name_line)
    (built_tree self : TaxonomyTree) (tax_id_list : list Z) :
  TaxonomyTree_init nodes names = Ok built_tree →
  state_of built_tree self →
  (Forall (λ k, is_Some (taxonomy built_tree !! k)) tax_id_list →
   ∃ d, get_node tax_id_list self = (Ok d, self)
        ∧ ∀ k, d !! k = if decide (k ∈ tax_id_list)
                        then taxonomy built_tree !! k else None)
  ∧ (Exists (λ k, taxonomy built_tree !! k = None) tax_id_list →
     get_node tax_id_list self = (Raise KeyError, self)).
Proof.
  intros Hinit Hstate.
  pose proof (state_of_taxonomy _ _ Hstate) as Ht.
  assert (Hne : taxonomy self ≠ ∅).
  { destruct (init_root _ _ _ Hinit) as (root & Hroot & _). rewrite Ht.
    intros Hempty. by rewrite Hempty, lookup_empty in Hroot. }
  rewrite <- Ht. rewrite get_node_unfold.
  unfold taxonomy_built. rewrite bool_decide_eq_true_2 by done.
  destruct (get_node_loop (taxonomy self) tax_id_list ∅ self) as [Hok Herr].
  split; [| done].
  intros Hall. destruct (Hok Hall) as (d & Hrun & Hd). exists d. split; [done |].
  intros k. rewrite Hd. by rewrite lookup_empty.
Qed.

Lemma get_node_on_built_tree_witness :
  (Forall (λ k, is_Some (taxonomy pinus !! k)) [100; 7] →
   ∃ d, get_node [100; 7] pinus = (Ok d, pinus)
        ∧ ∀ k, d !! k = if decide (k ∈ [100; 7])
                        then taxonomy pinus !! k else None)
  ∧ (Exists (λ k, taxonomy pinus !! k = None) [100; 7] →
     get_node [100; 7] pinus = (Raise KeyError, pinus)).
Proof.
  apply (get_node_on_built_tree pinus_nodes pinus_names pinus pinus [100; 7]).
  - vm_compute. reflexivity.
  - apply (init_state pinus_nodes pinus_names). vm_compute. reflexivity.
Defined.

(** ** What construction builds *)

(** The leaves and the rank index after one line of the node source. *)
Definition leaves_after (tax_id tax_parent : Z) (t : gmap Z Node) (lv : gset Z) : gset Z :=
  let lv1 := match t !! tax_id with Some _ => lv | None => {[tax_id]} ∪ lv end in
  match t !! tax_parent with
  | Some _ => lv1 ∖ {[tax_parent]}
  | None => if decide (tax_parent = tax_id) then lv1 ∖ {[tax_parent]} else lv1
  end.

Definition byranks_after (tax_id : Z) (tax_rank : string) (br : gmap string (gset Z))
  : gmap string (gset Z) :=
  match br !! tax_rank with
  | Some ids => <[tax_rank := {[tax_id]} ∪ ids]> br
  | None => <[tax_rank := {[tax_id]}]> br
  end.

Lemma read_node_run taxid2name u tax_id tax_parent tax_rank s s' :
  read_node taxid2name u (tax_id, tax_parent, tax_rank) s = (Ok tt, s') →
  ∃ entry, taxid2name !! tax_id = Some entry
    ∧ taxonomy s' = link_parent (taxid2name !! tax_parent) tax_id tax_parent
                      (upsert_node entry tax_id tax_parent tax_rank (taxonomy s))
    ∧ leaves s' = leaves_after tax_id tax_parent (taxonomy s) (leaves s)
    ∧ byranks s' = byranks_after tax_id tax_rank (byranks s).
Proof.
  unfold read_node. run.
  destruct (taxid2name !! tax_id) as [entry |] eqn:He; [| done].
  intros Hrun. exists entry. split; [done |]. revert Hrun.
  cbn zeta. unfold upsert_node, link_parent, leaves_after, byranks_after.
  destruct (decide (tax_parent = tax_id)) as [-> | Hne];
    destruct (taxonomy s !! tax_id) as [node |] eqn:Hn; cbn; rewrite ?Hn; cbn;
    rewrite ?lookup_insert_eq, ?(lookup_insert_ne _ tax_id tax_parent) by done; cbn.
  - case_bool_decide; cbn; destruct (byranks s !! tax_rank); cbn;
      intros [= <-]; cbn; (split_and!; try done); set_solver.
  - case_bool_decide; cbn; destruct (byranks s !! tax_rank); cbn;
      intros [= <-]; cbn; (split_and!; try done); set_solver.
  - destruct (taxonomy s !! tax_parent) as [pnode |] eqn:Hp; cbn.
    + case_bool_decide; cbn; destruct (byranks s !! tax_rank); cbn;
        intros [= <-]; cbn; (split_and!; try done); set_solver.
    + destruct (taxid2name !! tax_parent) as [pe |] eqn:Hpe; cbn; [| done].
      destruct (byranks s !! tax_rank); cbn;
        intros [= <-]; cbn; (split_and!; done).
  - destruct (taxonomy s !! tax_parent) as [pnode |] eqn:Hp; cbn.
    + case_bool_decide; cbn; destruct (byranks s !! tax_rank); cbn;
        intros [= <-]; cbn; (split_and!; try done); set_solver.
    + destruct (taxid2name !! tax_parent) as [pe |] eqn:Hpe; cbn; [| done].
      destruct (byranks s !! tax_rank); cbn;
        intros [= <-]; cbn; (split_and!; done).
Qed.

(** The last record line of [k] in the node source. *)
Definition last_line (nodes : list tax_line) (k : Z) : option tax_line :=
  last (filter (λ l : tax_line, l.1.1 = k) nodes).

Lemma last_line_snoc pre tax_id tax_parent tax_rank k :
  last_line (pre ++ [(tax_id, tax_parent, tax_rank)]) k
  = if decide (tax_id = k) then Some (tax_id, tax_parent, tax_rank) else last_line pre k.
Proof.
  unfold last_line. rewrite filter_app, filter_cons, filter_nil. cbn [fst].
  destruct (decide (tax_id = k)); [by rewrite last_snoc | by rewrite app_nil_r].
Qed.

Lemma last_line_no_line pre k : k ∉ ids pre → last_line pre k = None.
Proof.
  unfold last_line, ids. induction pre as [| l pre IH]; [done |].
  rewrite fmap_cons, not_elem_of_cons. intros [Hl Hpre].
  rewrite filter_cons, decide_False by done. auto.
Qed.

Lemma last_line_some pre k : k ∈ ids pre → ∃ p r, last_line pre k = Some (k, p, r).
Proof.
  induction pre as [| [[i p] r] pre IH] using rev_ind; [by intros ?%elem_of_nil |].
  unfold ids. rewrite fmap_app, elem_of_app. cbn. rewrite list_elem_of_singleton.
  rewrite last_line_snoc. intros [Hk | ->].
  - case_decide; [subst; eauto | by apply IH].
  - rewrite decide_True by done. eauto.
Qed.

Lemma last_line_elem_of pre k l : last_line pre k = Some l → l ∈ pre ∧ l.1.1 = k.
Proof.
  unfold last_line. rewrite last_lookup. intros Hl.
  apply list_elem_of_lookup_2, list_elem_of_filter in Hl. tauto.
Qed.

(** What the nodes, the leaves and the rank index hold after the lines
    [pre] of the node source, given the names read before. *)
Record nodes_fields (taxid2name : gmap Z NameEntry) (pre : list tax_line)
    (s : TaxonomyTree) : Prop := {
  nf_line : ∀ k node, taxonomy s !! k = Some node →
            parent node = (λ l : tax_line, l.1.2) <$> last_line pre k
            ∧ rank node = (λ l : tax_line, l.2) <$> last_line pre k;
  nf_name : ∀ k node, taxonomy s !! k = Some node →
            name node = taxid2name !! k ≫= scientific_name
            ∧ genbank_common_name node = taxid2name !! k ≫= common_name;
  nf_leaves : ∀ k, k ∈ leaves s ↔ k ∈ ids pre ∧ k ∉ parents pre;
  nf_byranks : ∀ r k, (∃ ids, byranks s !! r = Some ids ∧ k ∈ ids)
                      ↔ ∃ p, (k, p, r) ∈ pre
}.

Lemma nodes_fields_empty taxid2name : nodes_fields taxid2name [] empty_tree.
Proof.
  split; cbn.
  - intros k node Hk. by rewrite lookup_empty in Hk.
  - intros k node Hk. by rewrite lookup_empty in Hk.
  - intros k. split; [set_solver |]. intros [Hk _]. by apply elem_of_nil in Hk.
  - intros r k. split.
    + intros (? & Hr & _). by rewrite lookup_empty in Hr.
    + intros [p Hp]. by apply elem_of_nil in Hp.
Qed.

Lemma ids_snoc pre tax_id tax_parent tax_rank k :
  k ∈ ids (pre ++ [(tax_id, tax_parent, tax_rank)]) ↔ k ∈ ids pre ∨ k = tax_id.
Proof.
  unfold ids. rewrite fmap_app, elem_of_app. cbn. by rewrite list_elem_of_singleton.
Qed.

Lemma parents_snoc pre tax_id tax_parent tax_rank k :
  k ∈ parents (pre ++ [(tax_id, tax_parent, tax_rank)]) ↔ k ∈ parents pre ∨ k = tax_parent.
Proof.
  unfold parents. rewrite fmap_app, elem_of_app. cbn. by rewrite list_elem_of_singleton.
Qed.

Lemma nodes_inv_dom pre s k :
  nodes_inv pre s → is_Some (taxonomy s !! k) ↔ k ∈ ids pre ∨ k ∈ parents pre.
Proof.
  intros Hinv. split; [apply (ni_dom _ _ Hinv) |].
  intros [Hk | Hk]; [| by apply (ni_parents _ _ Hinv)].
  destruct (ni_own _ _ Hinv k Hk) as (node & -> & _). eauto.
Qed.

Lemma nodes_fields_step taxid2name pre u line s s' :
  nodes_inv pre s → nodes_fields taxid2name pre s →
  read_node taxid2name u line s = (Ok tt, s') →
  nodes_fields taxid2name (pre ++ [line]) s'.
Proof.
  intros Hinv [Hline Hname Hleaves Hranks] Hrun. destruct line as [[i p] r].
  apply read_node_run in Hrun as (entry & He & Ht & Hlv & Hbr).
  pose proof (nodes_inv_dom pre s i Hinv) as Hdomi.
  pose proof (nodes_inv_dom pre s p Hinv) as Hdomp.
  assert (Hlk : ∀ k, taxonomy s' !! k
            = if decide (k = p)
              then Some (linked (taxid2name !! p) i p
                           (upsert_node entry i p r (taxonomy s)))
              else if decide (k = i) then Some (upserted entry i p r (taxonomy s))
              else taxonomy s !! k).
  { intros k. rewrite Ht, lookup_link. case_decide; [done |]. by rewrite lookup_upsert. }
  split.
  - intros k node. rewrite Hlk, last_line_snoc.
    destruct (decide (k = p)) as [-> | Hkp].
    + intros [= <-]. unfold linked. rewrite lookup_upsert.
      destruct (decide (p = i)) as [-> | Hpi].
      * rewrite decide_True by done. unfold upserted.
        by destruct (taxonomy s !! i).
      * rewrite decide_False by done.
        destruct (taxonomy s !! p) as [pnode |] eqn:Hp; cbn.
        -- by apply Hline.
        -- rewrite last_line_no_line; [done |]. intros Hin.
           destruct Hdomp as [_ Hdomp]. destruct Hdomp as [? ?]; [by left | congruence].
    + destruct (decide (k = i)) as [-> | Hki].
      * intros [= <-]. rewrite decide_True by done. unfold upserted.
        by destruct (taxonomy s !! i).
      * rewrite decide_False by done. apply Hline.
  - intros k node. rewrite Hlk.
    destruct (decide (k = p)) as [-> | Hkp].
    + intros [= <-]. unfold linked. rewrite lookup_upsert.
      destruct (decide (p = i)) as [-> | Hpi].
      * unfold upserted. destruct (taxonomy s !! i) as [inode |] eqn:Hi; cbn.
        -- by apply Hname.
        -- by rewrite He.
      * destruct (taxonomy s !! p) as [pnode |] eqn:Hp; cbn; [by apply Hname | done].
    + destruct (decide (k = i)) as [-> | Hki]; [| apply Hname].
      intros [= <-]. unfold upserted. destruct (taxonomy s !! i) as [inode |] eqn:Hi; cbn.
      * by apply Hname.
      * by rewrite He.
  - intros k. rewrite Hlv, ids_snoc, parents_snoc. unfold leaves_after.
    pose proof (Hleaves k) as Hk. pose proof (Hleaves p) as Hp.
    destruct (taxonomy s !! i) as [inode |] eqn:Hi;
      destruct (taxonomy s !! p) as [pnode |] eqn:Hpn;
      try case_decide;
      rewrite ?elem_of_difference, ?elem_of_union, ?elem_of_singleton, ?Hk;
      rewrite <- ?not_eq_None_Some in Hdomi, Hdomp;
      naive_solver.
  - intros r' k. rewrite Hbr. unfold byranks_after.
    pose proof (Hranks r' k) as Hk.
    assert (Hrhs : (∃ p0, (k, p0, r') ∈ pre ++ [(i, p, r)])
                   ↔ (∃ p0, (k, p0, r') ∈ pre) ∨ (k = i ∧ r' = r)).
    { split.
      - intros [p0 Hp0]. apply elem_of_app in Hp0 as [? | Hp0]; [left; eauto |].
        apply list_elem_of_singleton in Hp0. simplify_eq. by right.
      - intros [[p0 ?] | [-> ->]]; [exists p0 | exists p]; apply elem_of_app;
          [by left | right; by apply list_elem_of_singleton]. }
    rewrite Hrhs, <- Hk. clear Hrhs Hk.
    destruct (byranks s !! r) as [ids0 |] eqn:Hr;
      (destruct (decide (r' = r)) as [-> | Hne];
       [rewrite lookup_insert_eq, ?Hr | rewrite lookup_insert_ne by done; naive_solver]).
    + split.
      * intros (? & [= <-] & [->%elem_of_singleton | ?]%elem_of_union); eauto.
      * intros [(? & [= <-] & ?) | [-> _]]; eexists; (split; [done |]); set_solver.
    + split.
      * intros (? & [= <-] & ->%elem_of_singleton); eauto.
      * intros [(? & [=] & ?) | [-> _]]. eexists; (split; [done |]); set_solver.
Qed.

(** ** The names the nodes carry *)

(** Every name [taxid2name] holds was read from a line of its kind. *)
Definition names_from (pre : list name_line) (taxid2name : gmap Z NameEntry) : Prop :=
  ∀ tax_id n,
    (taxid2name !! tax_id ≫= scientific_name = Some n
       → (tax_id, n, "scientific name") ∈ pre)
    ∧ (taxid2name !! tax_id ≫= common_name = Some n
       → (tax_id, n, "genbank common name") ∈ pre).

Lemma names_from_mono pre line t : names_from pre t → names_from (pre ++ [line]) t.
Proof.
  intros H k n. destruct (H k n) as [H1 H2].
  split; intros ?; apply elem_of_app; left; auto.
Qed.

Lemma read_name_from pre taxid2name line taxid2name' :
  names_from pre taxid2name →
  read_name taxid2name line = Ok taxid2name' →
  names_from (pre ++ [line]) taxid2name'.
Proof.
  intros Hfrom. destruct line as [[i n] ty]. unfold read_name.
  case_bool_decide as Hw; [| intros [= <-]; by apply names_from_mono].
  set (t2 := match taxid2name !! i with
             | Some _ => taxid2name
             | None => <[i := mkNameEntry None None]> taxid2name
             end).
  assert (Ht2 : ∀ j, t2 !! j ≫= scientific_name = taxid2name !! j ≫= scientific_name
                     ∧ t2 !! j ≫= common_name = taxid2name !! j ≫= common_name).
  { intros j. subst t2. destruct (taxid2name !! i) eqn:Hi; [done |].
    destruct (decide (i = j)) as [<- | Hne].
    - by rewrite lookup_insert_eq, Hi.
    - by rewrite lookup_insert_ne. }
  destruct (t2 !! i) as [entry |] eqn:Hentry; [| done].
  pose proof (Ht2 i) as [Hsi Hci]. rewrite Hentry in Hsi, Hci. cbn in Hsi, Hci.
  destruct (decide (ty = "scientific name")) as [-> | Hns].
  - destruct (scientific_name entry) as [old |] eqn:Hold; [done |].
    intros [= <-]. intros j m. destruct (Hfrom j m) as [H1 H2]. destruct (Ht2 j) as [E1 E2].
    destruct (decide (i = j)) as [<- | Hne].
    + rewrite lookup_insert_eq. cbn. split.
      * intros [= <-]. apply elem_of_app. right. by apply list_elem_of_singleton.
      * rewrite Hci. intros ?. apply elem_of_app. left. auto.
    + rewrite lookup_insert_ne by done. rewrite E1, E2.
      split; intros ?; apply elem_of_app; left; auto.
  - destruct (decide (ty = "genbank common name")) as [-> | Hnc]; [| done].
    destruct (common_name entry) as [old |] eqn:Hold; [done |].
    intros [= <-]. intros j m. destruct (Hfrom j m) as [H1 H2]. destruct (Ht2 j) as [E1 E2].
    destruct (decide (i = j)) as [<- | Hne].
    + rewrite lookup_insert_eq. cbn. split.
      * rewrite Hsi. intros ?. apply elem_of_app. left. auto.
      * intros [= <-]. apply elem_of_app. right. by apply list_elem_of_singleton.
    + rewrite lookup_insert_ne by done. rewrite E1, E2.
      split; intros ?; apply elem_of_app; left; auto.
Qed.

Lemma read_names_from lines : ∀ pre taxid2name taxid2name',
  names_from pre taxid2name →
  read_names lines taxid2name = Ok taxid2name' →
  names_from (pre ++ lines) taxid2name'.
Proof.
  induction lines as [| line lines IH]; intros pre t t' Hfrom; cbn [read_names].
  - intros [= <-]. by rewrite app_nil_r.
  - destruct (read_name t line) as [t1 | e |] eqn:Hline; [| done | done].
    intros Hrest. rewrite (assoc_L _ pre [line] lines : pre ++ line :: lines = (pre ++ [line]) ++ lines).
    eapply IH; [| exact Hrest]. by eapply read_name_from.
Qed.

(** Without a duplicate, a name source has at most one name of each
    wanted kind for an identifier. *)
Lemma unique_names names tax_id n n' name_type :
  ¬ duplicate_name names →
  name_type ∈ wanted_name_types →
  (tax_id, n, name_type) ∈ names → (tax_id, n', name_type) ∈ names → n = n'.
Proof.
  intros Hnd Hw Hn Hn'. destruct (decide (n = n')) as [| Hne]; [done |]. exfalso.
  apply list_elem_of_split in Hn as (l1 & l2 & ->).
  apply elem_of_app in Hn' as [Hn' | Hn'].
  - apply Hnd. exists l1, l2, tax_id, n, name_type. split_and!; [done | done |]. by exists n'.
  - apply elem_of_cons in Hn' as [Hn' | Hn']; [congruence |].
    apply list_elem_of_split in Hn' as (m1 & m2 & ->).
    apply Hnd. exists (l1 ++ (tax_id, n, name_type) :: m1), m2, tax_id, n', name_type.
    split_and!; [by rewrite <- app_assoc | done |].
    exists n. apply elem_of_app. right. apply list_elem_of_here.
Qed.

(** What reading the names gives: the entry of an identifier holds
    exactly the names of the lines of that identifier. *)
Lemma read_names_values names taxid2name :
  read_names names ∅ = Ok taxid2name →
  ∀ tax_id n,
    (taxid2name !! tax_id ≫= scientific_name = Some n
       ↔ (tax_id, n, "scientific name") ∈ names)
    ∧ (taxid2name !! tax_id ≫= common_name = Some n
       ↔ (tax_id, n, "genbank common name") ∈ names).
Proof.
  intros Hok k n.
  assert (Hfrom : names_from names taxid2name).
  { apply (read_names_from names [] ∅ taxid2name); [| done].
    intros j m. rewrite lookup_empty. done. }
  assert (Hnd : ¬ duplicate_name names).
  { rewrite <- read_names_raises. by rewrite Hok. }
  destruct (read_names_spec names [] ∅ names_inv_nil)
    as [(t & Hok' & Hinv & _) | (Hr & _)]; [| congruence].
  rewrite Hok in Hok'. injection Hok' as <-. cbn in Hinv.
  destruct (Hinv k) as [Hsci Hcom]. destruct (Hfrom k n) as [Hfs Hfc].
  split; (split; [done |]); intros Hline.
  - destruct Hsci as [_ Hsci]. destruct Hsci as [m Hm]; [by exists n |].
    rewrite Hm. f_equal. destruct (Hfrom k m) as [Hm' _].
    eapply (unique_names names k m n "scientific name"); auto.
    apply wanted_cases. by left.
  - destruct Hcom as [_ Hcom]. destruct Hcom as [m Hm]; [by exists n |].
    rewrite Hm. f_equal. destruct (Hfrom k m) as [_ Hm'].
    eapply (unique_names names k m n "genbank common name"); auto.
    apply wanted_cases. by right.
Qed.

(** ** The built object, read off the two sources *)

Lemma adjust_root_frame s v s' :
  adjust_root s = (Ok v, s') → byranks s' = byranks s ∧ leaves s' = leaves s.
Proof.
  unfold adjust_root. run.
  destruct (taxonomy s !! 1) as [root |]; cbn; [| done].
  destruct (py_remove 1 (children root)) as [rc |]; cbn; [| done].
  by intros [= <- <-].
Qed.

Lemma init_fields nodes names self :
  TaxonomyTree_init nodes names = Ok self →
  ∃ taxid2name s1 root root_children,
    read_names names ∅ = Ok taxid2name
    ∧ nodes_inv nodes s1
    ∧ nodes_fields taxid2name nodes s1
    ∧ taxonomy s1 !! 1 = Some root
    ∧ py_remove 1 (children root) = Some root_children
    ∧ taxonomy self = <[1 := mkNode (name root) (genbank_common_name root) (rank root)
                                    None root_children]> (taxonomy s1)
    ∧ byranks self = byranks s1 ∧ leaves self = leaves s1.
Proof.
  unfold TaxonomyTree_init, construct_tree. unfold bind at 1. unfold lift.
  destruct (read_names names ∅) as [taxid2name | e |] eqn:Hnames; try done.
  unfold bind.
  destruct (for_each (read_node taxid2name) nodes tt empty_tree)
    as [[[] | e |] s1] eqn:Hnodes; try done.
  destruct (adjust_root s1) as [[[] | e |] s2] eqn:Hadj; try done.
  intros [= <-].
  assert (Hinv : nodes_inv ([] ++ nodes) s1 ∧ nodes_fields taxid2name ([] ++ nodes) s1).
  { eapply (for_each_inv (read_node taxid2name)
              (λ pre s, nodes_inv pre s ∧ nodes_fields taxid2name pre s));
      [| split; [exact nodes_inv_empty | apply nodes_fields_empty] | exact Hnodes].
    intros pre acc x s acc' s' [HI HF] Hb. destruct acc'. split.
    - by eapply nodes_inv_step.
    - by eapply nodes_fields_step. }
  cbn in Hinv. destruct Hinv as [HI HF].
  destruct (adjust_root_frame _ _ _ Hadj) as [Hbr Hlv].
  apply adjust_root_spec in Hadj as (root & rc & Hroot & Hrc & Ht & _).
  exists taxid2name, s1, root, rc. done.
Qed.

Lemma children_of_nil pre k : children_of pre k = [] ↔ k ∉ parents pre.
Proof.
  split; [| apply children_of_not_parent].
  unfold children_of, parents. intros Hnil Hk.
  apply list_elem_of_fmap in Hk as (l & -> & Hl).
  assert (Hin : l ∈ filter (λ l0 : tax_line, l0.1.2 = l.1.2) pre)
    by (by apply list_elem_of_filter).
  apply fmap_nil_inv in Hnil. rewrite Hnil in Hin. by apply elem_of_nil in Hin.
Qed.

Lemma py_remove_elem_of x l l' : py_remove x l = Some l' → x ∈ l.
Proof.
  revert l'. induction l as [| y l IH]; intros l'; cbn [py_remove]; [done |].
  case_decide; [subst; intros _; apply list_elem_of_here |].
  destruct (py_remove x l) as [l0 |]; [| done]. intros _.
  apply list_elem_of_further. by eapply IH.
Qed.

(** X10. After a successful construction, the scientific name of a node
    is [n] exactly when the name source has a "scientific name" line
    [(k, n)] for its identifier, and its genbank common name is [n]
    exactly when the name source has a "genbank common name" line
    [(k, n)]; a node without such a line has [None]. *)
Theorem node_names_from_source (nodes : list tax_line) (names : list name_line)
    (built_tree : TaxonomyTree) (k : Z) (node : Node) :
  TaxonomyTree_init nodes names = Ok built_tree →
  taxonomy built_tree !! k = Some node →
  ∀ n, (name node = Some n ↔ (k, n, "scientific name") ∈ names)
       ∧ (genbank_common_name node = Some n ↔ (k, n, "genbank common name") ∈ names).
Proof.
  intros Hinit Hk n.
  apply init_fields in Hinit
    as (taxid2name & s1 & root & rc & Hnames & HI & HF & Hroot & Hrc & Ht & _).
  assert (∃ node1, taxonomy s1 !! k = Some node1 ∧ name node = name node1
                   ∧ genbank_common_name node = genbank_common_name node1)
    as (node1 & Hk1 & -> & ->).
  { rewrite Ht in Hk. destruct (decide (k = 1)) as [-> | Hne].
    - rewrite lookup_insert_eq in Hk. injection Hk as <-. eauto.
    - rewrite lookup_insert_ne in Hk by done. eauto. }
  destruct (nf_name _ _ _ HF k node1 Hk1) as [-> ->].
  apply (read_names_values names taxid2name Hnames).
Qed.

Lemma node_names_from_source_witness :
  (name (mkNode (Some "Pinus taeda") (Some "loblolly pine") (Some "species")
           (Some 10) []) = Some "Pinus taeda"
   ↔ (100, "Pinus taeda", "scientific name") ∈ pinus_names)
  ∧ (genbank_common_name (mkNode (Some "Pinus taeda") (Some "loblolly pine")
                            (Some "species") (Some 10) []) = Some "Pinus taeda"
     ↔ (100, "Pinus taeda", "genbank common name") ∈ pinus_names).
Proof.
  apply (node_names_from_source pinus_nodes pinus_names pinus 100).
  - vm_compute. reflexivity.
  - vm_compute. reflexivity.
Defined.

(** The nodes and their links, read off the node source. *)
Lemma built_links (nodes : list tax_line) (names : list name_line)
    (built_tree : TaxonomyTree) :
  TaxonomyTree_init nodes names = Ok built_tree →
  (∀ k, is_Some (taxonomy built_tree !! k) ↔ k ∈ ids nodes ∨ k ∈ parents nodes)
  ∧ ∀ k node, taxonomy built_tree !! k = Some node →
      rank node = (λ l : tax_line, l.2) <$> last_line nodes k
      ∧ parent node = (if decide (k = 1) then None
                       else (λ l : tax_line, l.1.2) <$> last_line nodes k)
      ∧ (if decide (k = 1)
         then py_remove 1 (children_of nodes 1) = Some (children node)
         else children node = children_of nodes k).
Proof.
  intros Hinit.
  apply init_fields in Hinit
    as (taxid2name & s1 & root & rc & Hnames & HI & HF & Hroot & Hrc & Ht & _).
  split.
  - intros k. rewrite <- (nodes_inv_dom nodes s1 k HI), Ht.
    destruct (decide (k = 1)) as [-> | Hne].
    + rewrite lookup_insert_eq, Hroot. split; eauto.
    + by rewrite lookup_insert_ne.
  - intros k node. rewrite Ht. destruct (decide (k = 1)) as [-> | Hne].
    + rewrite lookup_insert_eq. intros [= <-]. cbn.
      destruct (nf_line _ _ _ HF 1 root Hroot) as [_ Hrank].
      rewrite <- (ni_children _ _ HI 1 root Hroot). done.
    + rewrite lookup_insert_ne by done. intros Hk.
      destruct (nf_line _ _ _ HF k node Hk) as [Hparent Hrank].
      split_and!; [done | done |]. by apply (ni_children _ _ HI).
Qed.


(** X11. After a successful construction, the nodes of the taxonomy are
    exactly the identifiers the node source mentions, as a record's own
    identifier or as a parent. A node's rank and parent are those of the
    last record line of its identifier ([None] when it has no line, and
    the root's parent is [None]); its children are the identifiers of
    the record lines that name it as parent, in line order, for the root
    without the first occurrence of the root itself. *)
Theorem node_links_from_source (nodes : list tax_line) (names : list name_line)
    (built_tree : TaxonomyTree) :
  TaxonomyTree_init nodes names = Ok built_tree →
  (∀ k, is_Some (taxonomy built_tree !! k) ↔ k ∈ ids nodes ∨ k ∈ parents nodes)
  ∧ ∀ k node, taxonomy built_tree !! k = Some node →
      rank node = (λ l : tax_line, l.2) <$> last_line nodes k
      ∧ parent node = (if decide (k = 1) then None
                       else (λ l : tax_line, l.1.2) <$> last_line nodes k)
      ∧ (if decide (k = 1)
         then py_remove 1 (children_of nodes 1) = Some (children node)
         else children node = children_of nodes k).
Proof. apply built_links. Qed.

Lemma node_links_from_source_witness :
  (∀ k, is_Some (taxonomy pinus !! k) ↔ k ∈ ids pinus_nodes ∨ k ∈ parents pinus_nodes)
  ∧ ∀ k node, taxonomy pinus !! k = Some node →
      rank node = (λ l : tax_line, l.2) <$> last_line pinus_nodes k
      ∧ parent node = (if decide (k = 1) then None
                       else (λ l : tax_line, l.1.2) <$> last_line pinus_nodes k)
      ∧ (if decide (k = 1)
         then py_remove 1 (children_of pinus_nodes 1) = Some (children node)
         else children node = children_of pinus_nodes k).
Proof.
  apply (node_links_from_source pinus_nodes pinus_names pinus).
  vm_compute. reflexivity.
Defined.

(** X12. After a successful construction, [leaves] holds exactly the
    identifiers that have a record line of their own and are the parent
    of no record line: the nodes other than the root that have no
    children. *)
Theorem leaves_from_source (nodes : list tax_line) (names : list name_line)
    (built_tree : TaxonomyTree) (k : Z) :
  TaxonomyTree_init nodes names = Ok built_tree →
  (k ∈ leaves built_tree ↔ k ∈ ids nodes ∧ k ∉ parents nodes)
  ∧ (k ∈ leaves built_tree
     ↔ k ≠ 1 ∧ ∃ node, taxonomy built_tree !! k = Some node ∧ children node = []).
Proof.
  intros Hinit.
  destruct (built_links nodes names built_tree Hinit) as [Hdom Hlinks].
  assert (Hch : ∀ k node, taxonomy built_tree !! k = Some node → k ≠ 1 →
                  children node = children_of nodes k).
  { intros j node Hj Hne. destruct (Hlinks j node Hj) as (_ & _ & Hc).
    by rewrite decide_False in Hc. }
  apply init_fields in Hinit
    as (taxid2name & s1 & root & rc & Hnames & HI & HF & Hroot & Hrc & Ht & _ & Hlv).
  assert (Hleaf : k ∈ leaves built_tree ↔ k ∈ ids nodes ∧ k ∉ parents nodes).
  { rewrite Hlv. apply (nf_leaves _ _ _ HF). }
  split; [done |]. rewrite Hleaf.
  assert (H1 : 1 ∈ parents nodes).
  { apply dec_stable. intros Hno. apply children_of_nil in Hno.
    rewrite (ni_children _ _ HI 1 root Hroot), Hno in Hrc. done. }
  split.
  - intros [Hid Hpar]. split; [by intros -> |].
    destruct (proj2 (Hdom k)) as [node Hnode]; [by left |].
    exists node. split; [done |].
    assert (Hne : k ≠ 1) by (by intros ->).
    rewrite (Hch k node Hnode Hne). by apply children_of_nil.
  - intros (Hne & node & Hnode & Hnil).
    rewrite (Hch k node Hnode Hne) in Hnil. apply children_of_nil in Hnil.
    split; [| done]. destruct (proj1 (Hdom k)); [eauto | done | done].
Qed.

Lemma leaves_from_source_witness :
  (100 ∈ leaves pinus ↔ 100 ∈ ids pinus_nodes ∧ 100 ∉ parents pinus_nodes)
  ∧ (100 ∈ leaves pinus
     ↔ 100 ≠ 1 ∧ ∃ node, taxonomy pinus !! 100 = Some node ∧ children node = []).
Proof.
  apply (leaves_from_source pinus_nodes pinus_names pinus 100).
  vm_compute. reflexivity.
Defined.

(** X13. After a successful construction, [byranks] maps a rank to
    exactly the identifiers that have a record line with that rank. *)
Theorem byranks_from_source (nodes : list tax_line) (names : list name_line)
    (built_tree : TaxonomyTree) (r : string) (k : Z) :
  TaxonomyTree_init nodes names = Ok built_tree →
  (∃ ranked, byranks built_tree !! r = Some ranked ∧ k ∈ ranked)
  ↔ ∃ p, (k, p, r) ∈ nodes.
Proof.
  intros Hinit.
  apply init_fields in Hinit
    as (taxid2name & s1 & root & rc & Hnames & HI & HF & Hroot & Hrc & Ht & Hbr & _).
  rewrite Hbr. apply (nf_byranks _ _ _ HF).
Qed.

Lemma byranks_from_source_witness :
  (∃ ranked, byranks pinus !! "species" = Some ranked ∧ 101 ∈ ranked)
  ↔ ∃ p, (101, p, "species") ∈ pinus_nodes.
Proof.
  apply (byranks_from_source pinus_nodes pinus_names pinus "species" 101).
  vm_compute. reflexivity.
Defined.

(** ** When construction succeeds *)

(** An identifier has an entry in [taxid2name] exactly when the name
    source has a line of a wanted kind for it. *)
Definition named (names : list name_line) (k : Z) : Prop :=
  ∃ n name_type, (k, n, name_type) ∈ names ∧ name_type ∈ wanted_name_types.

Lemma named_snoc pre line k :
  named (pre ++ [line]) k
  ↔ named pre k ∨ (line.1.1 = k ∧ line.2 ∈ wanted_name_types).
Proof.
  unfold named. split.
  - intros (n & ty & Hin & Hw). apply elem_of_app in Hin as [Hin | Hin]; [left; eauto |].
    apply list_elem_of_singleton in Hin as <-. by right.
  - intros [(n & ty & Hin & Hw) | [<- Hw]].
    + exists n, ty. split; [| done]. apply elem_of_app. by left.
    + destruct line as [[i n] ty]. exists n, ty. split; [| done].
      apply elem_of_app. right. by apply list_elem_of_singleton.
Qed.

Lemma read_name_dom pre taxid2name line taxid2name' :
  (∀ k, is_Some (taxid2name !! k) ↔ named pre k) →
  read_name taxid2name line = Ok taxid2name' →
  ∀ k, is_Some (taxid2name' !! k) ↔ named (pre ++ [line]) k.
Proof.
  intros Hdom. destruct line as [[i n] ty]. unfold read_name.
  case_bool_decide as Hw.
  2:{ intros [= <-] k. rewrite named_snoc, Hdom. cbn. naive_solver. }
  set (t2 := match taxid2name !! i with
             | Some _ => taxid2name
             | None => <[i := mkNameEntry None None]> taxid2name
             end).
  assert (Ht2 : ∀ k, is_Some (t2 !! k) ↔ is_Some (taxid2name !! k) ∨ k = i).
  { intros k. subst t2. destruct (taxid2name !! i) eqn:Hi.
    - split; [by left |]. intros [? | ->]; [done | by rewrite Hi].
    - destruct (decide (k = i)) as [-> | Hne].
      + rewrite lookup_insert_eq. naive_solver.
      + rewrite lookup_insert_ne by done. naive_solver. }
  assert (Hins : ∀ e k, is_Some (<[i := e]> t2 !! k) ↔ named (pre ++ [(i, n, ty)]) k).
  { intros e k. rewrite named_snoc. cbn. rewrite <- Hdom.
    destruct (decide (k = i)) as [-> | Hne].
    - rewrite lookup_insert_eq. naive_solver.
    - rewrite lookup_insert_ne by done. rewrite Ht2. naive_solver. }
  destruct (t2 !! i) as [entry |] eqn:Hentry; [| done].
  destruct (decide (ty = "scientific name")) as [-> | Hns].
  - destruct (scientific_name entry); [done |]. intros [= <-]. apply Hins.
  - destruct (decide (ty = "genbank common name")) as [-> | Hnc]; [| done].
    destruct (common_name entry); [done |]. intros [= <-]. apply Hins.
Qed.

Lemma read_names_dom_from lines : ∀ pre taxid2name taxid2name',
  (∀ k, is_Some (taxid2name !! k) ↔ named pre k) →
  read_names lines taxid2name = Ok taxid2name' →
  ∀ k, is_Some (taxid2name' !! k) ↔ named (pre ++ lines) k.
Proof.
  induction lines as [| line lines IH]; intros pre t t' Hdom; cbn [read_names].
  - intros [= <-]. by rewrite app_nil_r.
  - destruct (read_name t line) as [t1 | e |] eqn:Hline; [| done | done].
    intros Hrest.
    rewrite (assoc_L _ pre [line] lines : pre ++ line :: lines = (pre ++ [line]) ++ lines).
    eapply IH; [| exact Hrest]. by eapply read_name_dom.
Qed.

Lemma read_names_dom names taxid2name :
  read_names names ∅ = Ok taxid2name →
  ∀ k, is_Some (taxid2name !! k) ↔ named names k.
Proof.
  intros Hok. apply (read_names_dom_from names [] ∅ taxid2name); [| done].
  intros k. rewrite lookup_empty. split; [by intros [? ?] |].
  intros (? & ? & Hin & _). by apply elem_of_nil in Hin.
Qed.

(** With every identifier named, the loop over the node source ends. *)
Lemma read_nodes_named taxid2name nodes : ∀ s,
  (∀ k, k ∈ ids nodes ∨ k ∈ parents nodes → is_Some (taxid2name !! k)) →
  ∃ s', for_each (read_node taxid2name) nodes tt s = (Ok tt, s').
Proof.
  induction nodes as [| [[i p] r] nodes IH]; intros s Hnamed; [by eexists |].
  cbn [for_each]. unfold bind.
  pose proof (read_node_spec taxid2name tt i p r s) as Hspec.
  destruct (Hnamed i) as [entry Hi]; [left; apply list_elem_of_here |].
  rewrite Hi in Hspec. cbn zeta in Hspec.
  rewrite bool_decide_eq_true_2 in Hspec.
  2:{ right. apply Hnamed. right. apply list_elem_of_here. }
  destruct Hspec as (s1 & -> & _). apply IH.
  intros k [Hk | Hk]; apply Hnamed; [left | right]; by apply list_elem_of_further.
Qed.

Lemma py_remove_is_Some x l : is_Some (py_remove x l) ↔ x ∈ l.
Proof.
  split; [intros [l' Hl']; by eapply py_remove_elem_of |].
  induction l as [| y l IH]; [by intros ?%elem_of_nil |]. cbn [py_remove].
  case_decide; [eauto |]. intros [? | Hx]%elem_of_cons; [done |].
  destruct (IH Hx) as [l' ->]. cbn. eauto.
Qed.

Lemma root_line_child nodes : 1 ∈ children_of nodes 1 ↔ ∃ r, (1, 1, r) ∈ nodes.
Proof.
  unfold children_of. rewrite list_elem_of_fmap. split.
  - intros ([[i p] r] & Hi & Hin). apply list_elem_of_filter in Hin as [Hp Hin].
    cbn in *. subst. eauto.
  - intros [r Hr]. exists (1, 1, r). split; [done |]. by apply list_elem_of_filter.
Qed.

(** The run of [__init__], once the names are read and the loop over the
    node source has ended: what is left is the root adjustment. *)
Lemma init_adjust nodes names taxid2name s1 :
  read_names names ∅ = Ok taxid2name →
  for_each (read_node taxid2name) nodes tt empty_tree = (Ok tt, s1) →
  TaxonomyTree_init nodes names
  = match taxonomy s1 !! 1 with
    | None => Raise KeyError
    | Some root =>
      match py_remove 1 (children root) with
      | None => Raise ValueError
      | Some root_children =>
        Ok (mkTree (<[1 := mkNode (name root) (genbank_common_name root) (rank root)
                                  None root_children]> (taxonomy s1))
                   (byranks s1) (leaves s1) (lineages s1) (distances s1) (lca_mappings s1))
      end
    end.
Proof.
  intros Hnames Hnodes.
  unfold TaxonomyTree_init, construct_tree. unfold bind at 1. unfold lift.
  rewrite Hnames. unfold bind at 1. rewrite Hnodes.
  unfold adjust_root. run.
  destruct (taxonomy s1 !! 1) as [root |]; cbn; [| done].
  by destruct (py_remove 1 (children root)).
Qed.

Lemma nodes_phase_inv taxid2name nodes s1 :
  for_each (read_node taxid2name) nodes tt empty_tree = (Ok tt, s1) →
  nodes_inv nodes s1.
Proof.
  intros Hnodes.
  apply (for_each_inv (read_node taxid2name) nodes_inv nodes) with (pre := [])
    in Hnodes; [done | | exact nodes_inv_empty].
  intros pre acc x s acc' s' HP Hb. by eapply nodes_inv_step.
Qed.

(** The name source covers the node source: every identifier of the
    node source, own or parent, has a line of a wanted kind. *)
Definition names_cover (names : list name_line) (nodes : list tax_line) : Prop :=
  ∀ k, k ∈ ids nodes ∨ k ∈ parents nodes → named names k.

(** X14. Construction succeeds exactly when the name source has no
    second name of a kind for an identifier, every identifier of the
    node source (own or parent) has a scientific or genbank common name
    line, and the node source has the root's own line, identifier 1 with
    parent 1. *)
Theorem construction_succeeds_iff (nodes : list tax_line) (names : list name_line) :
  (∃ built_tree, TaxonomyTree_init nodes names = Ok built_tree)
  ↔ ¬ duplicate_name names ∧ names_cover names nodes ∧ ∃ r, (1, 1, r) ∈ nodes.
Proof.
  split.
  - intros [built_tree Hinit].
    pose proof (init_spec _ _ _ Hinit)
      as (taxid2name & s1 & root & rc & Hnames & Hnodes & HI & Hroot & Hrc & _).
    split_and!.
    + rewrite <- read_names_raises. by rewrite Hnames.
    + intros k Hk. apply (read_names_dom names taxid2name Hnames).
      destruct (taxid2name !! k) as [e |] eqn:Hnone; [eauto |].
      destruct (read_nodes_missing_name taxid2name nodes empty_tree) as [s' Hraise].
      * intros j. cbn. rewrite lookup_empty. by intros [? ?].
      * eauto.
      * congruence.
    + apply root_line_child. rewrite <- (ni_children _ _ HI 1 root Hroot).
      by eapply py_remove_elem_of.
  - intros (Hnd & Hcover & Hline).
    destruct (read_names_outcome names) as [[taxid2name Hnames] | Hraise].
    2:{ by apply read_names_raises in Hraise. }
    destruct (read_nodes_named taxid2name nodes empty_tree) as [s1 Hnodes].
    { intros k Hk. apply (read_names_dom names taxid2name Hnames). by apply Hcover. }
    rewrite (init_adjust nodes names taxid2name s1 Hnames Hnodes).
    pose proof (nodes_phase_inv _ _ _ Hnodes) as HI.
    destruct (ni_own _ _ HI 1) as (root & Hroot & _).
    { destruct Hline as [r Hr]. apply (list_elem_of_fmap_2 (λ l : tax_line, l.1.1)) in Hr.
      exact Hr. }
    rewrite Hroot.
    destruct (proj2 (py_remove_is_Some 1 (children root))) as [rc ->]; [| eauto].
    rewrite (ni_children _ _ HI 1 root Hroot). by apply root_line_child.
Qed.

(** X15. A node source without the root's own line (identifier 1 with
    parent 1) cannot be built: with the names in order, construction
    raises [ValueError], from [root_children.remove(1)], when identifier
    1 occurs in the node source, and [KeyError], from
    [self.taxonomy[1]], when it does not (an empty node source, for
    one). *)
Theorem missing_root_line (nodes : list tax_line) (names : list name_line) :
  ¬ duplicate_name names →
  names_cover names nodes →
  (∀ r, (1, 1, r) ∉ nodes) →
  TaxonomyTree_init nodes names
  = if decide (1 ∈ ids nodes ∨ 1 ∈ parents nodes) then Raise ValueError
    else Raise KeyError.
Proof.
  intros Hnd Hcover Hline.
  destruct (read_names_outcome names) as [[taxid2name Hnames] | Hraise].
  2:{ by apply read_names_raises in Hraise. }
  destruct (read_nodes_named taxid2name nodes empty_tree) as [s1 Hnodes].
  { intros k Hk. apply (read_names_dom names taxid2name Hnames). by apply Hcover. }
  rewrite (init_adjust nodes names taxid2name s1 Hnames Hnodes).
  pose proof (nodes_phase_inv _ _ _ Hnodes) as HI.
  pose proof (nodes_inv_dom nodes s1 1 HI) as Hdom.
  destruct (taxonomy s1 !! 1) as [root |] eqn:Hroot.
  - rewrite decide_True by (apply Hdom; eauto).
    destruct (py_remove 1 (children root)) as [rc |] eqn:Hrc; [| done].
    apply py_remove_elem_of in Hrc. rewrite (ni_children _ _ HI 1 root Hroot) in Hrc.
    apply root_line_child in Hrc as [r Hr]. by destruct (Hline r).
  - rewrite decide_False; [done |]. intros Hin. apply Hdom in Hin. by destruct Hin.
Qed.

Lemma missing_root_line_witness :
  TaxonomyTree_init [(5, 1, "species")]
    [(1, "root", "scientific name"); (5, "five", "scientific name")]
  = if decide (1 ∈ ids [(5, 1, "species")] ∨ 1 ∈ parents [(5, 1, "species")])
    then Raise ValueError else Raise KeyError.
Proof.
  apply (missing_root_line [(5, 1, "species")]
           [(1, "root", "scientific name"); (5, "five", "scientific name")]).
  - rewrite <- read_names_raises. vm_compute. discriminate.
  - intros k [Hk | Hk]; vm_compute in Hk.
    + apply list_elem_of_singleton in Hk as ->. exists "five", "scientific name".
      split; [apply list_elem_of_further, list_elem_of_here | apply list_elem_of_here].
    + apply list_elem_of_singleton in Hk as ->. exists "root", "scientific name".
      split; apply list_elem_of_here.
  - intros r Hr. apply list_elem_of_singleton in Hr. discriminate.
Defined.

(** ** A node source with an unnamed identifier *)

(** A loop over two lists in a row. *)
Lemma for_each_app_ok {A B : Type} (body : B → A → M B) (l1 l2 : list A) : ∀ acc s acc1 s1,
  for_each body l1 acc s = (Ok acc1, s1) →
  for_each body (l1 ++ l2) acc s = for_each body l2 acc1 s1.
Proof.
  induction l1 as [| x l1 IH]; intros acc s acc1 s1; cbn [app for_each].
  - unfold ret. by intros [= -> ->].
  - unfold bind. destruct (body acc x s) as [[a | e |] s'] eqn:Hb; [| done | done].
    apply IH.
Qed.

(** The first record line with an identifier, own or parent, that
    [taxid2name] does not hold. *)
Lemma first_unnamed_line (taxid2name : gmap Z NameEntry) (nodes : list tax_line) :
  (∃ k, (k ∈ ids nodes ∨ k ∈ parents nodes) ∧ taxid2name !! k = None) →
  ∃ pre tax_id tax_parent tax_rank post,
    nodes = pre ++ (tax_id, tax_parent, tax_rank) :: post
    ∧ (∀ j, j ∈ ids pre ∨ j ∈ parents pre → is_Some (taxid2name !! j))
    ∧ (taxid2name !! tax_id = None ∨ taxid2name !! tax_parent = None).
Proof.
  induction nodes as [| [[i p] r] nodes IH]; intros (k & Hk & Hnone).
  - unfold ids, parents in Hk. cbn in Hk. rewrite !elem_of_nil in Hk. tauto.
  - destruct (taxid2name !! i) as [ei |] eqn:Hi.
    2:{ exists [], i, p, r, nodes. split_and!; [done | | by left].
        intros j. unfold ids, parents. cbn. rewrite !elem_of_nil. tauto. }
    destruct (taxid2name !! p) as [ep |] eqn:Hp.
    2:{ exists [], i, p, r, nodes. split_and!; [done | | by right].
        intros j. unfold ids, parents. cbn. rewrite !elem_of_nil. tauto. }
    destruct IH as (pre & i' & p' & r' & post & -> & Hpre & Hmiss).
    { exists k. split; [| done]. unfold ids, parents in *. cbn in Hk.
      rewrite !elem_of_cons in Hk. destruct Hk as [[-> | Hk] | [-> | Hk]]; eauto; congruence. }
    exists ((i, p, r) :: pre), i', p', r', post. split_and!; [done | | done].
    intros j. unfold ids, parents in *. cbn. rewrite !elem_of_cons.
    intros [[-> | Hj] | [-> | Hj]]; eauto.
Qed.

(** Where [read_node] raises: at the lookup of the line's own names,
    before anything is written, or at the lookup of the parent's names,
    after the node of the line is written and with the parent still
    absent from the taxonomy. *)
Lemma read_node_unnamed taxid2name u tax_id tax_parent tax_rank s :
  (∀ k, is_Some (taxonomy s !! k) → is_Some (taxid2name !! k)) →
  taxid2name !! tax_id = None ∨ taxid2name !! tax_parent = None →
  ∃ s2 j,
    read_node taxid2name u (tax_id, tax_parent, tax_rank) s = (Raise KeyError, s2)
    ∧ name_get taxid2name j s2 = (Raise KeyError, s2)
    ∧ (j = tax_id ∧ s2 = s
       ∨ j = tax_parent
         ∧ taxonomy s2 !! tax_parent = None
         ∧ ∃ entry, taxid2name !! tax_id = Some entry
                    ∧ taxonomy s2 = upsert_node entry tax_id tax_parent tax_rank (taxonomy s)).
Proof.
  intros Hdom Hmiss. unfold read_node.
  destruct (taxid2name !! tax_id) as [entry |] eqn:Hi.
  2:{ exists s, tax_id. unfold bind at 1. unfold name_get. rewrite Hi.
      split_and!; [done | done | by left]. }
  destruct Hmiss as [? | Hp]; [done |].
  assert (Hne : tax_parent ≠ tax_id) by congruence.
  assert (Hsp : taxonomy s !! tax_parent = None).
  { destruct (taxonomy s !! tax_parent) eqn:Hsp; [| done].
    destruct (Hdom tax_parent) as [? ?]; [eauto | congruence]. }
  unfold upsert_node. run. rewrite Hi, Hp. cbn.
  destruct (taxonomy s !! tax_id) as [node |] eqn:Hn; cbn;
    rewrite lookup_insert_ne by done; rewrite Hsp; cbn;
    eexists _, tax_parent; (split; [reflexivity |]); rewrite Hp;
    (split; [done |]); right; cbn; rewrite lookup_insert_ne by done; eauto.
Qed.

(** C10, as amended. When the name source has no second name of a kind
    for an identifier (reading it completes) and some identifier of the
    node source, own or parent, has no retained name, [construct_tree]
    raises [KeyError] and no object is built.  The error is raised in the
    loop over the node source by a name lookup [taxid2name[j]]: the
    record lines before the first line with an unnamed identifier are
    read completely; on that line [j] is the line's own identifier, and
    nothing has been written for the line, or else its parent, the
    line's node being written and the parent absent from the taxonomy;
    construction stops in that very state, before the root is
    adjusted. *)
Theorem missing_name_key_error (nodes : list tax_line) (names : list name_line) (k : Z) :
  ¬ duplicate_name names →
  k ∈ ids nodes ∨ k ∈ parents nodes →
  ¬ named names k →
  TaxonomyTree_init nodes names = Raise KeyError
  ∧ ∃ taxid2name pre tax_id tax_parent tax_rank post s1 s2 j,
      read_names names ∅ = Ok taxid2name
      ∧ nodes = pre ++ (tax_id, tax_parent, tax_rank) :: post
      ∧ names_cover names pre
      ∧ for_each (read_node taxid2name) pre tt empty_tree = (Ok tt, s1)
      ∧ read_node taxid2name tt (tax_id, tax_parent, tax_rank) s1 = (Raise KeyError, s2)
      ∧ construct_tree names nodes empty_tree = (Raise KeyError, s2)
      ∧ ¬ named names j
      ∧ name_get taxid2name j s2 = (Raise KeyError, s2)
      ∧ (j = tax_id ∧ s2 = s1
         ∨ j = tax_parent
           ∧ named names tax_id
           ∧ taxonomy s2 !! tax_parent = None
           ∧ ∃ entry, taxid2name !! tax_id = Some entry
                      ∧ taxonomy s2
                        = upsert_node entry tax_id tax_parent tax_rank (taxonomy s1)).
Proof.
  intros Hnd Hk Hunnamed.
  destruct (read_names_outcome names) as [[taxid2name Hnames] | Hraise].
  2:{ by apply read_names_raises in Hraise. }
  pose proof (read_names_dom names taxid2name Hnames) as Hdom.
  destruct (first_unnamed_line taxid2name nodes)
    as (pre & i & p & r & post & -> & Hpre & Hmiss).
  { exists k. split; [done |]. destruct (taxid2name !! k) eqn:Hl; [| done].
    destruct Hunnamed. apply Hdom. eauto. }
  destruct (read_nodes_named taxid2name pre empty_tree Hpre) as [s1 Hs1].
  pose proof (nodes_phase_inv _ _ _ Hs1) as HI.
  destruct (read_node_unnamed taxid2name tt i p r s1) as (s2 & j & Hrun & Hget & Hj);
    [| done |].
  { intros j Hj. apply Hpre. by apply (nodes_inv_dom pre s1 j HI). }
  assert (Hct : construct_tree names (pre ++ (i, p, r) :: post) empty_tree
                = (Raise KeyError, s2)).
  { unfold construct_tree. unfold bind at 1. unfold lift. rewrite Hnames.
    unfold bind at 1. rewrite (for_each_app_ok _ pre _ _ _ _ _ Hs1).
    cbn [for_each]. unfold bind at 1. by rewrite Hrun. }
  split; [unfold TaxonomyTree_init; by rewrite Hct |].
  exists taxid2name, pre, i, p, r, post, s1, s2, j.
  split_and!; [done | done | | done | done | done | | done |].
  - intros x Hx. apply Hdom. by apply Hpre.
  - intros Hn. apply Hdom in Hn as [e He]. revert Hget. unfold name_get.
    rewrite He. done.
  - destruct Hj as [? | (-> & Hp2 & entry & He & Ht)]; [by left |].
    right. split_and!; [done | | done | eauto]. apply Hdom. eauto.
Qed.

Lemma missing_name_key_error_witness :
  TaxonomyTree_init orphan_nodes orphan_names_short = Raise KeyError
  ∧ ∃ taxid2name pre tax_id tax_parent tax_rank post s1 s2 j,
      read_names orphan_names_short ∅ = Ok taxid2name
      ∧ orphan_nodes = pre ++ (tax_id, tax_parent, tax_rank) :: post
      ∧ names_cover orphan_names_short pre
      ∧ for_each (read_node taxid2name) pre tt empty_tree = (Ok tt, s1)
      ∧ read_node taxid2name tt (tax_id, tax_parent, tax_rank) s1 = (Raise KeyError, s2)
      ∧ construct_tree orphan_names_short orphan_nodes empty_tree = (Raise KeyError, s2)
      ∧ ¬ named orphan_names_short j
      ∧ name_get taxid2name j s2 = (Raise KeyError, s2)
      ∧ (j = tax_id ∧ s2 = s1
         ∨ j = tax_parent
           ∧ named orphan_names_short tax_id
           ∧ taxonomy s2 !! tax_parent = None
           ∧ ∃ entry, taxid2name !! tax_id = Some entry
                      ∧ taxonomy s2
                        = upsert_node entry tax_id tax_parent tax_rank (taxonomy s1)).
Proof.
  apply (missing_name_key_error orphan_nodes orphan_names_short 7).
  - rewrite <- read_names_raises. vm_compute. discriminate.
  - right. apply list_elem_of_further, list_elem_of_here.
  - intros (n & name_type & Hin & _). unfold orphan_names_short in Hin.
    rewrite !elem_of_cons, elem_of_nil in Hin.
    destruct Hin as [Hin | [Hin | []]]; discriminate.
Defined.

(** C10 as written fails when the name source also has a second name of
    a kind: with parent 7 unnamed and two scientific names for 5,
    construction raises [TaxonomyTreeException] from the loop over the
    name source, and the node source is never read. *)
Lemma missing_name_key_error_counterexample :
  (7 ∈ ids orphan_nodes ∨ 7 ∈ parents orphan_nodes)
  ∧ ¬ named orphan_names_twice 7
  ∧ TaxonomyTree_init orphan_nodes orphan_names_twice = Raise TaxonomyTreeException
  ∧ TaxonomyTree_init orphan_nodes orphan_names_twice ≠ Raise KeyError.
Proof.
  split_and!.
  - right. apply list_elem_of_further, list_elem_of_here.
  - intros (n & name_type & Hin & _). unfold orphan_names_twice, orphan_names_short in Hin.
    rewrite elem_of_app, !elem_of_cons, !elem_of_nil in Hin.
    destruct Hin as [[Hin | [Hin | []]] | [Hin | []]]; discriminate.
  - vm_compute. reflexivity.
  - vm_compute. discriminate.
Qed.

(** ** Rank codes, in general *)

Lemma is_distance_nonneg t a b d : is_distance t a b d → 0 ≤ d.
Proof.
  intros (la & lb & v & ia & ja & ib & jb
          & Hla & Hlb & _ & Hia & Hja & Hib & Hjb & ->).
  rewrite (py_index_last _ _ (lineage_of_NoDup _ _ _ Hla) (lineage_of_last _ _ _ Hla)) in Hja.
  rewrite (py_index_last _ _ (lineage_of_NoDup _ _ _ Hlb) (lineage_of_last _ _ _ Hlb)) in Hjb.
  apply py_index_lt in Hia, Hib. simplify_eq. lia.
Qed.

Lemma distance_rel_nonneg t a b d : distance_rel t a b d → 0 ≤ d.
Proof. intros [H | H]; by eapply is_distance_nonneg. Qed.

Lemma assoc_elem_of {A : Type} k (d : list (string * A)) v :
  assoc k d = Some v → v ∈ d.*2.
Proof.
  induction d as [| [k' v'] d IH]; cbn [assoc]; [done |].
  case_decide.
  - intros [= <-]. apply list_elem_of_here.
  - intros H'. apply list_elem_of_further. auto.
Qed.

Lemma own_rank_code_range tax_id node code :
  own_rank_code tax_id node code → code ∈ "R" :: canonical_ranks.
Proof.
  intros [Hcode | (_ & _ & ->)]; [| apply list_elem_of_here].
  apply list_elem_of_further. unfold rank2code in Hcode.
  destruct (rank node) as [r |]; [| done]. by eapply assoc_elem_of.
Qed.

Lemma dict_keys_elem_of l : ∀ seen k, k ∈ dict_keys seen l ↔ k ∈ l ∧ k ∉ seen.
Proof.
  induction l as [| x l IH]; intros seen k; cbn [dict_keys].
  - split; [by intros ?%elem_of_nil | by intros [?%elem_of_nil _]].
  - case_bool_decide as Hx.
    + rewrite IH, elem_of_cons. split; [naive_solver |].
      intros [[-> | Hk] Hns]; [done | done].
    + rewrite elem_of_cons, IH, !elem_of_cons. split.
      * intros [-> | [Hk Hns]]; [by split; [left |] |]. split; [by right |].
        intros Hin. apply Hns. by right.
      * intros [[-> | Hk] Hns]; [by left |].
        destruct (decide (k = x)) as [-> | Hne]; [by left |]. right. split; [done |].
        by intros [? | ?].
Qed.

(** What an entry of [get_rank_code]'s result holds. *)
Definition rank_entry (t : gmap Z Node) (tax_id : Z) (rk : Rank) : Prop :=
  ∃ node, t !! tax_id = Some node
          ∧ rank_name rk = rank node
          ∧ rank_code rk ∈ "R" :: canonical_ranks
          ∧ 0 ≤ rank_depth rk.

Lemma get_rank_code_step_entry fuel rank_dict acc tax_id s acc' s' :
  caches_ok s →
  (∀ k v, rank_dict !! k = Some v →
          ∃ node, taxonomy s !! k = Some node ∧ v = rank node) →
  get_rank_code_step fuel rank_dict acc tax_id s = (Ok acc', s') →
  tree_of s' = tree_of s ∧ caches_ok s'
  ∧ ∃ rk, acc' = <[tax_id := rk]> acc ∧ rank_entry (taxonomy s) tax_id rk.
Proof.
  intros Hok Hranks. unfold get_rank_code_step.
  unfold bind at 1. unfold dict_get at 1.
  destruct (rank_dict !! tax_id) as [rk0 |] eqn:Hrk0; [| by run].
  destruct (Hranks _ _ Hrk0) as (node & Hnode & ->).
  unfold ret at 1. unfold bind at 1.
  destruct (rank_code_loop fuel (rank node) tax_id s) as [[[code stop] | e |] s1] eqn:Hloop;
    [| done | done].
  destruct (rank_code_loop_sound _ _ _ _ _ _ _ _ Hnode eq_refl Hloop)
    as (-> & node' & Hstop & Hown).
  unfold bind at 1.
  destruct (get_distance fuel stop tax_id s) as [[depth | e |] s2] eqn:Hdist;
    [| done | done].
  destruct (get_distance_spec _ _ _ _ _ _ Hok Hdist) as (Htree & Hok2 & Hd).
  assert (Ht : taxonomy s2 = taxonomy s) by (by injection Htree).
  unfold get_rank. rewrite get_properties_one.
  rewrite <- Ht in Hnode. rewrite (lookup_node_found _ _ _ Hnode). rewrite Ht in Hnode.
  run. intros [= <- <-]. split_and!; [done | done |].
  eexists. split; [done |]. exists node. cbn. split_and!; [done | done | |].
  - by eapply own_rank_code_range.
  - eapply distance_rel_nonneg. by apply Hd.
Qed.

Lemma get_rank_code_loop_entries fuel rank_dict l : ∀ acc s acc' s',
  caches_ok s →
  (∀ k v, rank_dict !! k = Some v →
          ∃ node, taxonomy s !! k = Some node ∧ v = rank node) →
  for_each (get_rank_code_step fuel rank_dict) l acc s = (Ok acc', s') →
  (∀ n, n ∈ l → ∃ rk, acc' !! n = Some rk ∧ rank_entry (taxonomy s) n rk)
  ∧ (∀ n, n ∉ l → acc' !! n = acc !! n).
Proof.
  induction l as [| x l IH]; intros acc s acc' s' Hok Hranks; cbn [for_each].
  - run. intros [= <- <-]. split; [| done]. by intros n ?%elem_of_nil.
  - unfold bind.
    destruct (get_rank_code_step fuel rank_dict acc x s) as [[acc1 | e |] s1] eqn:Hstep;
      [| done | done].
    destruct (get_rank_code_step_entry _ _ _ _ _ _ _ Hok Hranks Hstep)
      as (Htree & Hok1 & rk & -> & Hrk).
    assert (Ht : taxonomy s1 = taxonomy s) by (by injection Htree).
    intros Hrest. rewrite <- Ht in Hranks.
    destruct (IH _ _ _ _ Hok1 Hranks Hrest) as [Hin Hout]. rewrite Ht in Hin.
    split.
    + intros n Hn. destruct (decide (n ∈ l)) as [Hl | Hl]; [by apply Hin |].
      apply elem_of_cons in Hn as [-> | Hn]; [| done].
      exists rk. by rewrite Hout, lookup_insert_eq.
    + intros n Hn. apply not_elem_of_cons in Hn as [Hne Hn].
      by rewrite Hout, lookup_insert_ne.
Qed.

(** X16. In any state of a built tree, a dictionary [get_rank_code]
    returns has exactly the requested identifiers as keys; for each, the
    [rank_name] is the node's own rank, the [rank_code] is one of [R],
    [D], [K], [P], [C], [O], [F], [G], [S], and the [rank_depth] is not
    negative. *)
Theorem get_rank_code_entries (nodes : list tax_line) (names : list name_line)
    (built_tree self self' : TaxonomyTree) (fuel : nat) (tax_id_list : list Z)
    (rank_code_dict : gmap Z Rank) :
  TaxonomyTree_init nodes names = Ok built_tree →
  state_of built_tree self →
  get_rank_code fuel tax_id_list self = (Ok rank_code_dict, self') →
  (∀ n, n ∉ tax_id_list → rank_code_dict !! n = None)
  ∧ ∀ n, n ∈ tax_id_list →
      ∃ rk, rank_code_dict !! n = Some rk ∧ rank_entry (taxonomy built_tree) n rk.
Proof.
  intros _ Hstate. pose proof (state_of_taxonomy _ _ Hstate) as Ht.
  destruct Hstate as [_ Hok]. rewrite <- Ht.
  unfold get_rank_code. unfold bind at 1.
  destruct (get_rank tax_id_list self) as [[rank_dict | e |] s1] eqn:Hrank; [| done | done].
  apply get_properties_spec in Hrank as [-> Hranks]. intros Hloop.
  destruct (get_rank_code_loop_entries _ _ _ _ _ _ _ Hok Hranks Hloop) as [Hin Hout].
  split.
  - intros n Hn. rewrite Hout, ?lookup_empty; [done |].
    rewrite dict_keys_elem_of. tauto.
  - intros n Hn. apply Hin. rewrite dict_keys_elem_of. split; [done |].
    by intros ?%elem_of_nil.
Qed.

Lemma get_rank_code_entries_witness :
  (∀ n, n ∉ [100; 1] →
        ({[100 := mkRank (Some "species") "S" 0; 1 := mkRank (Some "no rank") "R" 0]}
           : gmap Z Rank) !! n = None)
  ∧ ∀ n, n ∈ [100; 1] →
      ∃ rk, ({[100 := mkRank (Some "species") "S" 0; 1 := mkRank (Some "no rank") "R" 0]}
               : gmap Z Rank) !! n = Some rk
            ∧ rank_entry (taxonomy pinus) n rk.
Proof.
  eapply (get_rank_code_entries pinus_nodes pinus_names pinus pinus _ 10%nat [100; 1]).
  - vm_compute. reflexivity.
  - apply (init_state pinus_nodes pinus_names). vm_compute. reflexivity.
  - vm_compute. reflexivity.
Defined.

(** ** Clades *)

(** [y] is in the [children] list of the node [x]. *)
Definition child_of (t : gmap Z Node) (x y : Z) : Prop :=
  ∃ node, t !! x = Some node ∧ y ∈ children node.

(** The descendants of [a], [a] included: what children links reach. *)
Definition descendant (t : gmap Z Node) (a x : Z) : Prop := rtc (child_of t) a x.

(** The loop of [get_clade], from any pool and clade that are on their
    way: new members only come from the pool, and whatever has left the
    pool has its children in the clade. *)
Lemma clade_loop_sound (a : Z) fuel : ∀ pool clade s r s',
  pool ⊆ clade →
  a ∈ clade →
  (∀ x, x ∈ clade → descendant (taxonomy s) a x) →
  (∀ x y, x ∈ clade → x ∉ pool → child_of (taxonomy s) x y → y ∈ clade) →
  clade_loop fuel pool clade s = (Ok r, s') →
  s' = s ∧ ∀ x, x ∈ r ↔ descendant (taxonomy s) a x.
Proof.
  induction fuel as [| fuel IH]; intros pool clade s r s' Hsub Ha Hsound Hclosed;
    cbn [clade_loop]; [done |].
  destruct (elements pool) as [| c rest] eqn:Hel.
  - run. intros [= <- <-]. split; [done |].
    apply elements_empty_inv in Hel. apply leibniz_equiv in Hel. subst pool.
    intros x. split; [apply Hsound |].
    revert x. apply (rtc_ind_r (λ x, x ∈ clade) a); [done |].
    intros y z _ Hyz Hy. eapply Hclosed; [exact Hy | set_solver | done].
  - assert (Hc : c ∈ pool).
    { apply elem_of_elements. rewrite Hel. apply list_elem_of_here. }
    cbn zeta. rewrite get_node_one.
    destruct (lookup_node s c) as [node | e |] eqn:Hnode; [| done | done].
    apply lookup_node_ok in Hnode.
    apply IH.
    + set_solver.
    + set_solver.
    + intros x [Hx | Hx]%elem_of_union; [by apply Hsound |].
      apply elem_of_list_to_set in Hx.
      apply (rtc_r a c x); [apply Hsound; set_solver | by exists node].
    + intros x y [Hx | Hx]%elem_of_union Hnp Hxy.
      * destruct (decide (x = c)) as [-> | Hne].
        -- destruct Hxy as (node' & Hnode' & Hy). simplify_eq.
           apply elem_of_union. right. by apply elem_of_list_to_set.
        -- apply elem_of_union. left. eapply Hclosed; [done | set_solver | done].
      * exfalso. apply Hnp. set_solver.
Qed.

Lemma get_clade_loop_sound fuel l : ∀ (acc : gmap Z (gset Z)) s acc' s',
  for_each (λ clade_dict tax_id,
              let* node_dict := get_node [tax_id] in
              let* node := dict_get node_dict tax_id in
              let children_pool : gset Z := list_to_set (children node) in
              let* clade := clade_loop fuel children_pool ({[tax_id]} ∪ children_pool) in
              ret (<[tax_id := clade]> clade_dict)) l acc s = (Ok acc', s') →
  s' = s
  ∧ (∀ a, a ∈ l → ∃ clade, acc' !! a = Some clade
                           ∧ ∀ x, x ∈ clade ↔ descendant (taxonomy s) a x)
  ∧ (∀ a, a ∉ l → acc' !! a = acc !! a).
Proof.
  induction l as [| a l IH]; intros acc s acc' s'; cbn [for_each].
  - run. intros [= <- <-]. split_and!; [done | | done]. by intros ? ?%elem_of_nil.
  - unfold bind at 1. rewrite get_node_one.
    destruct (lookup_node s a) as [node | e |] eqn:Hnode; [| done | done].
    apply lookup_node_ok in Hnode. cbn zeta. unfold bind at 1.
    destruct (clade_loop fuel (list_to_set (children node))
                ({[a]} ∪ list_to_set (children node)) s) as [[clade | e |] s1] eqn:Hloop;
      [| done | done].
    apply (clade_loop_sound a) in Hloop as [-> Hclade].
    + unfold ret at 1. intros Hrest. apply IH in Hrest as (-> & Hin & Hout).
      split_and!; [done | |].
      * intros b Hb. destruct (decide (b ∈ l)) as [Hl | Hl]; [by apply Hin |].
        apply elem_of_cons in Hb as [-> | Hb]; [| done].
        exists clade. by rewrite Hout, lookup_insert_eq.
      * intros b Hb. apply not_elem_of_cons in Hb as [Hne Hb].
        by rewrite Hout, lookup_insert_ne.
    + set_solver.
    + set_solver.
    + intros x [Hx | Hx]%elem_of_union.
      * apply elem_of_singleton in Hx as ->. apply rtc_refl.
      * apply elem_of_list_to_set in Hx. apply rtc_once. by exists node.
    + intros x y [Hx | Hx]%elem_of_union Hnp Hxy; [| done].
      apply elem_of_singleton in Hx as ->.
      destruct Hxy as (node' & Hnode' & Hy). simplify_eq.
      apply elem_of_union. right. by apply elem_of_list_to_set.
Qed.

(** X17. Whenever [get_clade] returns, the object is unchanged, the
    returned dictionary has exactly the requested identifiers as keys,
    and the set for an identifier holds exactly its descendants, itself
    included: the identifiers that chains of [children] links reach
    from it. *)
Theorem get_clade_descendants (fuel : nat) (tax_id_list : list Z)
    (self self' : TaxonomyTree) (clade_dict : gmap Z (gset Z)) :
  get_clade fuel tax_id_list self = (Ok clade_dict, self') →
  self' = self
  ∧ (∀ a, a ∉ tax_id_list → clade_dict !! a = None)
  ∧ ∀ a, a ∈ tax_id_list →
      ∃ clade, clade_dict !! a = Some clade
               ∧ ∀ x, x ∈ clade ↔ descendant (taxonomy self) a x.
Proof.
  unfold get_clade. intros Hrun.
  apply get_clade_loop_sound in Hrun as (-> & Hin & Hout).
  split_and!; [done | | done]. intros a Ha. by rewrite Hout, lookup_empty.
Qed.

Lemma get_clade_descendants_witness :
  pinus = pinus
  ∧ (∀ a, a ∉ [10] → ({[10 := {[10; 100; 101]}]} : gmap Z (gset Z)) !! a = None)
  ∧ ∀ a, a ∈ [10] →
      ∃ clade, ({[10 := {[10; 100; 101]}]} : gmap Z (gset Z)) !! a = Some clade
               ∧ ∀ x, x ∈ clade ↔ descendant (taxonomy pinus) a x.
Proof.
  apply (get_clade_descendants 5 [10] pinus pinus).
  vm_compute. reflexivity.
Defined.

(** ** Leaves of a clade *)

(** A node without children. *)
Definition childless (t : gmap Z Node) (x : Z) : Prop :=
  ∃ node, t !! x = Some node ∧ children node = [].

(** What a depth-first visit from the identifiers [roots] does to the
    visited set and to the leaves collected: the newly visited
    identifiers descend from the roots and have their children visited,
    and the new leaves are the newly visited childless nodes. *)
Definition visit_ok (t : gmap Z Node) (roots : list Z) (V L V' L' : gset Z) : Prop :=
  V ⊆ V'
  ∧ (∀ c, c ∈ roots → c ∈ V')
  ∧ (∀ y, y ∈ V' → y ∉ V → ∃ c, c ∈ roots ∧ descendant t c y)
  ∧ (∀ y z, y ∈ V' → y ∉ V → child_of t y z → z ∈ V')
  ∧ (∀ y, y ∈ L' ↔ y ∈ L ∨ (y ∈ V' ∧ (y ∉ V) ∧ childless t y)).

(** A loop of visits, given what one visit does. *)
Lemma visit_loop_ok (body : gset Z * gset Z → Z → M (gset Z * gset Z)) :
  (∀ V L x s V' L' s',
     body (V, L) x s = (Ok (V', L'), s') →
     s' = s ∧ visit_ok (taxonomy s) [x] V L V' L') →
  ∀ cs V L s V' L' s',
    for_each body cs (V, L) s = (Ok (V', L'), s') →
    s' = s ∧ visit_ok (taxonomy s) cs V L V' L'.
Proof.
  intros Hbody. induction cs as [| c cs IH]; intros V L s V' L' s'; cbn [for_each].
  - run. intros [= <- <- <-]. split; [done |]. unfold visit_ok.
    split_and!; [done | by intros ? ?%elem_of_nil | done | done | naive_solver].
  - unfold bind. destruct (body (V, L) c s) as [[[V1 L1] | e |] s1] eqn:Hc; [| done | done].
    apply Hbody in Hc as (-> & Hsub1 & Hroot1 & Hdesc1 & Hclosed1 & Hleaf1).
    intros Hrest. apply IH in Hrest as (-> & Hsub & Hroot & Hdesc & Hclosed & Hleaf).
    split; [done |]. unfold visit_ok. split_and!.
    + set_solver.
    + intros c' [-> | Hc']%elem_of_cons; [| by apply Hroot].
      apply Hsub, Hroot1, list_elem_of_here.
    + intros y Hy HyV. destruct (decide (y ∈ V1)) as [Hy1 | Hy1].
      * destruct (Hdesc1 y Hy1 HyV) as (c' & ->%list_elem_of_singleton & Hd).
        exists c. split; [apply list_elem_of_here | done].
      * destruct (Hdesc y Hy Hy1) as (c' & Hc' & Hd).
        exists c'. split; [by apply list_elem_of_further | done].
    + intros y z Hy HyV Hyz. destruct (decide (y ∈ V1)) as [Hy1 | Hy1].
      * apply Hsub. by eapply Hclosed1.
      * by eapply Hclosed.
    + intros y. rewrite Hleaf, Hleaf1. split.
      * intros [[? | (? & ? & ?)] | (? & ? & ?)]; [by left | right | right];
          (split_and!; [set_solver | set_solver | done]).
      * intros [? | (Hy & HyV & Hch)]; [by left; left |].
        destruct (decide (y ∈ V1)); [left; right | right]; done.
Qed.

(** One visit. *)
Lemma get_leaves_dfs_ok fuel : ∀ V L x s V' L' s',
  get_leaves_dfs fuel (V, L) x s = (Ok (V', L'), s') →
  s' = s ∧ visit_ok (taxonomy s) [x] V L V' L'.
Proof.
  induction fuel as [| fuel IH]; intros V L x s V' L' s'; cbn [get_leaves_dfs]; [done |].
  case_bool_decide as Hvis.
  - run. intros [= <- <- <-]. split; [done |]. unfold visit_ok.
    split_and!; [done | by intros ? ->%list_elem_of_singleton | done | done | naive_solver].
  - unfold get_children. rewrite get_properties_one.
    destruct (lookup_node s x) as [node | e |] eqn:Hnode; [| done | done].
    apply lookup_node_ok in Hnode.
    destruct (children node) as [| c cs] eqn:Hch.
    + run. intros [= <- <- <-]. split; [done |]. unfold visit_ok. split_and!.
      * set_solver.
      * intros ? ->%list_elem_of_singleton. set_solver.
      * intros y Hy HyV. exists x. split; [apply list_elem_of_here |].
        assert (y = x) as -> by set_solver. apply rtc_refl.
      * intros y z Hy HyV (node' & Hnode' & Hz).
        assert (y = x) as -> by set_solver. simplify_eq. rewrite Hch in Hz.
        by apply elem_of_nil in Hz.
      * intros y. rewrite elem_of_union, elem_of_singleton. split.
        -- intros [-> | ?]; [right | by left].
           split_and!; [set_solver | done | by exists node].
        -- intros [? | (Hy & HyV & _)]; [by right | left]. set_solver.
    + intros Hloop.
      apply (visit_loop_ok (get_leaves_dfs fuel) IH) in Hloop
        as (-> & Hsub & Hroot & Hdesc & Hclosed & Hleaf).
      split; [done |]. unfold visit_ok. split_and!.
      * set_solver.
      * intros ? ->%list_elem_of_singleton. set_solver.
      * intros y Hy HyV. exists x. split; [apply list_elem_of_here |].
        destruct (decide (y = x)) as [-> | Hne]; [apply rtc_refl |].
        destruct (Hdesc y Hy) as (c' & Hc' & Hd); [set_solver |].
        eapply rtc_l; [| exact Hd]. exists node. by rewrite Hch.
      * intros y z Hy HyV Hyz. destruct (decide (y = x)) as [-> | Hne].
        -- destruct Hyz as (node' & Hnode' & Hz). simplify_eq. rewrite Hch in Hz.
           by apply Hroot.
        -- eapply Hclosed; [done | set_solver | done].
      * intros y. rewrite Hleaf. split.
        -- intros [? | (Hy & HyV & Hcl)]; [by left | right].
           split_and!; [done | set_solver | done].
        -- intros [? | (Hy & HyV & Hcl)]; [by left | right].
           split_and!; [done | | done]. intros [->%elem_of_singleton | ?]%elem_of_union;
             [| done].
           destruct Hcl as (node' & Hnode' & Hnil). simplify_eq. congruence.
Qed.

(** A visit from nothing visited and nothing collected: the leaves are
    the childless descendants. *)
Lemma visit_all t a V' L' :
  visit_ok t [a] ∅ ∅ V' L' →
  ∀ y, y ∈ L' ↔ descendant t a y ∧ childless t y.
Proof.
  intros (_ & Hroot & Hdesc & Hclosed & Hleaf) y.
  assert (Hall : ∀ z, descendant t a z → z ∈ V').
  { apply (rtc_ind_r (λ z, z ∈ V') a); [apply Hroot, list_elem_of_here |].
    intros z w _ Hzw Hz. eapply Hclosed; [done | set_solver | done]. }
  rewrite Hleaf. split.
  - intros [?%elem_of_empty | (Hy & _ & Hcl)]; [done |].
    destruct (Hdesc y Hy) as (c & ->%list_elem_of_singleton & Hd); [set_solver | done].
  - intros [Hd Hcl]. right. split_and!; [by apply Hall | set_solver | done].
Qed.

Lemma get_leaves_loop_sound fuel l : ∀ (acc : gmap Z (gset Z)) s acc' s',
  for_each (λ clade_dict tax_id,
              let* st := get_leaves_dfs fuel (∅, ∅) tax_id in
              ret (<[tax_id := st.2]> clade_dict)) l acc s = (Ok acc', s') →
  s' = s
  ∧ (∀ a, a ∈ l → ∃ lv, acc' !! a = Some lv
                        ∧ ∀ y, y ∈ lv ↔ descendant (taxonomy s) a y
                                          ∧ childless (taxonomy s) y)
  ∧ (∀ a, a ∉ l → acc' !! a = acc !! a).
Proof.
  induction l as [| a l IH]; intros acc s acc' s'; cbn [for_each].
  - run. intros [= <- <-]. split_and!; [done | | done]. by intros ? ?%elem_of_nil.
  - unfold bind at 1. unfold bind at 1.
    destruct (get_leaves_dfs fuel (∅, ∅) a s) as [[[V' L'] | e |] s1] eqn:Hdfs;
      [| done | done].
    apply get_leaves_dfs_ok in Hdfs as [-> Hvisit].
    unfold ret at 1. cbn [snd]. intros Hrest.
    apply IH in Hrest as (-> & Hin & Hout). split_and!; [done | |].
    + intros b Hb. destruct (decide (b ∈ l)) as [Hl | Hl]; [by apply Hin |].
      apply elem_of_cons in Hb as [-> | Hb]; [| done].
      exists L'. rewrite Hout, lookup_insert_eq by done. split; [done |].
      by apply visit_all with (V' := V').
    + intros b Hb. apply not_elem_of_cons in Hb as [Hne Hb].
      by rewrite Hout, lookup_insert_ne.
Qed.

(** The leaves of the clade of [a]: its childless descendants. *)
Definition clade_leaves_of (t : gmap Z Node) (a : Z) (lv : gset Z) : Prop :=
  ∀ y, y ∈ lv ↔ descendant t a y ∧ childless t y.

(** X18. Whenever [get_leaves] returns, whatever depth of recursion the
    interpreter allows, the object is unchanged, the returned dictionary
    has exactly the requested identifiers as keys, and the set for an
    identifier holds exactly the childless nodes among its descendants,
    itself included. *)
Theorem get_leaves_of_clades (limit : nat) (tax_ids : list Z)
    (self self' : TaxonomyTree) (clade_dict : gmap Z (gset Z)) :
  get_leaves limit tax_ids self = (Ok clade_dict, self') →
  self' = self
  ∧ (∀ a, a ∉ tax_ids → clade_dict !! a = None)
  ∧ ∀ a, a ∈ tax_ids →
      ∃ lv, clade_dict !! a = Some lv ∧ clade_leaves_of (taxonomy self) a lv.
Proof.
  unfold get_leaves. intros Hrun.
  apply get_leaves_loop_sound in Hrun as (-> & Hin & Hout).
  split_and!; [done | | done]. intros a Ha. by rewrite Hout, lookup_empty.
Qed.

Lemma get_leaves_of_clades_witness :
  pinus = pinus
  ∧ (∀ a, a ∉ [1; 100] →
       ({[1 := {[100; 101]}; 100 := {[100]}]} : gmap Z (gset Z)) !! a = None)
  ∧ ∀ a, a ∈ [1; 100] →
      ∃ lv, ({[1 := {[100; 101]}; 100 := {[100]}]} : gmap Z (gset Z)) !! a = Some lv
            ∧ clade_leaves_of (taxonomy pinus) a lv.
Proof.
  apply (get_leaves_of_clades 5 [1; 100] pinus pinus).
  vm_compute. reflexivity.
Defined.

(** ** Rank codes along a lineage *)

(** Walking up from an identifier, [up] being its lineage from itself to
    the root: the code of the first node whose rank is canonical, or [R]
    at identifier 1, that node, and the number of steps taken. *)
Fixpoint rank_walk (t : gmap Z Node) (up : list Z) : option (string * Z * nat) :=
  match up with
  | [] => None
  | x :: up' =>
    match t !! x with
    | None => None
    | Some node =>
      match rank2code (rank node) with
      | Some code => Some (code, x, 0%nat)
      | None =>
        if decide (x = 1) then Some ("R", x, 0%nat)
        else (λ r : string * Z * nat, (r.1.1, r.1.2, S r.2)) <$> rank_walk t up'
      end
    end
  end.

(** On a lineage that starts at the root, the loop of [get_rank_code]
    is that walk. *)
Lemma rank_code_loop_complete s x l :
  lineage_of (taxonomy s) x l → head l = Some 1 →
  ∀ node, taxonomy s !! x = Some node →
  ∃ code stop k,
    rank_walk (taxonomy s) (reverse l) = Some (code, stop, k)
    ∧ reverse l !! k = Some stop
    ∧ ∀ fuel, (k < fuel)%nat →
        rank_code_loop fuel (rank node) x s = (Ok (code, stop), s).
Proof.
  induction 1 as [x node Hnode Hp | x node p l Hnode Hp Hl IH]; intros Hhead node' Hnode';
    rewrite Hnode in Hnode'; injection Hnode' as <-.
  - cbn in Hhead. injection Hhead as ->.
    change (reverse [1]) with [1]. cbn [rank_walk]. rewrite Hnode.
    destruct (rank2code (rank node)) as [code |] eqn:Hcode.
    + exists code, 1, 0%nat. split_and!; [done | done |].
      intros [| fuel] Hfuel; [lia |]. cbn [rank_code_loop]. by rewrite Hcode.
    + exists "R", 1, 0%nat. rewrite decide_True by done. split_and!; [done | done |].
      intros [| fuel] Hfuel; [lia |]. cbn [rank_code_loop]. rewrite Hcode.
      by rewrite decide_True.
  - rewrite reverse_snoc. cbn [rank_walk]. rewrite Hnode.
    destruct (rank2code (rank node)) as [code |] eqn:Hcode.
    + exists code, x, 0%nat. split_and!; [done | done |].
      intros [| fuel] Hfuel; [lia |]. cbn [rank_code_loop]. by rewrite Hcode.
    + destruct (decide (x = 1)) as [-> | Hne].
      * exists "R", 1, 0%nat. split_and!; [done | done |].
        intros [| fuel] Hfuel; [lia |]. cbn [rank_code_loop]. rewrite Hcode.
        by rewrite decide_True.
      * destruct (lineage_of_node _ _ _ Hl) as [pnode Hpnode].
        assert (Hhead' : head l = Some 1).
        { destruct l; [by apply lineage_of_last in Hl | done]. }
        destruct (IH Hhead' pnode Hpnode) as (code & stop & k & Hwalk & Hstop & Hloop).
        exists code, stop, (S k). rewrite Hwalk. split_and!; [done | done |].
        intros [| fuel] Hfuel; [lia |]. cbn [rank_code_loop]. rewrite Hcode.
        rewrite decide_False by done.
        unfold get_parent. rewrite get_properties_one, (lookup_node_found _ _ _ Hnode).
        apply parent_link_some in Hp as [-> _].
        unfold key_of at 1. unfold bind at 1. unfold ret at 1.
        unfold get_rank. rewrite get_properties_one, (lookup_node_found _ _ _ Hpnode).
        apply Hloop. lia.
Qed.

Lemma path_length_prefix lp r :
  NoDup (lp ++ r) → path_length lp (lp ++ r) = Z.of_nat (length r).
Proof.
  intros Hnd. unfold path_length. cbn zeta.
  replace (list_to_set lp ∩ list_to_set (lp ++ r) : gset Z) with (list_to_set lp : gset Z).
  - rewrite size_list_to_set by (by apply NoDup_app in Hnd as [? _]).
    rewrite length_app. lia.
  - apply set_eq. intros y. rewrite elem_of_intersection, !elem_of_list_to_set, elem_of_app.
    tauto.
Qed.

(** X19. In any state of a built tree, for an identifier [n] whose
    lineage starts at the root, [get_rank_code([n])] returns; the entry
    of [n] has the node's own rank as [rank_name], as [rank_code] the
    code of the first node, walking up from [n], whose rank is
    canonical ([R] if the root is reached first), and as [rank_depth]
    the number of steps walked. *)
Theorem get_rank_code_of_descendant (nodes : list tax_line) (names : list name_line)
    (built_tree self : TaxonomyTree) (n : Z) (la : list Z) (node : Node) :
  TaxonomyTree_init nodes names = Ok built_tree →
  state_of built_tree self →
  lineage_of (taxonomy self) n la → head la = Some 1 →
  taxonomy self !! n = Some node →
  ∃ code stop k,
    rank_walk (taxonomy self) (reverse la) = Some (code, stop, k)
    ∧ returns (λ fuel, get_rank_code fuel [n]) self
        {[n := mkRank (rank node) code (Z.of_nat k)]}.
Proof.
  intros Hinit [_ Hok] Hla Hhead Hnode.
  destruct (rank_code_loop_complete self n la Hla Hhead node Hnode)
    as (code & stop & k & Hwalk & Hstop & Hloop).
  exists code, stop, k. split; [done |].
  (* the stop is on the lineage, [k] steps from its end *)
  assert (Hstop_in : stop ∈ la).
  { apply elem_of_reverse. by eapply list_elem_of_lookup_2. }
  destruct (lineage_of_prefix _ _ _ Hla stop Hstop_in) as (ls & r & Hls & Heq).
  pose proof (lineage_of_NoDup _ _ _ Hla) as Hnd.
  assert (Hr : length r = k).
  { pose proof (lookup_lt_Some _ _ _ Hstop) as Hk. rewrite length_reverse in Hk.
    rewrite reverse_lookup in Hstop by done.
    pose proof (lineage_of_last _ _ _ Hls) as Hlast. rewrite last_lookup in Hlast.
    assert (Hpos : la !! pred (length ls) = Some stop).
    { rewrite Heq, lookup_app_l; [done |].
      destruct ls; [done | cbn; lia]. }
    pose proof (NoDup_lookup _ _ _ _ Hnd Hstop Hpos) as Hidx.
    rewrite Heq, length_app in Hidx, Hk.
    destruct ls; [done |]. cbn in *. lia. }
  assert (Hstop_ls : stop ∈ ls) by (by eapply last_elem_of, lineage_of_last).
  destruct (returns_distance self stop n ls la stop Hok Hls Hla Hstop_ls Hstop_in)
    as [fuel0 Hdist].
  rewrite Heq, path_length_prefix, Hr in Hdist by (by rewrite <- Heq).
  exists (S k `max` fuel0)%nat. intros fuel Hfuel.
  unfold get_rank_code. unfold bind at 1.
  assert (Hne : taxonomy self ≠ ∅).
  { intros Hempty. by rewrite Hempty, lookup_empty in Hnode. }
  destruct (get_properties_known rank [n] ∅ self Hne) as (rank_dict & Hrank & Hrd).
  { apply Forall_singleton. eauto. }
  unfold get_rank, get_properties. rewrite Hrank.
  assert (Hrn : rank_dict !! n = Some (rank node)).
  { rewrite Hrd, decide_True by apply list_elem_of_here. by rewrite Hnode. }
  cbn [dict_keys]. rewrite bool_decide_eq_false_2 by (by intros ?%elem_of_nil).
  cbn [dict_keys for_each]. unfold bind at 1. unfold get_rank_code_step.
  unfold bind at 1. unfold dict_get at 1. rewrite Hrn. unfold ret at 1.
  unfold bind at 1. rewrite Hloop by lia.
  unfold bind at 1. destruct (Hdist fuel) as [s2 Hd]; [lia |]. rewrite Hd.
  destruct (get_distance_spec _ _ _ _ _ _ Hok Hd) as (Htree & _ & _).
  assert (Ht : taxonomy s2 = taxonomy self) by (by injection Htree).
  fold (get_properties rank). fold get_rank. unfold get_rank at 1.
  rewrite get_properties_one. rewrite <- Ht in Hnode.
  rewrite (lookup_node_found _ _ _ Hnode). run. rewrite insert_empty. eauto.
Qed.

Lemma get_rank_code_of_descendant_witness :
  ∃ code stop k,
    rank_walk (taxonomy pinus) (reverse [1; 10; 100]) = Some (code, stop, k)
    ∧ returns (λ fuel, get_rank_code fuel [100]) pinus
        {[100 := mkRank (rank (mkNode (Some "Pinus taeda") (Some "loblolly pine")
                                 (Some "species") (Some 10) []))
                        code (Z.of_nat k)]}.
Proof.
  apply (get_rank_code_of_descendant pinus_nodes pinus_names pinus pinus 100 [1; 10; 100]).
  - vm_compute. reflexivity.
  - apply (init_state pinus_nodes pinus_names). vm_compute. reflexivity.
  - eapply (lineage_step _ 100 _ 10 [1; 10]); [vm_compute; reflexivity | reflexivity |].
    eapply (lineage_step _ 10 _ 1 [1]); [vm_compute; reflexivity | reflexivity |].
    eapply lineage_top; [vm_compute; reflexivity | reflexivity].
  - reflexivity.
  - vm_compute. reflexivity.
Defined.

(** ** What [get_clade_rank_taxids] records *)

Lemma wanted_below_state w wanted s o s' :
  wanted_below w wanted s = (o, s') → s' = s.
Proof.
  unfold wanted_below. generalize false as found. generalize (elements wanted) as l.
  induction l as [| r l IH]; intros found; cbn [for_each].
  - run. by intros [= _ <-].
  - unfold bind. destruct (assoc r canonical_rank_weights); [| by intros [= _ <-]].
    unfold ret at 1. apply IH.
Qed.

(** What a level dictionary may hold for the clade of [a]: under a
    wanted code, descendants of [a] whose own rank maps to that code. *)
Definition recorded_ok (t : gmap Z Node) (wanted : gset string) (a : Z)
    (tax_lvl_dict : gmap string (gset Z)) : Prop :=
  ∀ code members x, tax_lvl_dict !! code = Some members → x ∈ members →
    code ∈ wanted ∧ descendant t a x
    ∧ ∃ node, t !! x = Some node ∧ own_rank_code x node code.

Lemma dfs_records_loop (t : gmap Z Node) wanted a
    (body : dfs_state → Z → M dfs_state) :
  (∀ V D x s V' D' s',
     caches_ok s → taxonomy s = t → descendant t a x → recorded_ok t wanted a D →
     body (V, D) x s = (Ok (V', D'), s') →
     tree_of s' = tree_of s ∧ caches_ok s' ∧ recorded_ok t wanted a D') →
  ∀ cs V D s V' D' s',
    caches_ok s → taxonomy s = t → (∀ c, c ∈ cs → descendant t a c) →
    recorded_ok t wanted a D →
    for_each body cs (V, D) s = (Ok (V', D'), s') →
    tree_of s' = tree_of s ∧ caches_ok s' ∧ recorded_ok t wanted a D'.
Proof.
  intros Hbody. induction cs as [| c cs IH]; intros V D s V' D' s' Hok Ht Hcs HD;
    cbn [for_each].
  - run. by intros [= <- <- <-].
  - unfold bind. destruct (body (V, D) c s) as [[[V1 D1] | e |] s1] eqn:Hc; [| done | done].
    apply Hbody in Hc as (Htree1 & Hok1 & HD1);
      [| done | done | apply Hcs, list_elem_of_here | done].
    assert (Ht1 : taxonomy s1 = t) by (rewrite <- Ht; by injection Htree1).
    intros Hrest. apply IH in Hrest as (Htree & Hok' & HD'); [| done | done | | done].
    + split_and!; [congruence | done | done].
    + intros c' Hc'. apply Hcs. by apply list_elem_of_further.
Qed.

Lemma dfs_records (t : gmap Z Node) wanted a fuel : ∀ V D x s V' D' s',
  caches_ok s → taxonomy s = t → descendant t a x → recorded_ok t wanted a D →
  dfs fuel wanted (V, D) x s = (Ok (V', D'), s') →
  tree_of s' = tree_of s ∧ caches_ok s' ∧ recorded_ok t wanted a D'.
Proof.
  induction fuel as [| fuel IH]; intros V D x s V' D' s' Hok Ht Hx HD; cbn [dfs]; [done |].
  case_bool_decide as Hvis; [run; by intros [= <- <- <-] |].
  unfold bind at 1.
  destruct (get_rank_code fuel [x] s) as [[code_dict | e |] s1] eqn:Hcode; [| done | done].
  destruct (get_rank_code_sound _ _ _ _ _ Hok Hcode) as (Htree1 & Hok1 & Hzero).
  assert (Ht1 : taxonomy s1 = t) by (rewrite <- Ht; by injection Htree1).
  unfold bind at 1. unfold dict_get at 1.
  destruct (code_dict !! x) as [rk |] eqn:Hrk; [| done]. unfold ret at 1.
  cbn zeta. unfold bind at 1.
  set (upd := if bool_decide (rank_depth rk = 0) then _ else _).
  destruct (upd s1) as [[D1 | e |] s2] eqn:Hupd; [| done | done].
  assert (Hupd' : s2 = s1 ∧ recorded_ok t wanted a D1).
  { subst upd. revert Hupd. case_bool_decide as Hdepth; [| run; by intros [= <- <-]].
    case_bool_decide as Hwanted; [| run; by intros [= <- <-]].
    destruct (D !! rank_code rk) as [members |] eqn:Hmem; [| done].
    run. intros [= <- <-]. split; [done |].
    intros code members' y. rewrite lookup_insert. case_decide as Hc.
    - intros [= <-]. subst code. intros [Hy | Hy]%elem_of_union.
      + apply elem_of_singleton in Hy as ->. split_and!; [done | done |].
        destruct (Hzero x rk Hrk Hdepth) as (node & Hnode & _ & Hown).
        rewrite Ht in Hnode. eauto.
      + by eapply HD.
    - apply HD. }
  destruct Hupd' as [-> HD1].
  destruct (assoc (rank_code rk) canonical_rank_weights) as [w |]; [| done].
  unfold bind at 1.
  destruct (wanted_below w wanted s1) as [[descend | e |] s3] eqn:Hbelow; [| done | done].
  apply wanted_below_state in Hbelow as ->.
  destruct descend; [| run; intros [= <- <- <-]; done].
  unfold get_children. rewrite get_properties_one.
  destruct (lookup_node s1 x) as [node | e |] eqn:Hnode; [| done | done].
  apply lookup_node_ok in Hnode. intros Hloop.
  apply (dfs_records_loop t wanted a (dfs fuel wanted) IH) in Hloop
    as (Htree & Hok' & HD'); [| done | done | | done].
  - split_and!; [congruence | done | done].
  - intros c Hc. eapply rtc_r; [exact Hx |]. exists node. rewrite <- Ht1. done.
Qed.

Lemma string_chars_code r code :
  assoc r translate_rank2code = Some code → string_chars code = {[code]}.
Proof.
  unfold translate_rank2code. cbn [assoc].
  repeat case_decide; intros [= <-]; cbn [string_chars]; set_solver.
Qed.

Lemma not_canonical_R : "R" ∉ canonical_ranks.
Proof.
  unfold canonical_ranks, translate_rank2code. cbn.
  rewrite !elem_of_cons, elem_of_nil. naive_solver.
Qed.

Lemma empty_levels_ok t wanted a :
  recorded_ok t wanted a (set_to_map (λ tax_lvl : string, (tax_lvl, ∅)) wanted).
Proof.
  intros code members x Hcode Hx.
  apply lookup_set_to_map in Hcode as (lvl & _ & [= <- <-]); [| by intros ? ? _ _ [=]].
  by apply elem_of_empty in Hx.
Qed.

(** X20. In any state of a built tree, whatever [get_clade_rank_taxids]
    records is right: an identifier recorded under a rank code, in the
    dictionary of the identifier [a], is a descendant of [a] whose own
    rank maps to that code in the rank-to-code table, and when a rank
    was requested the code is the code of that rank. The object stays
    in a state of the built tree. *)
Theorem get_clade_rank_taxids_records (nodes : list tax_line) (names : list name_line)
    (built_tree self self' : TaxonomyTree) (fuel : nat) (tax_ids : list Z)
    (rk : option string) (clade_tax_rank_dict : gmap Z (gmap string (gset Z))) :
  TaxonomyTree_init nodes names = Ok built_tree →
  state_of built_tree self →
  get_clade_rank_taxids fuel tax_ids rk self = (Ok clade_tax_rank_dict, self') →
  state_of built_tree self'
  ∧ ∀ a tax_lvl_dict code members x,
      clade_tax_rank_dict !! a = Some tax_lvl_dict →
      tax_lvl_dict !! code = Some members → x ∈ members →
      descendant (taxonomy built_tree) a x
      ∧ (∃ node, taxonomy built_tree !! x = Some node
                 ∧ rank2code (rank node) = Some code)
      ∧ (∀ r, rk = Some r → r ≠ "" → rank2code (Some r) = Some code).
Proof.
  intros _ Hstate. pose proof (state_of_taxonomy _ _ Hstate) as Ht.
  destruct Hstate as [Htree Hok]. rewrite <- Ht.
  unfold get_clade_rank_taxids. cbn zeta. unfold bind at 1.
  set (pick := match rk with Some r => _ | None => _ end).
  destruct (pick self) as [[wanted | e |] s0] eqn:Hpick; [| done | done].
  assert (Hw : s0 = self ∧ ∀ code, code ∈ wanted →
                 code ∈ canonical_ranks
                 ∧ ∀ r, rk = Some r → r ≠ "" → rank2code (Some r) = Some code).
  { subst pick. revert Hpick. destruct rk as [r |].
    - case_decide as Hr.
      + unfold ret. intros [= <- <-]. split; [done |]. intros code Hc.
        apply (elem_of_list_to_set (C := gset string) code canonical_ranks) in Hc.
        split; [done |]. intros ? [= <-] ?. done.
      + destruct (assoc r translate_rank2code) as [c |] eqn:Hc; [| done].
        unfold ret. intros [= <- <-]. split; [done |]. intros code Hcode.
        rewrite (string_chars_code r c Hc) in Hcode.
        apply elem_of_singleton in Hcode as ->. split.
        * by eapply (assoc_elem_of r).
        * intros ? [= <-] _. done.
    - unfold ret. intros [= <- <-]. split; [done |]. intros code Hc.
      apply (elem_of_list_to_set (C := gset string) code canonical_ranks) in Hc.
        split; [done |]. intros ? [=]. }
  destruct Hw as [-> Hw]. intros Hloop.
  apply (for_each_fold _
           (λ acc s, tree_of s = tree_of self ∧ caches_ok s
                     ∧ ∀ a D, acc !! a = Some D →
                         recorded_ok (taxonomy self) wanted a D)) in Hloop.
  - destruct Hloop as (Htree' & Hok' & Hrec). split; [split; [congruence | done] |].
    intros a D code members x Ha Hcode Hx.
    destruct (Hrec a D Ha code members x Hcode Hx) as (Hwanted & Hdesc & node & Hnode & Hown).
    destruct (Hw code Hwanted) as [Hcanon Hr].
    split_and!; [done | | done]. exists node. split; [done |].
    destruct Hown as [Hown | (_ & _ & ->)]; [done |].
    by destruct not_canonical_R.
  - intros acc a s acc' s1 (Htree1 & Hok1 & Hacc). unfold bind at 1.
    destruct (dfs fuel wanted _ a s) as [[[V' D'] | e |] s2] eqn:Hdfs; [| done | done].
    assert (Ht1 : taxonomy s = taxonomy self) by (by injection Htree1).
    apply (dfs_records (taxonomy self) wanted a) in Hdfs as (Htree2 & Hok2 & HD');
      [| done | done | apply rtc_refl | apply empty_levels_ok].
    run. intros [= <- <-]. split_and!; [congruence | done |].
    intros b D. rewrite lookup_insert. case_decide; [| apply Hacc].
    intros [= <-]. by subst.
  - split_and!; [done | done |]. intros a D Ha.
    apply elem_of_list_to_map_2, list_elem_of_fmap in Ha as (? & [= -> ->] & _).
    intros code members y Hcode. by rewrite lookup_empty in Hcode.
Qed.

Lemma get_clade_rank_taxids_records_witness :
  state_of pinus (get_clade_rank_taxids 10 [1] (Some "species") pinus).2
  ∧ ∀ a tax_lvl_dict code members x,
      ({[1 := {["S" := {[100; 101]}]}]} : gmap Z (gmap string (gset Z))) !! a
      = Some tax_lvl_dict →
      tax_lvl_dict !! code = Some members → x ∈ members →
      descendant (taxonomy pinus) a x
      ∧ (∃ node, taxonomy pinus !! x = Some node
                 ∧ rank2code (rank node) = Some code)
      ∧ (∀ r, Some "species" = Some r → r ≠ "" → rank2code (Some r) = Some code).
Proof.
  apply (get_clade_rank_taxids_records pinus_nodes pinus_names pinus pinus _ 10%nat [1]).
  - vm_compute. reflexivity.
  - apply (init_state pinus_nodes pinus_names). vm_compute. reflexivity.
  - vm_compute. reflexivity.
Defined.

(** ** Where the rank error of [get_siblings] comes from *)

(** A computation is quiet when, on a built taxonomy (a non-empty
    dict), it leaves the taxonomy alone and never raises
    [TaxonomyTreeException]. *)
Definition quiet {A : Type} (m : M A) : Prop :=
  ∀ s o s', taxonomy s ≠ ∅ → m s = (o, s') →
    taxonomy s' = taxonomy s ∧ o ≠ Raise TaxonomyTreeException.

Lemma quiet_ret {A : Type} (a : A) : quiet (ret a).
Proof. intros s o s' _ [= <- <-]. done. Qed.

Lemma quiet_raise {A : Type} (e : exn) :
  e ≠ TaxonomyTreeException → quiet (raise e : M A).
Proof. intros He s o s' _ [= <- <-]. split; [done | congruence]. Qed.

Lemma quiet_out_of_fuel {A : Type} : quiet (out_of_fuel : M A).
Proof. intros s o s' _ [= <- <-]. done. Qed.

Lemma quiet_bind {A B : Type} (m : M A) (f : A → M B) :
  quiet m → (∀ a, quiet (f a)) → quiet (bind m f).
Proof.
  intros Hm Hf s o s' Hne. unfold bind.
  destruct (m s) as [[a | e |] s1] eqn:Hrun;
    destruct (Hm _ _ _ Hne Hrun) as [Ht Ho].
  - intros Hrest. rewrite <- Ht in Hne.
    destruct (Hf a _ _ _ Hne Hrest) as [Ht' Ho']. split; [congruence | done].
  - intros [= <- <-]. split; [done |]. intros [= ->]. by apply Ho.
  - by intros [= <- <-].
Qed.

Lemma quiet_get_self : quiet get_self.
Proof. intros s o s' _ [= <- <-]. done. Qed.

Lemma quiet_set_lineages v : quiet (set_lineages v).
Proof. intros s o s' _ [= <- <-]. done. Qed.

Lemma quiet_set_distances v : quiet (set_distances v).
Proof. intros s o s' _ [= <- <-]. done. Qed.

Lemma quiet_set_lca_mappings v : quiet (set_lca_mappings v).
Proof. intros s o s' _ [= <- <-]. done. Qed.

Lemma quiet_dict_get {A : Type} (d : gmap Z A) k : quiet (dict_get d k).
Proof. unfold dict_get. destruct (d !! k); [apply quiet_ret | by apply quiet_raise]. Qed.

Lemma quiet_key_of k : quiet (key_of k).
Proof. unfold key_of. destruct k; [apply quiet_ret | by apply quiet_raise]. Qed.

Lemma quiet_for_each {A B : Type} (body : B → A → M B) l :
  (∀ acc x, quiet (body acc x)) → ∀ acc, quiet (for_each body l acc).
Proof.
  intros Hbody. induction l as [| x l IH]; intros acc; cbn [for_each].
  - apply quiet_ret.
  - apply quiet_bind; [apply Hbody | apply IH].
Qed.

Lemma quiet__get_property {A : Type} tax_id (property : Node → A) :
  quiet (_get_property tax_id property).
Proof.
  intros s o s' Hne. rewrite _get_property_run by done.
  intros [= <- <-]. split; [done |]. by destruct (taxonomy s !! tax_id).
Qed.

Lemma quiet_get_properties {A : Type} (property : Node → A) l :
  quiet (get_properties property l).
Proof.
  unfold get_properties. apply quiet_for_each. intros acc x.
  apply quiet_bind; [apply quiet__get_property | intros; apply quiet_ret].
Qed.

Lemma quiet_get_node l : quiet (get_node l).
Proof.
  intros s o s' Hne. rewrite get_node_unfold. unfold taxonomy_built.
  rewrite bool_decide_eq_true_2 by done.
  apply (quiet_for_each _ l); [| done].
  intros acc x. apply quiet_bind; [apply quiet_dict_get | intros; apply quiet_ret].
Qed.

Create HintDb quiet.
#[local] Hint Resolve quiet_ret quiet_out_of_fuel quiet_get_self quiet_set_lineages
  quiet_set_distances quiet_set_lca_mappings quiet_dict_get quiet_key_of
  quiet__get_property quiet_get_properties quiet_get_node : quiet.

(** Break a computation down to the quiet pieces above. *)
Ltac quiet_step :=
  match goal with
  | |- quiet (bind _ _) => apply quiet_bind; [| intros ?]
  | |- quiet (for_each _ _ _) => apply quiet_for_each; intros ? ?
  | |- quiet (raise _) => by apply quiet_raise
  | |- quiet (match ?x with _ => _ end) => destruct x
  | |- quiet (let '(_, _) := ?x in _) => destruct x
  | |- quiet _ => solve [eauto with quiet]
  end.

Lemma quiet_lineage_loop fuel : ∀ node lineage, quiet (lineage_loop fuel node lineage).
Proof.
  induction fuel as [| fuel IH]; intros node lineage; cbn [lineage_loop];
    [apply quiet_out_of_fuel |].
  repeat quiet_step; try apply IH.
Qed.

Lemma quiet_get_lineage fuel l : quiet (get_lineage fuel l).
Proof.
  unfold get_lineage. apply quiet_for_each. intros d x. unfold get_lineage_step.
  repeat quiet_step; try apply quiet_lineage_loop.
Qed.

Lemma quiet_store_pair c a b v : quiet (store_pair c a b v).
Proof. unfold store_pair. repeat quiet_step. Qed.

Lemma quiet_get_lca fuel a b : quiet (get_lca fuel a b).
Proof.
  unfold get_lca. cbn zeta. repeat quiet_step;
    auto using quiet_get_lineage, quiet_store_pair.
Qed.

Lemma quiet_one_way_distance fuel anc id : quiet (one_way_distance fuel anc id).
Proof. unfold one_way_distance. repeat quiet_step; auto using quiet_get_lineage. Qed.

Lemma quiet_get_distance fuel a b : quiet (get_distance fuel a b).
Proof.
  unfold get_distance. cbn zeta. repeat quiet_step;
    auto using quiet_get_lca, quiet_one_way_distance, quiet_store_pair.
Qed.

Lemma quiet_rank_code_loop fuel : ∀ rk current_node, quiet (rank_code_loop fuel rk current_node).
Proof.
  induction fuel as [| fuel IH]; intros rk cur; cbn [rank_code_loop];
    [apply quiet_out_of_fuel |].
  unfold get_parent, get_rank. repeat quiet_step; try apply IH.
Qed.

Lemma quiet_get_rank_code fuel l : quiet (get_rank_code fuel l).
Proof.
  unfold get_rank_code, get_rank. apply quiet_bind; [auto with quiet |].
  intros rank_dict. apply quiet_for_each. intros acc x. unfold get_rank_code_step, get_rank.
  repeat quiet_step; auto using quiet_rank_code_loop, quiet_get_distance.
Qed.

Lemma quiet_siblings_parent fuel : ∀ current_tax_id, quiet (siblings_parent fuel current_tax_id).
Proof.
  induction fuel as [| fuel IH]; intros cur; cbn [siblings_parent];
    [apply quiet_out_of_fuel |].
  unfold get_parent. repeat quiet_step; auto using quiet_get_rank_code.
Qed.

Lemma quiet_siblings_dfs fuel wanted_rank : ∀ st tax_id,
  quiet (siblings_dfs fuel wanted_rank st tax_id).
Proof.
  induction fuel as [| fuel IH]; intros st tax_id; cbn [siblings_dfs];
    [apply quiet_out_of_fuel |].
  unfold get_children. repeat quiet_step; auto using quiet_get_rank_code.
Qed.

(** X21. In any state of a built tree, [get_siblings] raises
    [TaxonomyTreeException], its rank error, exactly when
    [get_rank_code] returns for the identifier and reports a
    [rank_depth] other than 0; the rank code plays no part, and no other
    step of [get_siblings] raises that exception. *)
Theorem get_siblings_rank_error (nodes : list tax_line) (names : list name_line)
    (built_tree self self' : TaxonomyTree) (fuel : nat) (tax_id : Z) :
  TaxonomyTree_init nodes names = Ok built_tree →
  state_of built_tree self →
  get_siblings fuel tax_id self = (Raise TaxonomyTreeException, self')
  ↔ ∃ d rk, get_rank_code fuel [tax_id] self = (Ok d, self')
            ∧ d !! tax_id = Some rk ∧ rank_depth rk ≠ 0.
Proof.
  intros Hinit Hstate. pose proof (state_of_taxonomy _ _ Hstate) as Ht.
  assert (Hne : taxonomy self ≠ ∅).
  { destruct (init_root _ _ _ Hinit) as (root & Hroot & _). rewrite Ht.
    intros Hempty. by rewrite Hempty, lookup_empty in Hroot. }
  unfold get_siblings. unfold bind at 1.
  destruct (get_rank_code fuel [tax_id] self) as [[d | e |] s1] eqn:Hcode.
  - destruct (quiet_get_rank_code fuel [tax_id] _ _ _ Hne Hcode) as [Ht1 _].
    unfold bind at 1. unfold dict_get at 1.
    destruct (d !! tax_id) as [rk |] eqn:Hrk.
    + unfold ret at 1. cbn zeta. case_decide as Hdepth.
      * split.
        -- intros Hrun. injection Hrun as <-. eauto.
        -- intros (d' & rk' & Hrun & Hlk & _). by simplify_eq.
      * split.
        -- intros Hrun. exfalso.
           assert (Hq : quiet (let* above := siblings_parent fuel tax_id in
                               let* st := siblings_dfs fuel (rank_code rk) (∅, ∅) above in
                               ret st.2)).
           { repeat quiet_step; auto using quiet_siblings_parent, quiet_siblings_dfs. }
           apply Hq in Hrun as [_ Ho]; [done |]. by rewrite Ht1.
        -- intros (d' & rk' & Hrun & Hlk & Hd). by simplify_eq.
    + split; [done |]. intros (d' & rk' & Hrun & Hlk & _). by simplify_eq.
  - destruct (quiet_get_rank_code fuel [tax_id] _ _ _ Hne Hcode) as [_ He].
    split; [intros Hrun; by simplify_eq | intros (? & ? & Hrun & _); done].
  - split; [done | intros (? & ? & Hrun & _); done].
Qed.

(** A tree with an unranked node below a species. *)
Definition strain_nodes : list tax_line :=
  [ (1, 1, "no rank"); (10, 1, "genus"); (100, 10, "species"); (1000, 100, "no rank") ].

Definition strain_names : list name_line :=
  [ (1, "root", "scientific name"); (10, "Pinus", "scientific name");
    (100, "Pinus taeda", "scientific name"); (1000, "a strain", "scientific name") ].

Definition strain : TaxonomyTree := built strain_nodes strain_names.

Lemma get_siblings_rank_error_witness :
  get_siblings 10 1000 strain
  = (Raise TaxonomyTreeException, (get_rank_code 10 [1000] strain).2)
  ↔ ∃ d rk, get_rank_code 10 [1000] strain = (Ok d, (get_rank_code 10 [1000] strain).2)
            ∧ d !! 1000 = Some rk ∧ rank_depth rk ≠ 0.
Proof.
  apply (get_siblings_rank_error strain_nodes strain_names strain strain).
  - vm_compute. reflexivity.
  - apply (init_state strain_nodes strain_names). vm_compute. reflexivity.
Defined.

(** X22. In any state of a built tree, none of [get_lineage],
    [get_lca], [get_distance], [get_rank_code] and [get_clade] ever
    raises [TaxonomyTreeException], the error of an unbuilt tree, and
    whatever their outcome they leave the taxonomy as built. *)
Theorem queries_never_raise_tree_exception (nodes : list tax_line)
    (names : list name_line) (built_tree self : TaxonomyTree) (fuel : nat) :
  TaxonomyTree_init nodes names = Ok built_tree →
  state_of built_tree self →
  (∀ tax_id_list o self', get_lineage fuel tax_id_list self = (o, self') →
     o ≠ Raise TaxonomyTreeException ∧ taxonomy self' = taxonomy built_tree)
  ∧ (∀ a b o self', get_lca fuel a b self = (o, self') →
     o ≠ Raise TaxonomyTreeException ∧ taxonomy self' = taxonomy built_tree)
  ∧ (∀ a b o self', get_distance fuel a b self = (o, self') →
     o ≠ Raise TaxonomyTreeException ∧ taxonomy self' = taxonomy built_tree)
  ∧ (∀ tax_id_list o self', get_rank_code fuel tax_id_list self = (o, self') →
     o ≠ Raise TaxonomyTreeException ∧ taxonomy self' = taxonomy built_tree)
  ∧ (∀ tax_id_list o self', get_clade fuel tax_id_list self = (o, self') →
     o ≠ Raise TaxonomyTreeException ∧ taxonomy self' = taxonomy built_tree).
Proof.
  intros Hinit Hstate. pose proof (state_of_taxonomy _ _ Hstate) as Ht.
  assert (Hne : taxonomy self ≠ ∅).
  { destruct (init_root _ _ _ Hinit) as (root & Hroot & _). rewrite Ht.
    intros Hempty. by rewrite Hempty, lookup_empty in Hroot. }
  assert (Hq : ∀ (A : Type) (m : M A), quiet m → ∀ o self', m self = (o, self') →
            o ≠ Raise TaxonomyTreeException ∧ taxonomy self' = taxonomy built_tree).
  { intros A m Hm o self' Hrun. destruct (Hm _ _ _ Hne Hrun) as [Ht' Ho].
    split; [done | congruence]. }
  split_and!; intros; eapply Hq; eauto.
  - apply quiet_get_lineage.
  - apply quiet_get_lca.
  - apply quiet_get_distance.
  - apply quiet_get_rank_code.
  - unfold get_clade. apply quiet_for_each. intros acc x.
    assert (Hloop : ∀ fuel' pool clade, quiet (clade_loop fuel' pool clade)).
    { induction fuel' as [| fuel' IH]; intros pool clade; cbn [clade_loop];
        [apply quiet_out_of_fuel |].
      repeat first [quiet_step | progress cbn zeta]; try apply IH. }
    repeat first [quiet_step | progress cbn zeta]; try apply Hloop.
Qed.

Lemma queries_never_raise_tree_exception_witness :
  (∀ tax_id_list o self', get_lineage 5 tax_id_list pinus = (o, self') →
     o ≠ Raise TaxonomyTreeException ∧ taxonomy self' = taxonomy pinus)
  ∧ (∀ a b o self', get_lca 5 a b pinus = (o, self') →
     o ≠ Raise TaxonomyTreeException ∧ taxonomy self' = taxonomy pinus)
  ∧ (∀ a b o self', get_distance 5 a b pinus = (o, self') →
     o ≠ Raise TaxonomyTreeException ∧ taxonomy self' = taxonomy pinus)
  ∧ (∀ tax_id_list o self', get_rank_code 5 tax_id_list pinus = (o, self') →
     o ≠ Raise TaxonomyTreeException ∧ taxonomy self' = taxonomy pinus)
  ∧ (∀ tax_id_list o self', get_clade 5 tax_id_list pinus = (o, self') →
     o ≠ Raise TaxonomyTreeException ∧ taxonomy self' = taxonomy pinus).
Proof.
  apply (queries_never_raise_tree_exception pinus_nodes pinus_names pinus pinus 5).
  - vm_compute. reflexivity.
  - apply (init_state pinus_nodes pinus_names). vm_compute. reflexivity.
Defined.
